(** * audioTranscriber: the transcription orchestrator of [src/index.js]

    A shallow embedding of the [AudioTranscriber] class: backend discovery,
    the remote probe and client, the subtitle (SRT) parser, the placeholder
    generator, temporary-file cleanup and the [transcribe] state machine,
    followed by the properties claimed of them by the specification. *)

From stdpp Require Import gmap strings list fin_maps pretty.
From Stdlib Require Import ZArith NArith Ascii.

Local Open Scope N_scope.

(** ** JavaScript strings

    A JavaScript string is modelled as a [string] whose characters are read as
    code units below 256.  The functions below are the [String.prototype]
    methods the source calls, restricted to that range. *)

Module JsString.

Definition nl : string := String "010"%char "".
Definition cr : string := String "013"%char "".
Definition dq : string := String "034"%char "".

Definition isEmpty (s : string) : bool :=
  match s with EmptyString => true | String _ _ => false end.

(** White space as [trim] sees it: TAB, LF, VT, FF, CR, SPACE and NBSP. *)
Definition isWhiteSpace (c : ascii) : bool :=
  existsb (N.eqb (N_of_ascii c)) [9; 10; 11; 12; 13; 32; 160].

(** The character class [\d]. *)
Definition isDigit (c : ascii) : bool :=
  (48 <=? N_of_ascii c) && (N_of_ascii c <=? 57).

Fixpoint trimStart (s : string) : string :=
  match s with
  | EmptyString => EmptyString
  | String c s' => if isWhiteSpace c then trimStart s' else s
  end.

Fixpoint trimEnd (s : string) : string :=
  match s with
  | EmptyString => EmptyString
  | String c s' =>
      let r := trimEnd s' in
      if isWhiteSpace c && isEmpty r then EmptyString else String c r
  end.

Definition trim (s : string) : string := trimEnd (trimStart s).

(** [s.includes(sub)] *)
Fixpoint includes (sub s : string) : bool :=
  if String.prefix sub s then true
  else match s with
       | EmptyString => false
       | String _ s' => includes sub s'
       end.

(** [s.split(sep)] for a non-empty separator.  [skip] counts the characters
    of a separator occurrence that are still to be dropped. *)
Fixpoint splitFrom (sep : string) (skip : nat) (cur s : string) : list string :=
  match s with
  | EmptyString => [cur]
  | String c s' =>
      match skip with
      | S k => splitFrom sep k cur s'
      | O =>
          if String.prefix sep s
          then cur :: splitFrom sep (String.length sep - 1) "" s'
          else splitFrom sep 0 (cur +:+ String c "") s'
      end
  end.

Definition split (sep s : string) : list string := splitFrom sep 0 "" s.

(** [l.join(sep)] *)
Fixpoint join (sep : string) (l : list string) : string :=
  match l with
  | [] => ""
  | [x] => x
  | x :: l' => x +:+ sep +:+ join sep l'
  end.

Fixpoint allDigits (s : string) : bool :=
  match s with
  | EmptyString => true
  | String c s' => isDigit c && allDigits s'
  end.

(** [/^\d+$/.test(s)] *)
Definition digitsOnly (s : string) : bool := negb (isEmpty s) && allDigits s.

Definition lowerChar (c : ascii) : ascii :=
  let n := N_of_ascii c in
  if ((65 <=? n) && (n <=? 90))
     || ((192 <=? n) && (n <=? 222) && negb (n =? 215))
  then ascii_of_N (n + 32) else c.

Fixpoint toLowerCase (s : string) : string :=
  match s with
  | EmptyString => EmptyString
  | String c s' => String (lowerChar c) (toLowerCase s')
  end.

(** Truthiness of a possibly-[null] string: [null] and [''] are falsy. *)
Definition truthy (o : option string) : bool :=
  match o with
  | Some s => negb (isEmpty s)
  | None => false
  end.

End JsString.

Import JsString.

(** ** Subtitle parser *)

(** The separator between the two timestamps of a time-range line. *)
Definition rangeSeparator : string := " --> ".

(** One iteration of the loop of [convertSrtToTimestampedText]; the state is
    the pair [(timestampedText, currentText)]. *)
Definition srtStep (st : string * string) (raw : string) : string * string :=
  let '(timestampedText, currentText) := st in
  let line := trim raw in
  if isEmpty line || digitsOnly line then st
  else if includes rangeSeparator line then
    let flushed :=
      if isEmpty currentText then timestampedText
      else timestampedText +:+ (currentText +:+ nl +:+ nl) in
    let startTime := default "" (head (split rangeSeparator line)) in
    (flushed +:+ ("[" +:+ startTime +:+ "] "), "")
  else (timestampedText, currentText +:+ (line +:+ " ")).

Definition srtLoop (lines : list string) : string * string :=
  fold_left srtStep lines ("", "").

Definition srtFinish (st : string * string) : string :=
  let '(timestampedText, currentText) := st in
  if isEmpty currentText then timestampedText
  else timestampedText +:+ trim currentText.

Definition convertSrtToTimestampedText (srtContent : string) : string :=
  srtFinish (srtLoop (split nl srtContent)).

(** The predicate of the [filter] in the plain-text branch of [transcribe]. *)
Definition isTextLine (line : string) : bool :=
  negb (isEmpty (trim line))
  && negb (digitsOnly (trim line))
  && negb (includes rangeSeparator line).

(** The plain-text branch of [transcribe] (timestamps not requested). *)
Definition plainLines (lines : list string) : string :=
  trim (join " " (List.filter isTextLine lines)).

Definition srtToPlainText (srtContent : string) : string :=
  plainLines (split nl srtContent).

(** The subtitle parser as [transcribe] applies it. *)
Definition parseSubtitle (includeTimestamps : bool) (srtContent : string) : string :=
  if includeTimestamps then convertSrtToTimestampedText srtContent
  else srtToPlainText srtContent.

(** ** The world outside the program

    Files, the clock, the random generator, child processes and the network
    are external.  The program observes them through the oracles of [Env];
    every oracle receives the history of the events so far, so that its
    answers may change over time.  The disk is a map from paths to files; it
    changes only through the child processes that the call starts and through
    the removals that the call performs. *)

Record File := { fsize : N; fdata : string }.

Record ParsedUrl := {
  url_hostname : option string;
  url_port : option string;
  url_path : option string }.

Record RequestOptions := {
  ro_hostname : option string;
  ro_port : string;
  ro_path : option string;
  ro_method : string;
  ro_timeout : option N;
  ro_headers : list (string * string) }.

Inductive Event :=
| EvNow
| EvRandom
| EvExists (p : string)
| EvStat (p : string)
| EvRead (p : string)
| EvRemove (p : string)
| EvExec (cmd : string)
| EvRequest (o : RequestOptions) (body : option string)
| EvWarn (args : list string).

(** A computation either returns or throws an [Error] with a message. *)
Inductive Res (A : Type) :=
| Ok (a : A)
| Throw (msg : string).
Arguments Ok {A} a.
Arguments Throw {A} msg.

(** What a [HEAD] probe request ends in. *)
Inductive ProbeOutcome :=
| ProbeResponse (status : N)
| ProbeError (msg : string)
| ProbeTimeout
| ProbeThrows (msg : string).

(** What the upload request ends in. *)
Inductive PostOutcome :=
| PostEnd (status : N) (data : string)
| PostError (msg : string)
| PostThrows (msg : string).

Record Env := {
  (** [process.env.HOME]; [None] when the variable is not set *)
  env_HOME : option string;
  (** [Date.now()] *)
  env_now : list Event -> N;
  (** [Math.floor(Math.random() * n)] *)
  env_random_below : list Event -> nat -> nat;
  (** [Math.random().toString(16).substr(2)] *)
  env_random_hex : list Event -> string;
  (** a child process: the error message of a failed run, and the files it leaves *)
  env_exec : list Event -> gmap string File -> string -> option string * gmap string File;
  (** [fs.remove]: the error message when the removal fails *)
  env_remove : list Event -> gmap string File -> string -> option string;
  env_head : list Event -> RequestOptions -> ProbeOutcome;
  env_post : list Event -> RequestOptions -> string -> PostOutcome;
  (** Node's [path] module; [path.join] throws a [TypeError] when an argument
      is not a string, [path_join_undefined] is the message of that error for
      an [undefined] argument *)
  path_join : string -> string -> string;
  path_join_undefined : string;
  path_basename : string -> string;
  path_basename_ext : string -> string -> string;
  path_extname : string -> string;
  (** [url.parse] *)
  url_parse : string -> Res ParsedUrl;
  (** [JSON.parse(data)] followed by [result.text || result] *)
  json_text : string -> Res string;
  (** the message of the error raised when a missing path is opened *)
  enoent : string -> string }.

(** The state a call runs in: the files on disk, the events so far and the
    [tempFiles] array of the call. *)
Record World := {
  files : gmap string File;
  trace : list Event;
  tempFiles : list string }.

Definition M (A : Type) : Type := World -> Res A * World.

Definition ret {A} (a : A) : M A := fun w => (Ok a, w).
Definition throw {A} (msg : string) : M A := fun w => (Throw msg, w).

Definition bind {A B} (m : M A) (k : A -> M B) : M B :=
  fun w =>
    match m w with
    | (Ok a, w') => k a w'
    | (Throw msg, w') => (Throw msg, w')
    end.

(** [try { m } catch (error) { h error.message }] *)
Definition try_catch {A} (m : M A) (h : string -> M A) : M A :=
  fun w =>
    match m w with
    | (Ok a, w') => (Ok a, w')
    | (Throw msg, w') => h msg w'
    end.

(** [try { m } finally { f }] *)
Definition try_finally {A} (m : M A) (f : M unit) : M A :=
  fun w =>
    match m w with
    | (r, w') =>
        match f w' with
        | (Ok _, w'') => (r, w'')
        | (Throw msg, w'') => (Throw msg, w'')
        end
    end.

Definition lift {A} (r : Res A) : M A := fun w => (r, w).

Declare Scope js_scope.
Delimit Scope js_scope with js.
Notation "x <- m ;; k" := (bind m (fun x => k))
  (at level 100, m at next level, right associativity) : js_scope.
Notation "m ;;; k" := (bind m (fun _ => k))
  (at level 100, right associativity) : js_scope.
Local Open Scope js_scope.

Definition emit (ev : Event) (w : World) : World :=
  {| files := files w; trace := trace w ++ [ev]; tempFiles := tempFiles w |}.

Definition setFiles (fs : gmap string File) (w : World) : World :=
  {| files := fs; trace := trace w; tempFiles := tempFiles w |}.

Definition setTempFiles (l : list string) (w : World) : World :=
  {| files := files w; trace := trace w; tempFiles := l |}.

Section Primitives.
Variable e : Env.

Definition now : M N :=
  fun w => (Ok (env_now e (trace w)), emit EvNow w).

Definition randomBelow (n : nat) : M nat :=
  fun w => (Ok (env_random_below e (trace w) n), emit EvRandom w).

Definition randomHex : M string :=
  fun w => (Ok (env_random_hex e (trace w)), emit EvRandom w).

Definition existsSync (p : string) : M bool :=
  fun w => (Ok (bool_decide (is_Some (files w !! p))), emit (EvExists p) w).

Definition statSize (p : string) : M N :=
  fun w =>
    match files w !! p with
    | Some f => (Ok (fsize f), emit (EvStat p) w)
    | None => (Throw (enoent e p), emit (EvStat p) w)
    end.

Definition readFileSync (p : string) : M string :=
  fun w =>
    match files w !! p with
    | Some f => (Ok (fdata f), emit (EvRead p) w)
    | None => (Throw (enoent e p), emit (EvRead p) w)
    end.

(** [await execAsync(cmd)] *)
Definition execAsync (cmd : string) : M unit :=
  fun w =>
    match env_exec e (trace w) (files w) cmd with
    | (None, fs) => (Ok tt, emit (EvExec cmd) (setFiles fs w))
    | (Some msg, fs) => (Throw msg, emit (EvExec cmd) (setFiles fs w))
    end.

(** [await fs.remove(p)] *)
Definition remove (p : string) : M unit :=
  fun w =>
    match env_remove e (trace w) (files w) p with
    | None => (Ok tt, emit (EvRemove p) (setFiles (delete p (files w)) w))
    | Some msg => (Throw msg, emit (EvRemove p) w)
    end.

Definition warn (args : list string) : M unit :=
  fun w => (Ok tt, emit (EvWarn args) w).

Definition headRequest (o : RequestOptions) : M ProbeOutcome :=
  fun w => (Ok (env_head e (trace w) o), emit (EvRequest o None) w).

Definition postRequest (o : RequestOptions) (body : string) : M PostOutcome :=
  fun w => (Ok (env_post e (trace w) o body), emit (EvRequest o (Some body)) w).

(** [tempFiles.push(p)] *)
Definition pushTemp (p : string) : M unit :=
  fun w => (Ok tt, setTempFiles (tempFiles w ++ [p]) w).

(** [const tempFiles = []] *)
Definition newTempFiles : M unit :=
  fun w => (Ok tt, setTempFiles [] w).

Definition getTempFiles : M (list string) :=
  fun w => (Ok (tempFiles w), w).

End Primitives.

(** ** The [AudioTranscriber] class *)

Record Options := {
  opt_tmpDir : option string;
  opt_whisperModel : option string;
  opt_whisperPath : option string;
  opt_cleanupTempFiles : option bool;
  opt_useWebAPI : bool;
  opt_webAPIKey : option string;
  opt_webAPIEndpoint : option string }.

Record AudioTranscriber := {
  tmpDir : string;
  whisperModel : string;
  whisperPath : option string;
  cleanupTempFiles : bool;
  useWebAPI : bool;
  webAPIKey : option string;
  webAPIEndpoint : string }.

(** [a || b] on possibly-undefined strings *)
Definition orElse (a : option string) (b : string) : string :=
  if truthy a then default b a else b.

Definition orNull (a : option string) : option string :=
  if truthy a then a else None.

(** The constructor; [cwd] is [process.cwd()].  (It also creates the
    directory [tmpDir], which the file map does not track.) *)
Definition construct (e : Env) (cwd : string) (options : Options) : AudioTranscriber :=
  {| tmpDir := orElse (opt_tmpDir options) (path_join e cwd "tmp");
     whisperModel := orElse (opt_whisperModel options) "medium";
     whisperPath := orNull (opt_whisperPath options);
     cleanupTempFiles := negb (bool_decide (opt_cleanupTempFiles options = Some false));
     useWebAPI := opt_useWebAPI options;
     webAPIKey := orNull (opt_webAPIKey options);
     webAPIEndpoint := orElse (opt_webAPIEndpoint options)
                         "https://api.openai.com/v1/audio/transcriptions" |}.

Definition defaultOptions : Options :=
  {| opt_tmpDir := None; opt_whisperModel := None; opt_whisperPath := None;
     opt_cleanupTempFiles := None; opt_useWebAPI := false;
     opt_webAPIKey := None; opt_webAPIEndpoint := None |}.

(** The result of [checkWhisperAvailability]. *)
Record WhisperCheck := {
  available : bool;
  wc_path : option string;
  wc_error : option string }.

(** The result of [checkWebAPIAvailability]. *)
Record WebAPICheck := {
  api_available : bool;
  api_error : option string }.

Record TranscribeOptions := {
  includeTimestamps : bool;
  outputFormat : option string }.

Record FileInfo := {
  filename : string;
  size : N;
  content_type : string;
  size_kb : string;
  processing_time_ms : Z;
  include_timestamps : bool;
  output_format : string;
  model : string;
  method : string;
  whisper_path : option string }.

Record TranscriptionResult := {
  text : string;
  file_info : FileInfo }.

Section Methods.
Variable e : Env.
Variable this : AudioTranscriber.

(** *** Backend discovery *)

(** The array [commonPaths].  Its elements are evaluated in order, so that
    building it throws at [path.join(process.env.HOME, ...)] when [HOME] is
    not set. *)
Definition commonPaths : Res (list string) :=
  match env_HOME e with
  | None => Throw (path_join_undefined e)
  | Some home =>
      Ok [ "/Users/kasperjones/venvs/whisper310-py10/bin/whisper";
           path_join e home "venvs/whisper310-py10/bin/whisper";
           path_join e home ".virtualenvs/whisper/bin/whisper";
           path_join e home "anaconda3/envs/whisper/bin/whisper";
           path_join e home "miniconda3/envs/whisper/bin/whisper" ]
  end.

(** The loop over [commonPaths]: the first path that exists. *)
Fixpoint scanPaths (paths : list string) : M (option string) :=
  match paths with
  | [] => ret None
  | venvPath :: rest =>
      found <- existsSync venvPath ;;
      if found then ret (Some venvPath) else scanPaths rest
  end.

Definition whisperFound (p : string) : WhisperCheck :=
  {| available := true; wc_path := Some p; wc_error := None |}.

Definition whisperMissing (msg : string) : WhisperCheck :=
  {| available := false; wc_path := None; wc_error := Some msg |}.

Definition checkWhisperAvailability : M WhisperCheck :=
  try_catch
    (let whisperCommand := "whisper" in
     custom <- (if truthy (whisperPath this)
                then existsSync (default "" (whisperPath this))
                else ret false) ;;
     if custom then ret (whisperFound (default "" (whisperPath this)))
     else
       paths <- lift commonPaths ;;
       found <- scanPaths paths ;;
       match found with
       | Some venvPath => ret (whisperFound venvPath)
       | None =>
           execAsync e "whisper --help" ;;;
           ret (whisperFound whisperCommand)
       end)
    (fun msg => ret (whisperMissing msg)).

(** *** Remote probe *)

Definition apiMissing (msg : string) : WebAPICheck :=
  {| api_available := false; api_error := Some msg |}.

Definition probeOptions (parsedUrl : ParsedUrl) : RequestOptions :=
  {| ro_hostname := url_hostname parsedUrl;
     ro_port := orElse (url_port parsedUrl) "443";
     ro_path := url_path parsedUrl;
     ro_method := "HEAD";
     ro_timeout := Some 5000;
     ro_headers := [] |}.

Definition checkWebAPIAvailability : M WebAPICheck :=
  if negb (truthy (webAPIKey this))
  then ret (apiMissing "No API key provided")
  else
    match url_parse e (webAPIEndpoint this) with
    | Throw msg => ret (apiMissing msg)
    | Ok parsedUrl =>
        outcome <- headRequest e (probeOptions parsedUrl) ;;
        match outcome with
        | ProbeResponse _ => ret {| api_available := true; api_error := None |}
        | ProbeError msg => ret (apiMissing msg)
        | ProbeTimeout => ret (apiMissing "Connection timeout")
        | ProbeThrows msg => throw msg
        end
    end.

(** *** Placeholder generator *)

Definition mockTexts : list string :=
  [ "Hello, this is a mock transcription of the audio file. Since Whisper is not available, this is a placeholder text that simulates what a real transcription would look like.";
    "Welcome to this audio recording. This is a demonstration of the transcription service. The actual audio content would be converted to text here if Whisper was properly installed and configured.";
    "This is a sample transcription that shows how the output would appear. The text would contain the actual spoken words from your audio file, with proper punctuation and formatting.";
    "In a real transcription, you would see the actual words spoken in the audio file. This mock text is just for demonstration purposes when Whisper is not available on the system." ].

(** [(size / 1024).toFixed(2)]: the quotient rounded to two decimals, ties
    upwards (exact for sizes below 2^53, where the division is exact). *)
Definition sizeKb (size : N) : string :=
  let n := (size * 100 + 512) / 1024 in
  pretty (n / 100) +:+ "." +:+ pretty (n mod 100 / 10) +:+ pretty (n mod 10).

Definition mockText (randomText filename : string) (size : N) (mimetype : string) : string :=
  "[MOCK TRANSCRIPTION] " +:+ randomText +:+ nl +:+ nl
  +:+ "File: " +:+ filename +:+ nl
  +:+ "Size: " +:+ sizeKb size +:+ " KB" +:+ nl
  +:+ "Type: " +:+ mimetype.

Definition generateMockTranscription (filename : string) (size : N) (mimetype : string)
  : M string :=
  i <- randomBelow e (length mockTexts) ;;
  ret (mockText (nth i mockTexts "undefined") filename size mimetype).

(** *** Remote client *)

(** [Buffer.byteLength(s)]: UTF-8 length of a string of code units below 256 *)
Fixpoint byteLength (s : string) : N :=
  match s with
  | EmptyString => 0
  | String c s' => (if N_of_ascii c <? 128 then 1 else 2) + byteLength s'
  end.

Definition formBody (boundary name audio : string) (options : TranscribeOptions) : string :=
  ("--" +:+ boundary +:+ cr +:+ nl)
  +:+ ("Content-Disposition: form-data; name=" +:+ dq +:+ "file" +:+ dq
       +:+ "; filename=" +:+ dq +:+ name +:+ dq +:+ cr +:+ nl)
  +:+ ("Content-Type: audio/wav" +:+ cr +:+ nl +:+ cr +:+ nl)
  +:+ audio
  +:+ (cr +:+ nl)
  +:+ ("--" +:+ boundary +:+ cr +:+ nl)
  +:+ ("Content-Disposition: form-data; name=" +:+ dq +:+ "model" +:+ dq
       +:+ cr +:+ nl +:+ cr +:+ nl)
  +:+ ("whisper-1" +:+ cr +:+ nl)
  +:+ ("--" +:+ boundary +:+ cr +:+ nl)
  +:+ ("Content-Disposition: form-data; name=" +:+ dq +:+ "response_format" +:+ dq
       +:+ cr +:+ nl +:+ cr +:+ nl)
  +:+ (if bool_decide (outputFormat options = Some "srt") then "srt"
       else "json" +:+ cr +:+ nl)
  +:+ ("--" +:+ boundary +:+ "--" +:+ cr +:+ nl).

Definition uploadOptions (parsedUrl : ParsedUrl) (boundary body : string) : RequestOptions :=
  {| ro_hostname := url_hostname parsedUrl;
     ro_port := orElse (url_port parsedUrl) "443";
     ro_path := url_path parsedUrl;
     ro_method := "POST";
     ro_timeout := None;
     ro_headers :=
       [ ("Authorization", "Bearer " +:+ default "null" (webAPIKey this));
         ("Content-Type", "multipart/form-data; boundary=" +:+ boundary);
         ("Content-Length", pretty (byteLength body)) ] |}.

(** Returns the [text] of the resolved object.  What is thrown before the
    promise is created is wrapped by the [catch]; a rejection of the promise
    is not. *)
Definition transcribeWithWebAPI (inputFilePath : string) (options : TranscribeOptions)
  : M string :=
  request <-
    try_catch
      (audioBuffer <- readFileSync e inputFilePath ;;
       hex <- randomHex e ;;
       let boundary := "----WebKitFormBoundary" +:+ hex in
       let body := formBody boundary (path_basename e inputFilePath) audioBuffer options in
       parsedUrl <- lift (url_parse e (webAPIEndpoint this)) ;;
       ret (uploadOptions parsedUrl boundary body, body))
      (fun msg => throw ("Web API transcription failed: " +:+ msg)) ;;
  outcome <- postRequest e (fst request) (snd request) ;;
  match outcome with
  | PostEnd status data =>
      if status =? 200 then
        match json_text e data with
        | Ok t => ret t
        | Throw msg => throw ("Failed to parse API response: " +:+ msg)
        end
      else throw ("API request failed: " +:+ pretty status +:+ " - " +:+ data)
  | PostError msg => throw ("API request error: " +:+ msg)
  | PostThrows msg => throw msg
  end.

(** *** Cleanup *)

Definition cleanupOne (file : string) : M unit :=
  try_catch
    (found <- existsSync file ;;
     if found then remove e file else ret tt)
    (fun msg => warn ["Failed to cleanup file " +:+ file +:+ ":"; msg]).

Fixpoint cleanupLoop (fl : list string) : M unit :=
  match fl with
  | [] => ret tt
  | file :: rest => cleanupOne file ;;; cleanupLoop rest
  end.

Definition cleanupFiles (fl : list string) : M unit :=
  if negb (cleanupTempFiles this) then ret tt else cleanupLoop fl.

(** *** The orchestrator *)

Definition mimeTypes : gmap string string :=
  list_to_map
    [ (".mp3", "audio/mpeg"); (".wav", "audio/wav"); (".m4a", "audio/mp4");
      (".webm", "audio/webm"); (".mp4", "video/mp4"); (".ogg", "audio/ogg");
      (".flac", "audio/flac"); (".aac", "audio/aac") ].

Definition contentTypeOf (fileExt : string) : string :=
  default "audio/unknown" (mimeTypes !! fileExt).

Definition ffmpegCmd (inputFilePath wavFile : string) : string :=
  "ffmpeg -i " +:+ dq +:+ inputFilePath +:+ dq
  +:+ " -acodec pcm_s16le -ar 16000 -ac 1 " +:+ dq +:+ wavFile +:+ dq +:+ " -y".

Definition whisperCmd (whisperPath : option string) (audioFile : string) : string :=
  dq +:+ default "null" whisperPath +:+ dq +:+ " " +:+ dq +:+ audioFile +:+ dq
  +:+ " --model " +:+ whisperModel this
  +:+ " --output_format srt --output_dir " +:+ dq +:+ tmpDir this +:+ dq.

(** Lines 328-343: the conversion to WAV; returns [audioFile]. *)
Definition convertToWav (inputFilePath fileExt : string) : M string :=
  if bool_decide (fileExt = ".wav") then ret inputFilePath
  else
    stamp <- now e ;;
    let wavFile := path_join e (tmpDir this) (pretty stamp +:+ "_converted.wav") in
    try_catch
      (execAsync e (ffmpegCmd inputFilePath wavFile) ;;;
       pushTemp wavFile ;;;
       ret wavFile)
      (fun msg => throw ("FFmpeg conversion failed: " +:+ msg)).

Definition srtFileOf (audioFile : string) : string :=
  path_join e (tmpDir this) (path_basename_ext e audioFile ".wav" +:+ ".srt").

(** Lines 348-375: the [try] block around the run of Whisper, with its [catch]. *)
Definition runWhisper (whisperPath : option string) (audioFile : string)
    (options : TranscribeOptions) : M string :=
  try_catch
    (execAsync e (whisperCmd whisperPath audioFile) ;;;
     let srtFile := srtFileOf audioFile in
     found <- existsSync srtFile ;;
     if found then
       srtContent <- readFileSync e srtFile ;;
       let transcriptionText := parseSubtitle (includeTimestamps options) srtContent in
       pushTemp srtFile ;;;
       ret transcriptionText
     else throw "Whisper did not generate SRT output")
    (fun msg => throw ("Whisper transcription failed: " +:+ msg)).

(** Lines 324-379: the local branch. *)
Definition localRun (whisperPath : option string) (inputFilePath fileExt : string)
    (options : TranscribeOptions) : M string :=
  newTempFiles ;;;
  audioFile <- convertToWav inputFilePath fileExt ;;
  try_finally
    (runWhisper whisperPath audioFile options)
    (fl <- getTempFiles ;; cleanupFiles fl).

(** Lines 381-398: the remote branch; returns the text and the method. *)
Definition remoteRun (inputFilePath : string) (options : TranscribeOptions)
    (fileName : string) (fileSize : N) (contentType : string) : M (string * string) :=
  webAPICheck <- checkWebAPIAvailability ;;
  if api_available webAPICheck then
    let method := "web-api" in
    transcriptionText <-
      try_catch
        (transcribeWithWebAPI inputFilePath options)
        (fun msg =>
           warn ["Web API failed, falling back to mock: " +:+ msg] ;;;
           generateMockTranscription fileName fileSize contentType) ;;
    ret (transcriptionText, method)
  else
    warn ["Web API not available: " +:+ default "undefined" (api_error webAPICheck)] ;;;
    transcriptionText <- generateMockTranscription fileName fileSize contentType ;;
    ret (transcriptionText, "mock").

(** Lines 323-402: backend selection and the selected run; returns
    [(transcriptionText, method, whisperPath)]. *)
Definition runBackend (whisperCheck : WhisperCheck) (inputFilePath fileExt : string)
    (options : TranscribeOptions) (fileName : string) (fileSize : N)
    (contentType : string) : M (string * string * option string) :=
  if available whisperCheck then
    transcriptionText <-
      localRun (wc_path whisperCheck) inputFilePath fileExt options ;;
    ret (transcriptionText, "whisper", wc_path whisperCheck)
  else if useWebAPI this && truthy (webAPIKey this) then
    r <- remoteRun inputFilePath options fileName fileSize contentType ;;
    ret (fst r, snd r, None)
  else
    transcriptionText <- generateMockTranscription fileName fileSize contentType ;;
    ret (transcriptionText, "mock", None).

(** Lines 406-420: the returned object. *)
Definition buildResult (options : TranscribeOptions) (fileName : string) (fileSize : N)
    (contentType : string) (startTime endTime : N)
    (branch : string * string * option string) : TranscriptionResult :=
  let '(transcriptionText, method, whisperPath) := branch in
  let processingTime := (Z.of_N endTime - Z.of_N startTime)%Z in
  {| text := transcriptionText;
     file_info :=
       {| filename := fileName;
          size := fileSize;
          content_type := contentType;
          size_kb := sizeKb fileSize;
          processing_time_ms := processingTime;
          include_timestamps := includeTimestamps options;
          output_format := orElse (outputFormat options) "txt";
          model := whisperModel this;
          method := method;
          whisper_path := whisperPath |} |}.

Definition transcribe (inputFilePath : string) (options : TranscribeOptions)
  : M TranscriptionResult :=
  startTime <- now e ;;
  try_catch
    (found <- existsSync inputFilePath ;;
     if negb found then throw ("Input file not found: " +:+ inputFilePath)
     else
       fileSize <- statSize e inputFilePath ;;
       let fileName := path_basename e inputFilePath in
       let fileExt := toLowerCase (path_extname e inputFilePath) in
       let contentType := contentTypeOf fileExt in
       whisperCheck <- checkWhisperAvailability ;;
       branch <- runBackend whisperCheck inputFilePath fileExt options
                   fileName fileSize contentType ;;
       endTime <- now e ;;
       ret (buildResult options fileName fileSize contentType startTime endTime branch))
    (fun msg => throw ("Transcription failed: " +:+ msg)).

End Methods.

(** ** A concrete environment

    POSIX-style stand-ins for Node's [path] functions and fixed oracles, used
    to run the model on concrete inputs. *)

Module Fixture.

Fixpoint lastSegment (cur s : string) : string :=
  match s with
  | EmptyString => cur
  | String c s' =>
      if Ascii.eqb c "/" then lastSegment "" s'
      else lastSegment (cur +:+ String c "") s'
  end.

Definition basename (p : string) : string := lastSegment "" p.

Fixpoint lastDot (cur : option string) (s : string) : option string :=
  match s with
  | EmptyString => cur
  | String c s' =>
      if Ascii.eqb c "." then lastDot (Some s) s'
      else lastDot cur s'
  end.

Definition extname (p : string) : string :=
  match basename p with
  | EmptyString => ""
  | String _ rest => default "" (lastDot None rest)
  end.

Fixpoint dropSuffix (ext s : string) : string :=
  match s with
  | EmptyString => EmptyString
  | String c s' => if String.eqb s' ext then String c "" else String c (dropSuffix ext s')
  end.

Definition basenameExt (p ext : string) : string := dropSuffix ext (basename p).

Definition join2 (a b : string) : string := a +:+ "/" +:+ b.

(** [whisper] is not installed, [ffmpeg] fails, the network is unreachable. *)
Definition bare : Env :=
  {| env_HOME := Some "/home/user";
     env_now := fun h => 1700000000000 + N.of_nat (length h);
     env_random_below := fun _ _ => 2%nat;
     env_random_hex := fun _ => "8f3a2c";
     env_exec := fun _ fs cmd => (Some ("Command failed: " +:+ cmd), fs);
     env_remove := fun _ _ _ => None;
     env_head := fun _ _ => ProbeError "getaddrinfo ENOTFOUND";
     env_post := fun _ _ _ => PostError "getaddrinfo ENOTFOUND";
     path_join := join2;
     path_join_undefined :=
       "The " +:+ dq +:+ "path" +:+ dq
       +:+ " argument must be of type string. Received undefined";
     path_basename := basename;
     path_basename_ext := basenameExt;
     path_extname := extname;
     url_parse := fun _ =>
       Ok {| url_hostname := Some "api.openai.com"; url_port := None;
             url_path := Some "/v1/audio/transcriptions" |};
     json_text := fun data => Ok data;
     enoent := fun p => "ENOENT: no such file or directory, open " +:+ p |}.

Definition withExec
    (f : list Event -> gmap string File -> string -> option string * gmap string File)
    (e : Env) : Env :=
  {| env_HOME := env_HOME e; env_now := env_now e;
     env_random_below := env_random_below e; env_random_hex := env_random_hex e;
     env_exec := f; env_remove := env_remove e;
     env_head := env_head e; env_post := env_post e;
     path_join := path_join e; path_join_undefined := path_join_undefined e;
     path_basename := path_basename e; path_basename_ext := path_basename_ext e;
     path_extname := path_extname e; url_parse := url_parse e;
     json_text := json_text e; enoent := enoent e |}.

Definition withHead (f : list Event -> RequestOptions -> ProbeOutcome) (e : Env) : Env :=
  {| env_HOME := env_HOME e; env_now := env_now e;
     env_random_below := env_random_below e; env_random_hex := env_random_hex e;
     env_exec := env_exec e; env_remove := env_remove e;
     env_head := f; env_post := env_post e;
     path_join := path_join e; path_join_undefined := path_join_undefined e;
     path_basename := path_basename e; path_basename_ext := path_basename_ext e;
     path_extname := path_extname e; url_parse := url_parse e;
     json_text := json_text e; enoent := enoent e |}.

Definition withHome (h : option string) (e : Env) : Env :=
  {| env_HOME := h; env_now := env_now e;
     env_random_below := env_random_below e; env_random_hex := env_random_hex e;
     env_exec := env_exec e; env_remove := env_remove e;
     env_head := env_head e; env_post := env_post e;
     path_join := path_join e; path_join_undefined := path_join_undefined e;
     path_basename := path_basename e; path_basename_ext := path_basename_ext e;
     path_extname := path_extname e; url_parse := url_parse e;
     json_text := json_text e; enoent := enoent e |}.

Definition withRemove (f : list Event -> gmap string File -> string -> option string)
    (e : Env) : Env :=
  {| env_HOME := env_HOME e; env_now := env_now e;
     env_random_below := env_random_below e; env_random_hex := env_random_hex e;
     env_exec := env_exec e; env_remove := f;
     env_head := env_head e; env_post := env_post e;
     path_join := path_join e; path_join_undefined := path_join_undefined e;
     path_basename := path_basename e; path_basename_ext := path_basename_ext e;
     path_extname := path_extname e; url_parse := url_parse e;
     json_text := json_text e; enoent := enoent e |}.

Definition transcriber : AudioTranscriber := construct bare "/work" defaultOptions.

Definition remoteTranscriber : AudioTranscriber :=
  construct bare "/work"
    {| opt_tmpDir := None; opt_whisperModel := None; opt_whisperPath := None;
       opt_cleanupTempFiles := None; opt_useWebAPI := true;
       opt_webAPIKey := Some "sk-test"; opt_webAPIEndpoint := None |}.

Definition audio : File := {| fsize := 1024000; fdata := "RIFF" |}.

Definition disk : gmap string File := {[ "/data/talk.mp3" := audio ]}.


(** A disk with Whisper in the first of the well-known locations. *)
Definition macDisk : gmap string File :=
  {[ "/data/talk.mp3" := audio;
     "/Users/kasperjones/venvs/whisper310-py10/bin/whisper"
       := {| fsize := 220; fdata := "#!" |} ]}.

Definition world (fs : gmap string File) : World :=
  {| files := fs; trace := []; tempFiles := [] |}.

Definition txtOptions : TranscribeOptions :=
  {| includeTimestamps := false; outputFormat := None |}.

(** A machine with [whisper] on the [PATH]: [ffmpeg] writes the WAV file it
    is asked for and [whisper] writes [srt], when given, into the temp
    directory. *)
Definition installedExec (srt : option string)
    (h : list Event) (fs : gmap string File) (cmd : string)
  : option string * gmap string File :=
  if String.prefix "ffmpeg" cmd then
    (None, <[ "/work/tmp/" +:+ pretty (1700000000000 + N.of_nat (length h) - 1) +:+ "_converted.wav"
              := {| fsize := 320000; fdata := "RIFF" |} ]> fs)
  else if String.eqb cmd "whisper --help" then (None, fs)
  else
    match srt with
    | Some content =>
        (None, <[ "/work/tmp/" +:+ pretty (1700000000000 + N.of_nat (length h) - 2) +:+ "_converted.srt"
                  := {| fsize := 100; fdata := content |} ]> fs)
    | None => (None, fs)
    end.

(** As [installedExec], but the run of Whisper itself fails. *)
Definition brokenExec (h : list Event) (fs : gmap string File) (cmd : string)
  : option string * gmap string File :=
  if String.prefix "ffmpeg" cmd then installedExec None h fs cmd
  else if String.eqb cmd "whisper --help" then (None, fs)
  else (Some "Command failed: model not found", fs).

(** The converted file, the subtitle file and the transcriber without cleanup. *)
Definition wavFile : string := "/work/tmp/1700000000009_converted.wav".
Definition srtFile : string := "/work/tmp/1700000000009_converted.srt".

Definition keepingTranscriber : AudioTranscriber :=
  construct bare "/work"
    {| opt_tmpDir := None; opt_whisperModel := None; opt_whisperPath := None;
       opt_cleanupTempFiles := Some false; opt_useWebAPI := false;
       opt_webAPIKey := None; opt_webAPIEndpoint := None |}.

End Fixture.

(** ** Vocabulary of the properties *)

(** The separator between two blocks of the timestamped rendering. *)
Definition blankLine : string := nl +:+ nl.

(** The marker that opens a block, and a block. *)
Definition marker (startTime : string) : string := "[" +:+ startTime +:+ "] ".

Definition block (startTime text : string) : string := marker startTime +:+ text.

(** A line is a time-range line for the timestamped rendering when it still
    contains the separator after [trim]. *)
Definition isRangeLine (line : string) : bool := includes rangeSeparator (trim line).

(** Blank lines and sequence indexes, which both renderings skip. *)
Definition isSkippedLine (line : string) : bool :=
  isEmpty (trim line) || digitsOnly (trim line).

Definition startOf (line : string) : string :=
  default "" (head (split rangeSeparator (trim line))).

(** What the loop does with the accumulated text when a range line arrives. *)
Definition flush (timestampedText currentText : string) : string :=
  if isEmpty currentText then timestampedText
  else timestampedText +:+ (currentText +:+ nl +:+ nl).

(** One text line of a subtitle block: a single line, already trimmed, that
    is neither empty, nor an index, nor a time range. *)
Definition cleanText (t : string) : bool :=
  negb (includes nl t) && isTextLine t && String.eqb (trim t) t.

(** The canonical input of three blocks with one text line each. *)
Definition canonicalSrt (t1 t2 t3 : string) : string :=
  join nl
    [ "1"; "00:00:00,000 --> 00:00:03,500"; t1; "";
      "2"; "00:00:03,500 --> 00:00:07,200"; t2; "";
      "3"; "00:00:07,200 --> 00:00:10,000"; t3 ].

(** The sample of the repository's test script. *)
Definition sampleSrt : string :=
  canonicalSrt "Hello, this is a test transcription."
               "It contains multiple segments with timestamps."
               "This is the final segment.".

(** A block without text, followed by a block with text. *)
Definition emptyBlockSrt : string :=
  join nl
    [ "1"; "00:00:00,000 --> 00:00:01,000"; "";
      "2"; "00:00:01,000 --> 00:00:02,000"; "Hello" ].

(** A range line whose end timestamp is missing. *)
Definition openRangeLine : string := "00:00:01,000 --> ".

(** The state of a call once the input file has been validated: the clock
    was read, the path probed and its size taken. *)
Definition afterValidation (inputFilePath : string) (w : World) : World :=
  emit (EvStat inputFilePath) (emit (EvExists inputFilePath) (emit EvNow w)).

(** [w'] continues the history of [w] with events that all satisfy [P]. *)
Definition extends (P : Event -> Prop) (w w' : World) : Prop :=
  exists evs, trace w' = trace w ++ evs /\ Forall P evs.

(** Events of backend discovery: existence probes and the bare command. *)
Definition isDiscoveryEvent (ev : Event) : Prop :=
  match ev with
  | EvExists _ => True
  | EvExec cmd => cmd = "whisper --help"
  | _ => False
  end.

(** Events that belong to neither the remote branch nor the placeholder. *)
Definition isLocalEvent (ev : Event) : Prop :=
  match ev with
  | EvRequest _ _ | EvRandom => False
  | _ => True
  end.

Definition isKeptEvent (ev : Event) : Prop :=
  match ev with
  | EvRemove _ => False
  | _ => True
  end.

(** The warning logged when the removal of [file] fails with [msg]. *)
Definition cleanupWarning (file msg : string) : Event :=
  EvWarn ["Failed to cleanup file " +:+ file +:+ ":"; msg].

(** [w] after the events [evs]. *)
Definition emits (evs : list Event) (w : World) : World :=
  {| files := files w; trace := trace w ++ evs; tempFiles := tempFiles w |}.

(** The probe of the configured executable path, when one is configured. *)
Definition customProbe (t : AudioTranscriber) : list Event :=
  if truthy (whisperPath t) then [EvExists (default "" (whisperPath t))] else [].

(** No executable path is configured, or the configured one is not on disk. *)
Definition customMissing (t : AudioTranscriber) (w : World) : Prop :=
  truthy (whisperPath t) = false \/ files w !! default "" (whisperPath t) = None.

(** Every run of [m] relates the state it starts in to the state it ends in
    by [R], whether it returns or throws. *)
Definition respects (R : World -> World -> Prop) {A : Type} (m : M A) : Prop :=
  forall w, R w (m w).2.

(** The call registers no artifact and forgets none. *)
Definition sameTemp (w w' : World) : Prop := tempFiles w' = tempFiles w.

(** Every artifact registered in [w] is gone from the disk, or the failure of
    its removal was logged after the history [old]. *)
Definition cleaned (old : list Event) (w : World) : Prop :=
  forall p, p ∈ tempFiles w ->
    files w !! p = None
    \/ exists msg evs, trace w = old ++ evs /\ cleanupWarning p msg ∈ evs.

(** Events of the local pipeline proper: the clock, the file system reads
    and the child processes. *)
Definition isPlainEvent (ev : Event) : Prop :=
  match ev with
  | EvNow | EvExists _ | EvStat _ | EvRead _ | EvExec _ => True
  | _ => False
  end.

(** The result of a successful local run on the sample. *)
Definition sampleLocalResult : TranscriptionResult :=
  match (transcribe (Fixture.withExec (Fixture.installedExec (Some sampleSrt)) Fixture.bare)
           Fixture.transcriber "/data/talk.mp3" Fixture.txtOptions
           (Fixture.world Fixture.disk)).1 with
  | Ok r => r
  | Throw _ =>
      buildResult Fixture.transcriber Fixture.txtOptions "" 0 "" 0 0 ("", "", None)
  end.

(** ** Vocabulary of further properties *)

(** Events that send nothing over the network. *)
Definition isOfflineEvent (ev : Event) : Prop :=
  match ev with
  | EvRequest _ _ => False
  | _ => True
  end.

(** The label that opens every placeholder text. *)
Definition mockMarker : string := "[MOCK TRANSCRIPTION] ".


(** An environment whose network answers: the probe gets a response and the
    upload ends with [status] and the body [data]. *)
Definition online (status : N) (data : string) (e : Env) : Env :=
  {| env_HOME := env_HOME e; env_now := env_now e;
     env_random_below := env_random_below e; env_random_hex := env_random_hex e;
     env_exec := env_exec e; env_remove := env_remove e;
     env_head := fun _ _ => ProbeResponse 405;
     env_post := fun _ _ _ => PostEnd status data;
     path_join := path_join e; path_join_undefined := path_join_undefined e;
     path_basename := path_basename e; path_basename_ext := path_basename_ext e;
     path_extname := path_extname e; url_parse := url_parse e;
     json_text := json_text e; enoent := enoent e |}.

(** Events that remove nothing but the paths of [fl]. *)
Definition removesOnly (fl : list string) (ev : Event) : Prop :=
  match ev with
  | EvRemove p => p ∈ fl
  | _ => True
  end.

(** *** Subtitle files as lists of cues *)

(** Strings without white space, such as the timestamps of a range line. *)
Fixpoint noWhiteSpace (s : string) : bool :=
  match s with
  | EmptyString => true
  | String c s' => negb (isWhiteSpace c) && noWhiteSpace s'
  end.

Definition isTimestamp (s : string) : bool := negb (isEmpty s) && noWhiteSpace s.

(** A cue: its sequence index, its time range and one line of text. *)
Record Cue := {
  cue_index : string;
  cue_start : string;
  cue_end : string;
  cue_text : string }.

Definition wellFormed (c : Cue) : bool :=
  digitsOnly (cue_index c) && isTimestamp (cue_start c) && isTimestamp (cue_end c)
  && cleanText (cue_text c).

Definition rangeLine (c : Cue) : string :=
  cue_start c +:+ rangeSeparator +:+ cue_end c.

Definition cueLines (c : Cue) : list string :=
  [cue_index c; rangeLine c; cue_text c].

(** The lines of a subtitle file: the cues, separated by blank lines. *)
Fixpoint srtLines (cues : list Cue) : list string :=
  match cues with
  | [] => []
  | [c] => cueLines c
  | c :: rest => cueLines c ++ "" :: srtLines rest
  end.

Definition srtOf (cues : list Cue) : string := join nl (srtLines cues).

(** What the timestamped rendering makes of a list of cues: every block but
    the last keeps the space that follows its text. *)
Fixpoint renderCues (cues : list Cue) : string :=
  match cues with
  | [] => ""
  | [c] => block (cue_start c) (cue_text c)
  | c :: rest => block (cue_start c) (cue_text c +:+ " ") +:+ blankLine +:+ renderCues rest
  end.

(** The lines of a file with CRLF line ends, as [split] on LF leaves them. *)
Fixpoint withCarriageReturns (lines : list string) : list string :=
  match lines with
  | [] => []
  | [l] => [l]
  | l :: rest => (l +:+ cr) :: withCarriageReturns rest
  end.

(** ** The callers of the class

    The command-line front end ([src/cli.js]), the main process of the
    desktop application ([src/electron/main.js]) and the helpers of its
    renderer ([src/electron/renderer/renderer.js]).  Their console output is
    not part of the state; what they write to disk is. *)

Definition transcribeOptions (timestamps : bool) (format : option string)
  : TranscribeOptions :=
  {| includeTimestamps := timestamps; outputFormat := format |}.

(** [fs.writeFile(p, content, 'utf8')]; [failure] is the error of the
    attempt, if it fails. *)
Definition writeFile (failure : gmap string File -> string -> option string)
    (p content : string) : M unit :=
  fun w =>
    match failure (files w) p with
    | Some msg => (Throw msg, w)
    | None =>
        (Ok tt, setFiles (<[p := {| fsize := byteLength content; fdata := content |}]>
                            (files w)) w)
    end.

(** [new AudioTranscriber(options)]: the constructor ends with
    [fs.ensureDirSync(this.tmpDir)], which may throw. *)
Definition newTranscriber (e : Env) (cwd : string) (ensureDir : string -> option string)
    (options : Options) : M AudioTranscriber :=
  let t := construct e cwd options in
  match ensureDir (tmpDir t) with
  | Some msg => throw msg
  | None => ret t
  end.

(** [transcriber.whisperModel = m] *)
Definition setModel (m : string) (t : AudioTranscriber) : AudioTranscriber :=
  {| tmpDir := tmpDir t; whisperModel := m; whisperPath := whisperPath t;
     cleanupTempFiles := cleanupTempFiles t; useWebAPI := useWebAPI t;
     webAPIKey := webAPIKey t; webAPIEndpoint := webAPIEndpoint t |}.

Definition modelOf (t : AudioTranscriber) : string := whisperModel t.

Module Cli.

Record Options := {
  inputFile : option string;
  includeTimestamps : bool;
  outputFormat : string;
  whisperModel : string;
  whisperPath : option string;
  outputFile : option string;
  help : bool }.

Definition initial : Options :=
  {| inputFile := None; includeTimestamps := false; outputFormat := "txt";
     whisperModel := "medium"; whisperPath := None; outputFile := None; help := false |}.

Definition setInputFile (v : option string) (o : Options) : Options :=
  {| inputFile := v; includeTimestamps := includeTimestamps o;
     outputFormat := outputFormat o; whisperModel := whisperModel o;
     whisperPath := whisperPath o; outputFile := outputFile o; help := help o |}.

Definition setIncludeTimestamps (v : bool) (o : Options) : Options :=
  {| inputFile := inputFile o; includeTimestamps := v;
     outputFormat := outputFormat o; whisperModel := whisperModel o;
     whisperPath := whisperPath o; outputFile := outputFile o; help := help o |}.

Definition setOutputFormat (v : string) (o : Options) : Options :=
  {| inputFile := inputFile o; includeTimestamps := includeTimestamps o;
     outputFormat := v; whisperModel := whisperModel o;
     whisperPath := whisperPath o; outputFile := outputFile o; help := help o |}.

Definition setWhisperModel (v : string) (o : Options) : Options :=
  {| inputFile := inputFile o; includeTimestamps := includeTimestamps o;
     outputFormat := outputFormat o; whisperModel := v;
     whisperPath := whisperPath o; outputFile := outputFile o; help := help o |}.

Definition setWhisperPath (v : option string) (o : Options) : Options :=
  {| inputFile := inputFile o; includeTimestamps := includeTimestamps o;
     outputFormat := outputFormat o; whisperModel := whisperModel o;
     whisperPath := v; outputFile := outputFile o; help := help o |}.

Definition setOutputFile (v : option string) (o : Options) : Options :=
  {| inputFile := inputFile o; includeTimestamps := includeTimestamps o;
     outputFormat := outputFormat o; whisperModel := whisperModel o;
     whisperPath := whisperPath o; outputFile := v; help := help o |}.

Definition setHelp (v : bool) (o : Options) : Options :=
  {| inputFile := inputFile o; includeTimestamps := includeTimestamps o;
     outputFormat := outputFormat o; whisperModel := whisperModel o;
     whisperPath := whisperPath o; outputFile := outputFile o; help := v |}.

(** The two labels of a [case] of the [switch]. *)
Definition isCase (long short arg : string) : bool :=
  String.eqb arg long || String.eqb arg short.

(** The loop of [parseArgs] from index [i], [args] being the arguments from
    [i] on.  A flag with a value reads [args[++i]], which is [undefined]
    after the last argument. *)
Fixpoint parseLoop (args : list string) (options : Options) : Options :=
  match args with
  | [] => options
  | arg :: rest =>
      if isCase "--timestamps" "-t" arg then
        parseLoop rest (setIncludeTimestamps true options)
      else if isCase "--format" "-f" arg then
        match rest with
        | [] => setOutputFormat "txt" options
        | v :: rest' => parseLoop rest' (setOutputFormat (orElse (Some v) "txt") options)
        end
      else if isCase "--model" "-m" arg then
        match rest with
        | [] => setWhisperModel "medium" options
        | v :: rest' => parseLoop rest' (setWhisperModel (orElse (Some v) "medium") options)
        end
      else if isCase "--whisper-path" "-w" arg then
        match rest with
        | [] => setWhisperPath None options
        | v :: rest' => parseLoop rest' (setWhisperPath (Some v) options)
        end
      else if isCase "--output" "-o" arg then
        match rest with
        | [] => setOutputFile None options
        | v :: rest' => parseLoop rest' (setOutputFile (Some v) options)
        end
      else if isCase "--help" "-h" arg then
        parseLoop rest (setHelp true options)
      else
        parseLoop rest
          (if negb (truthy (inputFile options)) && negb (String.prefix "-" arg)
           then setInputFile (Some arg) options
           else options)
  end.

(** [argv] is [process.argv]. *)
Definition parseArgs (argv : list string) : Options := parseLoop (drop 2 argv) initial.


Section Main.

Variable e : Env.
Variable cwd : string.
Variable dirname : string -> string.
Variable ensureDir : string -> option string.
Variable writeFailure : gmap string File -> string -> option string.

(** Lines 131-138: the path of the transcript. *)
Definition outputPathOf (options : Options) : string :=
  if truthy (outputFile options) then default "" (outputFile options)
  else
    let input := default "" (inputFile options) in
    let inputDir := dirname input in
    let inputName := path_basename_ext e input (path_extname e input) in
    let suffix :=
      if includeTimestamps options then "_transcript_with_timestamps" else "_transcript" in
    let extension :=
      if String.eqb (outputFormat options) "txt" then ".txt"
      else "." +:+ outputFormat options in
    path_join e inputDir (inputName +:+ suffix +:+ extension).

(** Lines 99-160: the body of the [try] block. *)
Definition run (options : Options) : M unit :=
  transcriber <-
    newTranscriber e cwd ensureDir
      {| opt_tmpDir := None; opt_whisperModel := Some (whisperModel options);
         opt_whisperPath := whisperPath options; opt_cleanupTempFiles := None;
         opt_useWebAPI := false; opt_webAPIKey := None; opt_webAPIEndpoint := None |} ;;
  whisperCheck <- checkWhisperAvailability e transcriber ;;
  result <-
    transcribe e transcriber (default "" (inputFile options))
      (transcribeOptions (includeTimestamps options) (Some (outputFormat options))) ;;
  writeFile writeFailure (outputPathOf options) (text result).


End Main.

End Cli.

Module Electron.

(** The argument of the ['transcribe-audio'] handler. *)
Record Request := {
  filePath : string;
  includeTimestamps : option bool;
  outputFormat : option string;
  whisperModel : option string }.

Inductive Reply :=
| Success (data : TranscriptionResult)
| Failure (error : string).

Section Handlers.

Variable e : Env.
Variable cwd : string.
(** [app.getPath('temp')] *)
Variable tempPath : string.
Variable ensureDir : string -> option string.
(** The messages of the two [TypeError]s that the handler can raise:
    destructuring [undefined], and reading a property of [undefined]. *)
Variable destructuringError : string.
Variable undefinedError : string.

(** [initializeTranscriber]; the module variable [transcriber] is passed in
    and returned. *)
Definition initializeTranscriber (transcriber : option AudioTranscriber)
  : World -> Res WhisperCheck * option AudioTranscriber * World :=
  fun w =>
    match newTranscriber e cwd ensureDir
            {| opt_tmpDir := Some (path_join e tempPath "audio-transcriber");
               opt_whisperModel := Some "medium"; opt_whisperPath := None;
               opt_cleanupTempFiles := Some true; opt_useWebAPI := false;
               opt_webAPIKey := None; opt_webAPIEndpoint := None |} w with
    | (Throw msg, w') => (Throw msg, transcriber, w')
    | (Ok t, w') =>
        let '(r, w'') := checkWhisperAvailability e t w' in (r, Some t, w'')
    end.

(** The ['transcribe-audio'] handler. *)
Definition transcribeAudio (transcriber : option AudioTranscriber)
    (options : option Request) : World -> Reply * option AudioTranscriber * World :=
  fun w =>
    match options with
    | None => (Failure destructuringError, transcriber, w)
    | Some request =>
        let timestamps := default false (includeTimestamps request) in
        let format := default "txt" (outputFormat request) in
        let model := default "medium" (whisperModel request) in
        match transcriber with
        | None => (Failure undefinedError, None, w)
        | Some t =>
            let t' :=
              if bool_decide (model <> modelOf t)
              then setModel model t else t in
            match transcribe e t' (filePath request)
                    (transcribeOptions timestamps (Some format)) w with
            | (Ok result, w') => (Success result, Some t', w')
            | (Throw msg, w') => (Failure msg, Some t', w')
            end
        end
    end.

End Handlers.

End Electron.

Module Renderer.

(** [s.lastIndexOf(c)]: the index of the last occurrence of [c], or -1. *)
Fixpoint lastIndexFrom (c : ascii) (s : string) (i found : Z) : Z :=
  match s with
  | EmptyString => found
  | String a s' => lastIndexFrom c s' (i + 1) (if Ascii.eqb a c then i else found)
  end.

Definition lastIndexOf (c : ascii) (s : string) : Z := lastIndexFrom c s 0 (-1).

Fixpoint dropChars (n : nat) (s : string) : string :=
  match n, s with
  | O, _ => s
  | S n', String _ s' => dropChars n' s'
  | S _, EmptyString => EmptyString
  end.

Fixpoint takeChars (n : nat) (s : string) : string :=
  match n, s with
  | S n', String c s' => String c (takeChars n' s')
  | _, _ => EmptyString
  end.

(** An index as [substring] reads it: below 0 it is 0, beyond the length it
    is the length. *)
Definition clampIndex (i : Z) (s : string) : nat :=
  Nat.min (Z.to_nat (Z.max 0 i)) (String.length s).

(** [s.substring(start, end)]; the two indexes are swapped when
    [start > end]. *)
Definition substring (start stop : Z) (s : string) : string :=
  let a := clampIndex start s in
  let b := clampIndex stop s in
  takeChars (Nat.max a b - Nat.min a b) (dropChars (Nat.min a b) s).




(** The default name that [saveTranscript] proposes. *)
Definition defaultName (fileName extension : string) : string :=
  let baseName := substring 0 (lastIndexOf "." fileName) fileName in
  baseName +:+ "_transcript." +:+ extension.

End Renderer.

(** *** Vocabulary of the properties of the callers *)

(** Strings without a dot. *)
Fixpoint noDot (s : string) : bool :=
  match s with
  | EmptyString => true
  | String c s' => negb (Ascii.eqb c ".") && noDot s'
  end.

(** A transcriber as the front ends construct it: the remote mode is off. *)
Definition isLocalOnly (t : AudioTranscriber) : Prop :=
  useWebAPI t && truthy (webAPIKey t) = false.

(** The flags of the command line. *)
Definition cliFlags : list string :=
  [ "--timestamps"; "-t"; "--format"; "-f"; "--model"; "-m"; "--whisper-path"; "-w";
    "--output"; "-o"; "--help"; "-h" ].

(** What holds of the options at every iteration of the loop of
    [parseArgs], [all] being the arguments. *)
Definition parsed (all : list string) (o : Cli.Options) : Prop :=
  Cli.outputFormat o <> ""
  /\ Cli.whisperModel o <> ""
  /\ (forall p, Cli.inputFile o = Some p -> p ∈ all /\ String.prefix "-" p = false)
  /\ (Cli.help o = true -> "--help" ∈ all \/ "-h" ∈ all)
  /\ (Cli.includeTimestamps o = true -> "--timestamps" ∈ all \/ "-t" ∈ all)
  /\ (forall v, Cli.outputFile o = Some v -> v ∈ all)
  /\ (forall v, Cli.whisperPath o = Some v -> v ∈ all).

(** ** Facts about strings *)

Section StringFacts.

Lemma sapp_cons (c : ascii) (s t : string) : String c s +:+ t = String c (s +:+ t).
Proof. reflexivity. Qed.

Lemma sapp_empty_l (s : string) : "" +:+ s = s.
Proof. reflexivity. Qed.

Lemma sapp_empty_r (s : string) : s +:+ "" = s.
Proof. induction s as [|c s IH]; [reflexivity|]. rewrite sapp_cons, IH. reflexivity. Qed.

Lemma sapp_assoc (s t u : string) : (s +:+ t) +:+ u = s +:+ (t +:+ u).
Proof.
  induction s as [|c s IH]; [reflexivity|].
  rewrite !sapp_cons, IH. reflexivity.
Qed.

Lemma isEmpty_true (s : string) : isEmpty s = true -> s = "".
Proof. destruct s; [reflexivity | discriminate]. Qed.

Lemma isEmpty_app (s t : string) : isEmpty (s +:+ t) = isEmpty s && isEmpty t.
Proof. destruct s; reflexivity. Qed.

Lemma prefix_empty (s : string) : String.prefix "" s = true.
Proof. destruct s; reflexivity. Qed.

Lemma prefix_cons (a : ascii) (s1 : string) (c : ascii) (s2 : string) :
  String.prefix (String a s1) (String c s2) = bool_decide (a = c) && String.prefix s1 s2.
Proof.
  change (String.prefix (String a s1) (String c s2))
    with (match ascii_dec a c with
          | left _ => String.prefix s1 s2
          | right _ => false
          end).
  destruct (ascii_dec a c) as [Heq|Hne].
  - rewrite bool_decide_eq_true_2 by exact Heq. reflexivity.
  - rewrite bool_decide_eq_false_2 by exact Hne. reflexivity.
Qed.

Lemma prefix_one (a c : ascii) (s : string) :
  String.prefix (String a "") (String c s) = bool_decide (a = c).
Proof. rewrite prefix_cons, prefix_empty. apply andb_true_r. Qed.

Lemma includes_cons (sub : string) (c : ascii) (s : string) :
  includes sub (String c s) = String.prefix sub (String c s) || includes sub s.
Proof.
  change (includes sub (String c s))
    with (if String.prefix sub (String c s) then true else includes sub s).
  destruct (String.prefix sub (String c s)); reflexivity.
Qed.

Lemma includes_cons_true (sub : string) (c : ascii) (s : string) :
  includes sub s = true -> includes sub (String c s) = true.
Proof. intros H. rewrite includes_cons, H. apply orb_true_r. Qed.

(** *** [split] undoes [join] on lines without a line break *)

Lemma splitFrom_line (t cur : string) :
  includes nl t = false ->
  splitFrom nl 0 cur t = [cur +:+ t]
  /\ forall rest, splitFrom nl 0 cur (t +:+ nl +:+ rest) = (cur +:+ t) :: splitFrom nl 0 "" rest.
Proof.
  revert cur. induction t as [|c t IH]; intros cur Hno.
  - rewrite sapp_empty_r. split; [reflexivity|]. intros rest.
    rewrite sapp_empty_l. unfold nl. rewrite sapp_cons, sapp_empty_l.
    cbn [splitFrom]. rewrite prefix_one, bool_decide_eq_true_2 by reflexivity.
    reflexivity.
  - rewrite includes_cons in Hno. apply orb_false_elim in Hno as [Hp Hno].
    destruct (IH (cur +:+ String c "") Hno) as [IH1 IH2].
    assert (Hcur : (cur +:+ String c "") +:+ t = cur +:+ String c t).
    { rewrite sapp_assoc. reflexivity. }
    split.
    + cbn [splitFrom]. rewrite Hp, IH1, Hcur. reflexivity.
    + intros rest. rewrite sapp_cons. cbn [splitFrom].
      assert (Hp' : String.prefix nl (String c (t +:+ nl +:+ rest)) = false).
      { unfold nl in *. rewrite prefix_one in *. exact Hp. }
      rewrite Hp', IH2, Hcur. reflexivity.
Qed.

Lemma split_join_lines (l : list string) :
  l <> [] ->
  Forall (fun t => includes nl t = false) l ->
  split nl (join nl l) = l.
Proof.
  unfold split. induction l as [|t l IH]; intros Hne Hall; [congruence|].
  apply Forall_cons in Hall as [Ht Hall].
  destruct (splitFrom_line t "" Ht) as [H1 H2].
  destruct l as [|t' l'].
  - simpl. rewrite H1. reflexivity.
  - change (join nl (t :: t' :: l')) with (t +:+ nl +:+ join nl (t' :: l')).
    rewrite H2, IH by (congruence || assumption). reflexivity.
Qed.

(** *** [trim] *)

Lemma trimStart_length (s : string) :
  trimStart s = s \/ (String.length (trimStart s) < String.length s)%nat.
Proof.
  induction s as [|c s IH]; [left; reflexivity|].
  simpl. destruct (isWhiteSpace c); [|left; reflexivity].
  right. destruct IH as [-> | IH]; lia.
Qed.

Lemma trimEnd_length (s : string) :
  (String.length (trimEnd s) <= String.length s)%nat.
Proof.
  induction s as [|c s IH]; [reflexivity|].
  simpl. destruct (isWhiteSpace c && isEmpty (trimEnd s)); simpl; lia.
Qed.

Lemma trim_fixed (t : string) : trim t = t -> trimStart t = t /\ trimEnd t = t.
Proof.
  unfold trim. intros H.
  destruct (trimStart_length t) as [Heq | Hlt].
  - rewrite Heq in H. split; assumption.
  - pose proof (trimEnd_length (trimStart t)) as Hle.
    rewrite H in Hle. lia.
Qed.

Lemma trimStart_fixed_head (t : string) :
  trimStart t = t -> isEmpty t = false ->
  exists c t', t = String c t' /\ isWhiteSpace c = false.
Proof.
  destruct t as [|c t']; [discriminate|]. intros H _.
  exists c, t'. split; [reflexivity|].
  destruct (isWhiteSpace c) eqn:Hc; [|reflexivity].
  simpl in H. rewrite Hc in H.
  destruct (trimStart_length t') as [Heq | Hlt].
  - rewrite Heq in H. apply (f_equal String.length) in H. simpl in H. lia.
  - rewrite H in Hlt. simpl in Hlt. lia.
Qed.

Lemma trimEnd_app_space (s : string) : trimEnd (s +:+ " ") = trimEnd s.
Proof.
  induction s as [|c s IH]; [reflexivity|].
  rewrite sapp_cons. simpl. rewrite IH. reflexivity.
Qed.

Lemma trimEnd_app (a b : string) :
  isEmpty (trimEnd b) = false -> trimEnd (a +:+ b) = a +:+ trimEnd b.
Proof.
  intros Hb. induction a as [|c a IH]; [reflexivity|].
  rewrite !sapp_cons. simpl. rewrite IH, isEmpty_app, Hb, andb_false_r, andb_false_r.
  reflexivity.
Qed.

Lemma trim_text_space (t : string) :
  trim t = t -> isEmpty t = false -> trim (t +:+ " ") = t.
Proof.
  intros Ht Hne. destruct (trim_fixed t Ht) as [Hs He].
  destruct (trimStart_fixed_head t Hs Hne) as (c & t' & -> & Hc).
  unfold trim. rewrite sapp_cons. simpl trimStart. rewrite Hc.
  rewrite <- sapp_cons, trimEnd_app_space. exact He.
Qed.

Lemma trim_joined (t u : string) :
  trim t = t -> isEmpty t = false -> trim u = u -> isEmpty u = false ->
  forall mid, trim (t +:+ mid +:+ u) = t +:+ mid +:+ u.
Proof.
  intros Ht Hnt Hu Hnu mid.
  destruct (trim_fixed t Ht) as [Hs _], (trim_fixed u Hu) as [_ He].
  destruct (trimStart_fixed_head t Hs Hnt) as (c & t' & -> & Hc).
  unfold trim. rewrite sapp_cons. simpl trimStart. rewrite Hc.
  rewrite <- sapp_cons, <- sapp_assoc, trimEnd_app by (rewrite He; exact Hnu).
  rewrite He. reflexivity.
Qed.

(** *** The range separator *)

Lemma prefix_rangeSeparator_space (s : string) :
  String.prefix rangeSeparator s = true -> exists s', s = String " " s'.
Proof.
  destruct s as [|c s]; [intros H; vm_compute in H; discriminate|].
  unfold rangeSeparator. rewrite prefix_cons. intros H.
  apply andb_true_iff in H as [H _]. apply bool_decide_eq_true in H as <-. eauto.
Qed.

(** A line that contains the separator is neither empty nor an index. *)
Lemma includes_rangeSeparator_not_skipped (line : string) :
  includes rangeSeparator line = true ->
  isEmpty line = false /\ digitsOnly line = false.
Proof.
  intros H. split; [destruct line; [discriminate | reflexivity]|].
  unfold digitsOnly. apply andb_false_intro2.
  induction line as [|c line IH]; [discriminate|].
  rewrite includes_cons in H. apply orb_true_iff in H as [H | H].
  - apply prefix_rangeSeparator_space in H as [s' [= -> ->]]. reflexivity.
  - simpl. rewrite (IH H). apply andb_false_r.
Qed.

Lemma prefix_trimEnd (sub s : string) :
  String.prefix sub (trimEnd s) = true -> String.prefix sub s = true.
Proof.
  revert sub. induction s as [|c s IH]; intros sub; [auto|].
  cbn [trimEnd]. destruct (isWhiteSpace c && isEmpty (trimEnd s)).
  - destruct sub; [reflexivity | intros H; simpl in H; discriminate].
  - destruct sub as [|a sub]; [reflexivity|]. rewrite !prefix_cons.
    intros H. apply andb_true_iff in H as [Hac H].
    rewrite Hac. apply IH, H.
Qed.

Lemma includes_trimEnd (sub s : string) :
  includes sub (trimEnd s) = true -> includes sub s = true.
Proof.
  induction s as [|c s IH]; [auto|]. cbn [trimEnd].
  destruct (isWhiteSpace c && isEmpty (trimEnd s)) eqn:Hw; intros H.
  - destruct sub as [|a sub]; [|simpl in H; discriminate].
    rewrite includes_cons, prefix_empty. reflexivity.
  - rewrite includes_cons in H. rewrite includes_cons.
    apply orb_true_iff in H as [H | H]; apply orb_true_iff.
    + left. destruct sub as [|a sub]; [apply prefix_empty|].
      rewrite prefix_cons in H. rewrite prefix_cons.
      apply andb_true_iff in H as [Hac H]. rewrite Hac. apply prefix_trimEnd, H.
    + right. apply IH, H.
Qed.

Lemma includes_trimStart (sub s : string) :
  includes sub (trimStart s) = true -> includes sub s = true.
Proof.
  induction s as [|c s IH]; [auto|]. simpl trimStart.
  destruct (isWhiteSpace c); [|auto].
  intros H. apply includes_cons_true, IH, H.
Qed.

Lemma includes_trim (sub s : string) :
  includes sub (trim s) = true -> includes sub s = true.
Proof. intros H. apply includes_trimStart, includes_trimEnd, H. Qed.

End StringFacts.
(** ** The subtitle parser *)

Section Parser.

Lemma srtStep_skip (st : string * string) (raw : string) :
  isEmpty (trim raw) || digitsOnly (trim raw) = true -> srtStep st raw = st.
Proof. intros H. unfold srtStep. destruct st. rewrite H. reflexivity. Qed.

Lemma srtStep_skipped (gap : list string) (st : string * string) :
  Forall (fun line => isSkippedLine line = true) gap ->
  fold_left srtStep gap st = st.
Proof.
  induction 1 as [|line gap Hline _ IH]; cbn [fold_left]; [reflexivity|].
  rewrite srtStep_skip by exact Hline. exact IH.
Qed.

Lemma srtStep_range (ts cur raw : string) :
  isRangeLine raw = true ->
  srtStep (ts, cur) raw = (flush ts cur +:+ marker (startOf raw), "").
Proof.
  unfold isRangeLine. intros H.
  destruct (includes_rangeSeparator_not_skipped _ H) as [He Hd].
  unfold srtStep. rewrite He, Hd, H. reflexivity.
Qed.

Lemma srtStep_text (ts cur raw : string) :
  isEmpty (trim raw) = false -> digitsOnly (trim raw) = false ->
  isRangeLine raw = false ->
  srtStep (ts, cur) raw = (ts, cur +:+ (trim raw +:+ " ")).
Proof.
  unfold isRangeLine. intros He Hd Hr. unfold srtStep.
  rewrite He, Hd, Hr. reflexivity.
Qed.

Lemma cleanText_facts (t : string) :
  cleanText t = true ->
  includes nl t = false /\ trim t = t /\ isEmpty t = false
  /\ digitsOnly t = false /\ includes rangeSeparator t = false.
Proof.
  unfold cleanText, isTextLine. intros H.
  apply andb_true_iff in H as [H Htrim].
  apply andb_true_iff in H as [Hnl H].
  apply andb_true_iff in H as [H Hsep].
  apply andb_true_iff in H as [He Hd].
  apply String.eqb_eq in Htrim. rewrite Htrim in He, Hd.
  apply negb_true_iff in Hnl, He, Hd, Hsep. auto.
Qed.

Lemma srtStep_clean (ts cur t : string) :
  cleanText t = true -> srtStep (ts, cur) t = (ts, cur +:+ (t +:+ " ")).
Proof.
  intros H. destruct (cleanText_facts t H) as (_ & Ht & He & Hd & Hr).
  rewrite srtStep_text; unfold isRangeLine; rewrite ?Ht; auto.
Qed.

Lemma canonicalSrt_lines (t1 t2 t3 : string) :
  cleanText t1 = true -> cleanText t2 = true -> cleanText t3 = true ->
  split nl (canonicalSrt t1 t2 t3) =
    [ "1"; "00:00:00,000 --> 00:00:03,500"; t1; "";
      "2"; "00:00:03,500 --> 00:00:07,200"; t2; "";
      "3"; "00:00:07,200 --> 00:00:10,000"; t3 ].
Proof.
  intros H1 H2 H3. apply split_join_lines; [discriminate|].
  apply cleanText_facts in H1 as [H1 _], H2 as [H2 _], H3 as [H3 _].
  repeat (apply Forall_cons; split; [first [assumption | reflexivity]|]).
  apply Forall_nil. exact I.
Qed.

Lemma isTextLine_clean (t : string) : cleanText t = true -> isTextLine t = true.
Proof.
  unfold cleanText. intros H. apply andb_true_iff in H as [H _].
  apply andb_true_iff in H as [_ H]. exact H.
Qed.

Lemma filter_keep (f : string -> bool) (x : string) (l : list string) :
  f x = true -> List.filter f (x :: l) = x :: List.filter f l.
Proof. intros H. cbn [List.filter]. rewrite H. reflexivity. Qed.

Lemma filter_drop (f : string -> bool) (x : string) (l : list string) :
  f x = false -> List.filter f (x :: l) = List.filter f l.
Proof. intros H. cbn [List.filter]. rewrite H. reflexivity. Qed.

(** A range line is dropped by the plain rendering wherever it stands. *)
Lemma plainLines_range (l1 l2 : list string) (line : string) :
  isRangeLine line = true -> plainLines (l1 ++ line :: l2) = plainLines (l1 ++ l2).
Proof.
  unfold isRangeLine. intros H. apply includes_trim in H.
  unfold plainLines. rewrite !List.filter_app. cbn [List.filter].
  unfold isTextLine at 2. rewrite H, andb_false_r. reflexivity.
Qed.

End Parser.

(** C2 (what the code does). For the canonical input of three blocks (ranges
    00:00:00,000 to 00:00:03,500, 00:00:03,500 to 00:00:07,200 and
    00:00:07,200 to 00:00:10,000, one text line each), the timestamped
    rendering consists of three blocks in the original order, separated by
    blank lines, but the text of the first two blocks is followed by a space:
    the flush at a range line writes the accumulated text untrimmed, only the
    flush at the end of the input trims it.  The rendering therefore differs
    from the three blocks [[start] text] joined by blank lines.  The plain
    rendering is the three text lines joined with single spaces, a trimmed
    string. *)
Theorem canonical_three_blocks (t1 t2 t3 : string) :
  cleanText t1 = true -> cleanText t2 = true -> cleanText t3 = true ->
  parseSubtitle true (canonicalSrt t1 t2 t3) =
    join blankLine [ block "00:00:00,000" (t1 +:+ " ");
                     block "00:00:03,500" (t2 +:+ " ");
                     block "00:00:07,200" t3 ]
  /\ parseSubtitle true (canonicalSrt t1 t2 t3) <>
       join blankLine [ block "00:00:00,000" t1;
                        block "00:00:03,500" t2;
                        block "00:00:07,200" t3 ]
  /\ parseSubtitle false (canonicalSrt t1 t2 t3) = join " " [t1; t2; t3]
  /\ trim (parseSubtitle false (canonicalSrt t1 t2 t3))
     = parseSubtitle false (canonicalSrt t1 t2 t3).
Proof.
  intros H1 H2 H3.
  pose proof (canonicalSrt_lines t1 t2 t3 H1 H2 H3) as Hlines.
  assert (Hplain : parseSubtitle false (canonicalSrt t1 t2 t3) = join " " [t1; t2; t3]).
  { unfold parseSubtitle, srtToPlainText. rewrite Hlines.
    unfold plainLines.
    repeat first
      [ rewrite filter_drop by reflexivity
      | rewrite filter_keep by (apply isTextLine_clean; assumption) ].
    cbn [List.filter join].
    destruct (cleanText_facts t1 H1) as (_ & Ht1 & He1 & _).
    destruct (cleanText_facts t3 H3) as (_ & Ht3 & He3 & _).
    pose proof (trim_joined t1 t3 Ht1 He1 Ht3 He3 (" " +:+ t2 +:+ " ")) as Hj.
    rewrite !sapp_assoc in Hj. exact Hj. }
  assert (Hts : parseSubtitle true (canonicalSrt t1 t2 t3) =
                join blankLine [ block "00:00:00,000" (t1 +:+ " ");
                                 block "00:00:03,500" (t2 +:+ " ");
                                 block "00:00:07,200" t3 ]).
  { unfold parseSubtitle, convertSrtToTimestampedText, srtLoop. rewrite Hlines.
    cbn [fold_left].
    rewrite (srtStep_skip _ "1") by reflexivity.
    rewrite (srtStep_range _ _ "00:00:00,000 --> 00:00:03,500") by reflexivity.
    rewrite srtStep_clean by assumption.
    rewrite !(srtStep_skip _ "") by reflexivity.
    rewrite (srtStep_skip _ "2") by reflexivity.
    rewrite (srtStep_range _ _ "00:00:03,500 --> 00:00:07,200") by reflexivity.
    rewrite srtStep_clean by assumption.
    rewrite (srtStep_skip _ "3") by reflexivity.
    rewrite (srtStep_range _ _ "00:00:07,200 --> 00:00:10,000") by reflexivity.
    rewrite srtStep_clean by assumption.
    destruct (cleanText_facts t1 H1) as (_ & _ & He1 & _).
    destruct (cleanText_facts t2 H2) as (_ & _ & He2 & _).
    destruct (cleanText_facts t3 H3) as (_ & Ht3 & He3 & _).
    unfold srtFinish, flush.
    rewrite !sapp_empty_l, !isEmpty_app, He1, He2, He3. cbn [andb isEmpty].
    rewrite (trim_text_space t3 Ht3 He3).
    change (startOf "00:00:00,000 --> 00:00:03,500") with "00:00:00,000".
    change (startOf "00:00:03,500 --> 00:00:07,200") with "00:00:03,500".
    change (startOf "00:00:07,200 --> 00:00:10,000") with "00:00:07,200".
    cbn [join]. unfold block, blankLine. rewrite !sapp_assoc. reflexivity. }
  split; [exact Hts|]. split; [|split; [exact Hplain | rewrite Hplain]].
  - rewrite Hts. cbn [join]. unfold block. rewrite !sapp_assoc.
    intros Heq. apply (inj (String.app _)) in Heq. apply (inj (String.app _)) in Heq.
    discriminate Heq.
  - destruct (cleanText_facts t1 H1) as (_ & Ht1 & He1 & _).
    destruct (cleanText_facts t3 H3) as (_ & Ht3 & He3 & _).
    cbn [join].
    pose proof (trim_joined t1 t3 Ht1 He1 Ht3 He3 (" " +:+ t2 +:+ " ")) as Hj.
    rewrite !sapp_assoc in Hj. exact Hj.
Qed.

(** The sample of the test script, rendered both ways. *)
Lemma canonical_three_blocks_witness :
  parseSubtitle true sampleSrt =
    join blankLine
      [ block "00:00:00,000" "Hello, this is a test transcription. ";
        block "00:00:03,500" "It contains multiple segments with timestamps. ";
        block "00:00:07,200" "This is the final segment." ]
  /\ parseSubtitle true sampleSrt <>
       join blankLine
         [ block "00:00:00,000" "Hello, this is a test transcription.";
           block "00:00:03,500" "It contains multiple segments with timestamps.";
           block "00:00:07,200" "This is the final segment." ]
  /\ parseSubtitle false sampleSrt =
       "Hello, this is a test transcription. It contains multiple segments with timestamps. This is the final segment.".
Proof.
  destruct (canonical_three_blocks
              "Hello, this is a test transcription."
              "It contains multiple segments with timestamps."
              "This is the final segment."
              eq_refl eq_refl eq_refl) as (Hts & Hne & Hplain & _).
  split; [exact Hts|]. split; [exact Hne | exact Hplain].
Defined.

(** C9, as stated, fails on the code: a block without text leaves its marker
    on the same line as the next marker, with no blank line between the two
    blocks, and a line whose separator token touches the end of the line is
    rendered as text by the timestamped mode. *)
Lemma empty_block_counterexample :
  parseSubtitle true emptyBlockSrt = "[00:00:00,000] [00:00:01,000] Hello"
  /\ parseSubtitle true emptyBlockSrt
     <> join blankLine [block "00:00:00,000" ""; block "00:00:01,000" "Hello"]
  /\ includes blankLine (parseSubtitle true emptyBlockSrt) = false
  /\ includes rangeSeparator openRangeLine = true
  /\ parseSubtitle true openRangeLine = "00:00:01,000 -->".
Proof.
  assert (H : parseSubtitle true emptyBlockSrt = "[00:00:00,000] [00:00:01,000] Hello")
    by (vm_compute; reflexivity).
  split; [exact H|]. rewrite H.
  split; [intros Heq; vm_compute in Heq; discriminate|].
  repeat split; vm_compute; reflexivity.
Qed.

(** C9, amended.  A time-range line that is followed by no text before the
    next time-range line (only blank lines and indexes stand between them)
    contributes, in timestamped mode, only its marker: the marker of the next
    block follows it directly, in the original order, with no blank line in
    between (a blank line is written only when non-empty accumulated text is
    flushed); in plain mode it contributes nothing.  Every line that still
    contains the range separator after trimming is treated as a range line,
    whatever stands around the separator. *)
Theorem empty_block_marker_only (pre gap post l1 l2 : list string) (r1 r2 : string) :
  isRangeLine r1 = true -> isRangeLine r2 = true ->
  Forall (fun line => isSkippedLine line = true) gap ->
  srtLoop (pre ++ r1 :: gap ++ r2 :: post)
    = fold_left srtStep post
        (flush (srtLoop pre).1 (srtLoop pre).2
           +:+ marker (startOf r1) +:+ marker (startOf r2), "")
  /\ plainLines (l1 ++ r1 :: l2) = plainLines (l1 ++ l2)
  /\ forall ts cur : string,
       srtStep (ts, cur) r1 = (flush ts cur +:+ marker (startOf r1), "").
Proof.
  intros Hr1 Hr2 Hgap. split; [|split].
  - unfold srtLoop. rewrite fold_left_app. cbn [fold_left].
    rewrite fold_left_app. cbn [fold_left].
    destruct (fold_left srtStep pre ("", "")) as [ts cur]. cbn [fst snd].
    rewrite (srtStep_range ts cur r1 Hr1), (srtStep_skipped gap _ Hgap).
    rewrite (srtStep_range _ "" r2 Hr2).
    unfold flush at 1. cbn [isEmpty]. rewrite sapp_assoc. reflexivity.
  - apply plainLines_range, Hr1.
  - intros ts cur. apply srtStep_range, Hr1.
Qed.

(** Two range lines with no text between them, the second one malformed. *)
Lemma empty_block_marker_only_witness :
  srtLoop (["1"] ++ "00:00:00,000 --> 00:00:01,000" :: [""; "2"]
             ++ "later --> ?" :: ["Hello"])
    = ("[00:00:00,000] [later] ", "Hello ")
  /\ plainLines (["1"] ++ "00:00:00,000 --> 00:00:01,000" :: ["Hello"]) = "Hello".
Proof.
  destruct (empty_block_marker_only ["1"] [""; "2"] ["Hello"] ["1"] ["Hello"]
              "00:00:00,000 --> 00:00:01,000" "later --> ?" eq_refl eq_refl)
    as (Hts & Hplain & _); [repeat constructor|].
  split; [rewrite Hts | rewrite Hplain]; vm_compute; reflexivity.
Defined.
(** ** Effects of the operations *)

Section Effects.

Lemma emits_nil (w : World) : emits [] w = w.
Proof. destruct w. unfold emits. cbn. rewrite app_nil_r. reflexivity. Qed.

Lemma emit_emits (ev : Event) (w : World) : emit ev w = emits [ev] w.
Proof. reflexivity. Qed.

Lemma emits_emits (l1 l2 : list Event) (w : World) :
  emits l2 (emits l1 w) = emits (l1 ++ l2) w.
Proof. unfold emits. cbn. rewrite app_assoc. reflexivity. Qed.

Lemma extends_refl (P : Event -> Prop) (w : World) : extends P w w.
Proof. exists []. rewrite app_nil_r. split; [reflexivity | constructor]. Qed.

Lemma extends_trans (P : Event -> Prop) (w1 w2 w3 : World) :
  extends P w1 w2 -> extends P w2 w3 -> extends P w1 w3.
Proof.
  intros (l1 & H1 & F1) (l2 & H2 & F2). exists (l1 ++ l2).
  rewrite H2, H1, app_assoc. split; [reflexivity | apply Forall_app; auto].
Qed.

Lemma extends_weaken (P Q : Event -> Prop) (w w' : World) :
  (forall ev, P ev -> Q ev) -> extends P w w' -> extends Q w w'.
Proof.
  intros HPQ (l & H & F). exists l. split; [exact H|].
  eapply Forall_impl; eauto.
Qed.

Lemma extends_emits (P : Event -> Prop) (evs : list Event) (w : World) :
  Forall P evs -> extends P w (emits evs w).
Proof. intros H. exists evs. split; [reflexivity | exact H]. Qed.

Lemma extends_emit (P : Event -> Prop) (ev : Event) (w : World) :
  P ev -> extends P w (emit ev w).
Proof. intros H. apply extends_emits. constructor; [exact H | constructor]. Qed.

Lemma extends_same_trace (P : Event -> Prop) (w w1 w2 : World) :
  trace w2 = trace w1 -> extends P w w1 -> extends P w w2.
Proof. intros Ht (l & H & F). exists l. rewrite Ht. auto. Qed.

Variable e : Env.
Variable this : AudioTranscriber.

(** *** Discovery *)

Lemma existsSync_absent (p : string) (w : World) :
  files w !! p = None -> existsSync p w = (Ok false, emits [EvExists p] w).
Proof.
  intros H. unfold existsSync. rewrite bool_decide_eq_false_2; [reflexivity|].
  rewrite H. intros [x Hx]. discriminate.
Qed.

Lemma existsSync_present (p : string) (w : World) :
  is_Some (files w !! p) -> existsSync p w = (Ok true, emits [EvExists p] w).
Proof.
  intros H. unfold existsSync. rewrite bool_decide_eq_true_2 by exact H. reflexivity.
Qed.

Lemma scanPaths_found (l1 : list string) (q : string) (l2 : list string) (w : World) :
  (forall x, x ∈ l1 -> files w !! x = None) ->
  is_Some (files w !! q) ->
  scanPaths (l1 ++ q :: l2) w = (Ok (Some q), emits (map EvExists (l1 ++ [q])) w).
Proof.
  revert w. induction l1 as [|x l1 IH]; intros w Hl1 Hq; cbn [app scanPaths map].
  - unfold bind. rewrite existsSync_present by exact Hq. reflexivity.
  - unfold bind. rewrite existsSync_absent by (apply Hl1; left).
    rewrite IH.
    + rewrite emits_emits. reflexivity.
    + intros y Hy. cbn. apply Hl1. right. exact Hy.
    + exact Hq.
Qed.

Lemma scanPaths_none (paths : list string) (w : World) :
  (forall x, x ∈ paths -> files w !! x = None) ->
  scanPaths paths w = (Ok None, emits (map EvExists paths) w).
Proof.
  revert w. induction paths as [|x l IH]; intros w Hl; cbn [scanPaths map].
  - rewrite emits_nil. reflexivity.
  - unfold bind. rewrite existsSync_absent by (apply Hl; left).
    rewrite IH.
    + rewrite emits_emits. reflexivity.
    + intros y Hy. cbn. apply Hl. right. exact Hy.
Qed.

(** Either some path of the list is on disk, and then there is a first one,
    or none is. *)
Lemma first_existing (paths : list string) (w : World) :
  (exists l1 q l2, paths = l1 ++ q :: l2
     /\ (forall x, x ∈ l1 -> files w !! x = None) /\ is_Some (files w !! q))
  \/ (forall x, x ∈ paths -> files w !! x = None).
Proof.
  induction paths as [|x l IH].
  - right. intros y Hy. inversion Hy.
  - destruct (files w !! x) as [f|] eqn:Hx.
    + left. exists [], x, l. split; [reflexivity|].
      split; [intros y Hy; inversion Hy | rewrite Hx; eauto].
    + destruct IH as [(l1 & q & l2 & -> & Hl1 & Hq) | Hnone].
      * left. exists (x :: l1), q, l2. split; [reflexivity|].
        split; [|exact Hq]. intros y Hy.
        apply elem_of_cons in Hy as [-> | Hy]; auto.
      * right. intros y Hy. apply elem_of_cons in Hy as [-> | Hy]; auto.
Qed.

(** The first step: the probe of the configured path. *)
Lemma custom_step_missing (w : World) :
  customMissing this w ->
  (if truthy (whisperPath this)
   then existsSync (default "" (whisperPath this))
   else ret false) w = (Ok false, emits (customProbe this) w).
Proof.
  unfold customMissing, customProbe. intros [H | H].
  - rewrite H. unfold ret. rewrite emits_nil. reflexivity.
  - destruct (truthy (whisperPath this)).
    + apply existsSync_absent, H.
    + unfold ret. rewrite emits_nil. reflexivity.
Qed.

Lemma check_custom (p : string) (w : World) :
  whisperPath this = Some p -> isEmpty p = false -> is_Some (files w !! p) ->
  checkWhisperAvailability e this w = (Ok (whisperFound p), emits [EvExists p] w).
Proof.
  intros Hp Hne Hex. unfold checkWhisperAvailability, try_catch, bind.
  rewrite Hp. cbn [truthy default]. rewrite Hne. cbn [negb].
  rewrite existsSync_present by exact Hex. reflexivity.
Qed.

Lemma check_well_known (paths l1 : list string) (q : string) (l2 : list string) (w : World) :
  commonPaths e = Ok paths -> customMissing this w ->
  paths = l1 ++ q :: l2 ->
  (forall x, x ∈ l1 -> files w !! x = None) ->
  is_Some (files w !! q) ->
  checkWhisperAvailability e this w
  = (Ok (whisperFound q), emits (customProbe this ++ map EvExists (l1 ++ [q])) w).
Proof.
  intros Hpaths Hcustom -> Hl1 Hq.
  unfold checkWhisperAvailability, try_catch, bind.
  rewrite custom_step_missing by exact Hcustom.
  unfold lift. rewrite Hpaths.
  rewrite scanPaths_found by assumption.
  rewrite emits_emits. reflexivity.
Qed.

Lemma check_bare (paths : list string) (w : World) :
  commonPaths e = Ok paths -> customMissing this w ->
  (forall x, x ∈ paths -> files w !! x = None) ->
  checkWhisperAvailability e this w
  = match env_exec e (trace w ++ customProbe this ++ map EvExists paths) (files w)
            "whisper --help" with
    | (None, fs) =>
        (Ok (whisperFound "whisper"),
         setFiles fs (emits (customProbe this ++ map EvExists paths
                               ++ [EvExec "whisper --help"]) w))
    | (Some msg, fs) =>
        (Ok (whisperMissing msg),
         setFiles fs (emits (customProbe this ++ map EvExists paths
                               ++ [EvExec "whisper --help"]) w))
    end.
Proof.
  intros Hpaths Hcustom Hnone.
  unfold checkWhisperAvailability, try_catch, bind.
  rewrite custom_step_missing by exact Hcustom.
  unfold lift. rewrite Hpaths.
  rewrite scanPaths_none by assumption.
  rewrite emits_emits. unfold execAsync. cbn [emits trace files].
  destruct (env_exec e _ (files w) "whisper --help") as [[msg|] fs];
    unfold ret, emit, setFiles, emits; cbn; rewrite <- !app_assoc; reflexivity.
Qed.

(** Without [HOME] the list of well-known paths cannot be built: discovery
    stops there and reports the error. *)
Lemma check_without_home (w : World) :
  env_HOME e = None -> customMissing this w ->
  checkWhisperAvailability e this w
  = (Ok (whisperMissing (path_join_undefined e)), emits (customProbe this) w).
Proof.
  intros Hhome Hcustom. unfold checkWhisperAvailability, try_catch, bind.
  rewrite custom_step_missing by exact Hcustom.
  unfold lift, commonPaths. rewrite Hhome. reflexivity.
Qed.


Lemma customProbe_discovery : Forall isDiscoveryEvent (customProbe this).
Proof.
  unfold customProbe. destruct (truthy (whisperPath this)); repeat constructor.
Qed.

Lemma map_EvExists_discovery (l : list string) :
  Forall isDiscoveryEvent (map EvExists l).
Proof. induction l; cbn; constructor; [exact I | assumption]. Qed.

(** Discovery always answers: it never throws, registers nothing, only
    probes, and gives a locator exactly when it reports availability. *)
Lemma check_answers (w : World) :
  exists c w',
    checkWhisperAvailability e this w = (Ok c, w')
    /\ tempFiles w' = tempFiles w
    /\ extends isDiscoveryEvent w w'
    /\ (if available c then is_Some (wc_path c) else wc_path c = None).
Proof.
  assert (Hcases :
    (exists p, whisperPath this = Some p /\ isEmpty p = false /\ is_Some (files w !! p))
    \/ customMissing this w).
  { unfold customMissing. destruct (whisperPath this) as [p|] eqn:Hp; [|right; left; reflexivity].
    destruct (isEmpty p) eqn:He; [right; left; cbn; rewrite He; reflexivity|].
    destruct (files w !! p) as [f|] eqn:Hf; [|right; right; exact Hf].
    left. exists p. rewrite Hf. eauto. }
  destruct Hcases as [(p & Hp & He & Hf) | Hmiss].
  - rewrite (check_custom p w Hp He Hf). do 2 eexists. split; [reflexivity|].
    split; [reflexivity|]. split; [|cbn; eauto].
    apply extends_emits. repeat constructor.
  - destruct (commonPaths e) as [paths|msg] eqn:Hpaths.
    + destruct (first_existing paths w) as [(l1 & q & l2 & Heq & Hl1 & Hq) | Hnone].
      * rewrite (check_well_known paths l1 q l2 w Hpaths Hmiss Heq Hl1 Hq).
        do 2 eexists. split; [reflexivity|]. split; [reflexivity|].
        split; [|cbn; eauto]. apply extends_emits, Forall_app.
        split; [apply customProbe_discovery | apply map_EvExists_discovery].
      * rewrite (check_bare paths w Hpaths Hmiss Hnone).
        assert (Hev : Forall isDiscoveryEvent
                        (customProbe this ++ map EvExists paths ++ [EvExec "whisper --help"])).
        { apply Forall_app. split; [apply customProbe_discovery|].
          apply Forall_app. split; [apply map_EvExists_discovery|].
          repeat constructor. }
        destruct (env_exec e _ (files w) "whisper --help") as [[msg|] fs];
          do 2 eexists; (split; [reflexivity|]); (split; [reflexivity|]);
          (split; [|cbn; eauto]);
          (eapply extends_same_trace; [|apply extends_emits, Hev]); reflexivity.
    + unfold commonPaths in Hpaths. destruct (env_HOME e) eqn:Hhome; [discriminate|].
      rewrite (check_without_home w Hhome Hmiss).
      do 2 eexists. split; [reflexivity|]. split; [reflexivity|].
      split; [|reflexivity]. apply extends_emits, customProbe_discovery.
Qed.

(** *** The frame of [transcribe] *)

Lemma statSize_present (p : string) (w : World) (f : File) :
  files w !! p = Some f -> statSize e p w = (Ok (fsize f), emit (EvStat p) w).
Proof. intros H. unfold statSize. rewrite H. reflexivity. Qed.

Lemma readFileSync_present (p : string) (w : World) (f : File) :
  files w !! p = Some f -> readFileSync e p w = (Ok (fdata f), emit (EvRead p) w).
Proof. intros H. unfold readFileSync. rewrite H. reflexivity. Qed.

Lemma transcribe_missing (inputFilePath : string) (options : TranscribeOptions) (w : World) :
  files w !! inputFilePath = None ->
  transcribe e this inputFilePath options w
  = (Throw ("Transcription failed: Input file not found: " +:+ inputFilePath),
     emits [EvNow; EvExists inputFilePath] w).
Proof.
  intros H. unfold transcribe, bind, try_catch, now.
  rewrite existsSync_absent by exact H. cbn [negb].
  unfold throw. rewrite emit_emits, emits_emits. reflexivity.
Qed.

Lemma transcribe_found (inputFilePath : string) (options : TranscribeOptions)
    (w : World) (f : File) :
  files w !! inputFilePath = Some f ->
  let fileName := path_basename e inputFilePath in
  let fileExt := toLowerCase (path_extname e inputFilePath) in
  let contentType := contentTypeOf fileExt in
  transcribe e this inputFilePath options w
  = match checkWhisperAvailability e this (afterValidation inputFilePath w) with
    | (Ok c, w1) =>
        match runBackend e this c inputFilePath fileExt options
                fileName (fsize f) contentType w1 with
        | (Ok branch, w2) =>
            (Ok (buildResult this options fileName (fsize f) contentType
                   (env_now e (trace w)) (env_now e (trace w2)) branch),
             emit EvNow w2)
        | (Throw msg, w2) => (Throw ("Transcription failed: " +:+ msg), w2)
        end
    | (Throw msg, w1) => (Throw ("Transcription failed: " +:+ msg), w1)
    end.
Proof.
  intros H fileName fileExt contentType.
  unfold transcribe, bind, try_catch, now.
  rewrite existsSync_present by (cbn; rewrite H; eauto). cbn [negb].
  rewrite (statSize_present _ _ f) by exact H.
  change (emit (EvStat inputFilePath) (emits [EvExists inputFilePath] (emit EvNow w)))
    with (afterValidation inputFilePath w).
  destruct (checkWhisperAvailability e this (afterValidation inputFilePath w))
    as [[c|msg] w1]; [|reflexivity].
  fold fileName fileExt contentType.
  destruct (runBackend e this c inputFilePath fileExt options fileName (fsize f)
              contentType w1) as [[branch|msg] w2]; reflexivity.
Qed.


End Effects.

(** *** Transitions that every step respects *)

Section Respects.

Variable R : World -> World -> Prop.
Hypothesis R_refl : forall w, R w w.
Hypothesis R_trans : forall a b c, R a b -> R b c -> R a c.

Lemma respects_ret {A : Type} (a : A) : respects R (ret a).
Proof. intros w. apply R_refl. Qed.

Lemma respects_throw {A : Type} (msg : string) : respects R (@throw A msg).
Proof. intros w. apply R_refl. Qed.

Lemma respects_lift {A : Type} (r : Res A) : respects R (lift r).
Proof. intros w. apply R_refl. Qed.

Lemma respects_bind {A B : Type} (m : M A) (k : A -> M B) :
  respects R m -> (forall a, respects R (k a)) -> respects R (bind m k).
Proof.
  intros Hm Hk w. unfold bind. specialize (Hm w).
  destruct (m w) as [[a|msg] w1]; cbn in *; [|exact Hm].
  eapply R_trans; [exact Hm | apply Hk].
Qed.

Lemma respects_try_catch {A : Type} (m : M A) (h : string -> M A) :
  respects R m -> (forall msg, respects R (h msg)) -> respects R (try_catch m h).
Proof.
  intros Hm Hh w. unfold try_catch. specialize (Hm w).
  destruct (m w) as [[a|msg] w1]; cbn in *; [exact Hm|].
  eapply R_trans; [exact Hm | apply Hh].
Qed.

Lemma respects_try_finally {A : Type} (m : M A) (f : M unit) :
  respects R m -> respects R f -> respects R (try_finally m f).
Proof.
  intros Hm Hf w. unfold try_finally. specialize (Hm w).
  destruct (m w) as [r w1]. specialize (Hf w1).
  destruct (f w1) as [[u|msg] w2]; cbn in *; eapply R_trans; eauto.
Qed.

End Respects.

(** *** The events of each operation *)

Section Events.

Variable e : Env.
Variable P : Event -> Prop.

Lemma prim_now : P EvNow -> respects (extends P) (now e).
Proof. intros H w. apply extends_emit, H. Qed.

Lemma prim_randomBelow (n : nat) : P EvRandom -> respects (extends P) (randomBelow e n).
Proof. intros H w. apply extends_emit, H. Qed.

Lemma prim_randomHex : P EvRandom -> respects (extends P) (randomHex e).
Proof. intros H w. apply extends_emit, H. Qed.

Lemma prim_existsSync (p : string) : P (EvExists p) -> respects (extends P) (existsSync p).
Proof. intros H w. apply extends_emit, H. Qed.

Lemma prim_statSize (p : string) : P (EvStat p) -> respects (extends P) (statSize e p).
Proof.
  intros H w. unfold statSize. destruct (files w !! p); apply extends_emit, H.
Qed.

Lemma prim_readFileSync (p : string) :
  P (EvRead p) -> respects (extends P) (readFileSync e p).
Proof.
  intros H w. unfold readFileSync. destruct (files w !! p); apply extends_emit, H.
Qed.

Lemma prim_execAsync (cmd : string) :
  P (EvExec cmd) -> respects (extends P) (execAsync e cmd).
Proof.
  intros H w. unfold execAsync.
  destruct (env_exec e (trace w) (files w) cmd) as [[msg|] fs];
    exists [EvExec cmd]; (split; [reflexivity | repeat constructor; exact H]).
Qed.

Lemma prim_remove (p : string) : P (EvRemove p) -> respects (extends P) (remove e p).
Proof.
  intros H w. unfold remove.
  destruct (env_remove e (trace w) (files w) p) as [msg|];
    exists [EvRemove p]; (split; [reflexivity | repeat constructor; exact H]).
Qed.

Lemma prim_warn (args : list string) : P (EvWarn args) -> respects (extends P) (warn args).
Proof. intros H w. apply extends_emit, H. Qed.

Lemma prim_headRequest (o : RequestOptions) :
  P (EvRequest o None) -> respects (extends P) (headRequest e o).
Proof. intros H w. apply extends_emit, H. Qed.

Lemma prim_postRequest (o : RequestOptions) (body : string) :
  P (EvRequest o (Some body)) -> respects (extends P) (postRequest e o body).
Proof. intros H w. apply extends_emit, H. Qed.

Lemma prim_pushTemp (p : string) : respects (extends P) (pushTemp p).
Proof. intros w. exists []. cbn. rewrite app_nil_r. split; [reflexivity | constructor]. Qed.

Lemma prim_newTempFiles : respects (extends P) newTempFiles.
Proof. intros w. exists []. cbn. rewrite app_nil_r. split; [reflexivity | constructor]. Qed.

Lemma prim_getTempFiles : respects (extends P) getTempFiles.
Proof. intros w. apply extends_refl. Qed.

End Events.

(** Decomposes a goal [respects (extends P) m] along the structure of [m]. *)
Ltac events_step :=
  first
    [ apply respects_ret; [apply extends_refl]
    | apply respects_throw; [apply extends_refl]
    | apply respects_lift; [apply extends_refl]
    | apply prim_now; exact I
    | apply prim_randomBelow; exact I
    | apply prim_randomHex; exact I
    | apply prim_existsSync; exact I
    | apply prim_statSize; exact I
    | apply prim_readFileSync; exact I
    | apply prim_execAsync; exact I
    | apply prim_remove; exact I
    | apply prim_warn; exact I
    | apply prim_headRequest; exact I
    | apply prim_postRequest; exact I
    | apply prim_pushTemp
    | apply prim_newTempFiles
    | apply prim_getTempFiles
    | apply respects_bind; [apply extends_trans | | intros ?]
    | apply respects_try_catch; [apply extends_trans | | intros ?]
    | apply respects_try_finally; [apply extends_trans | | ]
    | match goal with
      | |- respects _ (if ?b then _ else _) => destruct b
      | |- respects _ (match ?x with _ => _ end) => destruct x
      end ].

Ltac events := repeat events_step.

Section OperationEvents.

Variable e : Env.
Variable this : AudioTranscriber.

Lemma respects_weaken {A : Type} (P Q : Event -> Prop) (m : M A) :
  (forall ev, P ev -> Q ev) -> respects (extends P) m -> respects (extends Q) m.
Proof. intros HPQ Hm w. eapply extends_weaken; [exact HPQ | apply Hm]. Qed.

Lemma plain_is_local (ev : Event) : isPlainEvent ev -> isLocalEvent ev.
Proof. destruct ev; cbn; auto. Qed.

Lemma plain_is_kept (ev : Event) : isPlainEvent ev -> isKeptEvent ev.
Proof. destruct ev; cbn; auto. Qed.

Lemma discovery_is_plain (ev : Event) : isDiscoveryEvent ev -> isPlainEvent ev.
Proof. destruct ev; cbn; auto. Qed.

Lemma check_events : respects (extends isPlainEvent) (checkWhisperAvailability e this).
Proof.
  intros w. destruct (check_answers e this w) as (c & w' & -> & _ & Hext & _).
  eapply extends_weaken; [apply discovery_is_plain | exact Hext].
Qed.

Lemma convertToWav_events (inputFilePath fileExt : string) :
  respects (extends isPlainEvent) (convertToWav e this inputFilePath fileExt).
Proof. unfold convertToWav. events. Qed.

Lemma runWhisper_events (whisperPath : option string) (audioFile : string)
    (options : TranscribeOptions) :
  respects (extends isPlainEvent) (runWhisper e this whisperPath audioFile options).
Proof. unfold runWhisper. events. Qed.

Lemma cleanupLoop_events (fl : list string) :
  respects (extends isLocalEvent) (cleanupLoop e fl).
Proof.
  induction fl as [|file rest IH]; cbn [cleanupLoop]; [events|].
  apply respects_bind; [apply extends_trans | | intros ?; exact IH].
  unfold cleanupOne. events.
Qed.

Lemma cleanupFiles_events (fl : list string) :
  respects (extends isLocalEvent) (cleanupFiles e this fl).
Proof.
  unfold cleanupFiles. destruct (negb (cleanupTempFiles this)); [events|].
  apply cleanupLoop_events.
Qed.

Lemma localRun_events (whisperPath : option string) (inputFilePath fileExt : string)
    (options : TranscribeOptions) :
  respects (extends isLocalEvent)
    (localRun e this whisperPath inputFilePath fileExt options).
Proof.
  unfold localRun.
  apply respects_bind; [apply extends_trans | events | intros ?].
  apply respects_bind; [apply extends_trans | | intros ?].
  { eapply respects_weaken; [apply plain_is_local | apply convertToWav_events]. }
  apply respects_try_finally; [apply extends_trans | | ].
  - eapply respects_weaken; [apply plain_is_local | apply runWhisper_events].
  - apply respects_bind; [apply extends_trans | events | intros ?].
    apply cleanupFiles_events.
Qed.

(** With cleanup switched off the local branch removes nothing. *)
Lemma localRun_keeps (whisperPath : option string) (inputFilePath fileExt : string)
    (options : TranscribeOptions) :
  cleanupTempFiles this = false ->
  respects (extends isKeptEvent)
    (localRun e this whisperPath inputFilePath fileExt options).
Proof.
  intros Hoff. unfold localRun.
  apply respects_bind; [apply extends_trans | events | intros ?].
  apply respects_bind; [apply extends_trans | | intros ?].
  { eapply respects_weaken; [apply plain_is_kept | apply convertToWav_events]. }
  apply respects_try_finally; [apply extends_trans | | ].
  - eapply respects_weaken; [apply plain_is_kept | apply runWhisper_events].
  - unfold cleanupFiles. rewrite Hoff. events.
Qed.

Lemma generateMock_keeps (fileName : string) (fileSize : N) (contentType : string) :
  respects (extends isKeptEvent) (generateMockTranscription e fileName fileSize contentType).
Proof. unfold generateMockTranscription. events. Qed.

Lemma checkWebAPI_keeps : respects (extends isKeptEvent) (checkWebAPIAvailability e this).
Proof. unfold checkWebAPIAvailability. events. Qed.

Lemma transcribeWithWebAPI_keeps (inputFilePath : string) (options : TranscribeOptions) :
  respects (extends isKeptEvent) (transcribeWithWebAPI e this inputFilePath options).
Proof. unfold transcribeWithWebAPI. events. Qed.

Lemma remoteRun_keeps (inputFilePath : string) (options : TranscribeOptions)
    (fileName : string) (fileSize : N) (contentType : string) :
  respects (extends isKeptEvent)
    (remoteRun e this inputFilePath options fileName fileSize contentType).
Proof.
  unfold remoteRun.
  apply respects_bind; [apply extends_trans | apply checkWebAPI_keeps | intros c].
  destruct (api_available c).
  - apply respects_bind; [apply extends_trans | | intros ?; events].
    apply respects_try_catch;
      [apply extends_trans | apply transcribeWithWebAPI_keeps | intros msg].
    apply respects_bind; [apply extends_trans | events | intros ?].
    apply generateMock_keeps.
  - apply respects_bind; [apply extends_trans | events | intros ?].
    apply respects_bind; [apply extends_trans | apply generateMock_keeps | intros ?].
    events.
Qed.

Lemma transcribe_keeps (inputFilePath : string) (options : TranscribeOptions) :
  cleanupTempFiles this = false ->
  respects (extends isKeptEvent) (transcribe e this inputFilePath options).
Proof.
  intros Hoff. unfold transcribe.
  apply respects_bind; [apply extends_trans | events | intros startTime].
  apply respects_try_catch; [apply extends_trans | | intros ?; events].
  apply respects_bind; [apply extends_trans | events | intros found].
  destruct (negb found); [events|].
  apply respects_bind; [apply extends_trans | events | intros fileSize].
  apply respects_bind; [apply extends_trans | | intros c].
  { eapply respects_weaken; [apply plain_is_kept | apply check_events]. }
  apply respects_bind; [apply extends_trans | | intros ?; events].
  unfold runBackend. destruct (available c).
  - apply respects_bind; [apply extends_trans | | intros ?; events].
    apply localRun_keeps, Hoff.
  - destruct (useWebAPI this && truthy (webAPIKey this)).
    + apply respects_bind; [apply extends_trans | | intros ?; events].
      apply remoteRun_keeps.
    + apply respects_bind; [apply extends_trans | | intros ?; events].
      apply generateMock_keeps.
Qed.

End OperationEvents.

(** *** Registered artifacts *)

Section TempFiles.

Variable e : Env.
Variable this : AudioTranscriber.

Lemma sameTemp_refl (w : World) : sameTemp w w.
Proof. reflexivity. Qed.

Lemma sameTemp_trans (a b c : World) : sameTemp a b -> sameTemp b c -> sameTemp a c.
Proof. unfold sameTemp. congruence. Qed.

Lemma temp_now : respects sameTemp (now e).
Proof. intros w. reflexivity. Qed.

Lemma temp_randomBelow (n : nat) : respects sameTemp (randomBelow e n).
Proof. intros w. reflexivity. Qed.

Lemma temp_randomHex : respects sameTemp (randomHex e).
Proof. intros w. reflexivity. Qed.

Lemma temp_existsSync (p : string) : respects sameTemp (existsSync p).
Proof. intros w. reflexivity. Qed.

Lemma temp_readFileSync (p : string) : respects sameTemp (readFileSync e p).
Proof. intros w. unfold readFileSync. destruct (files w !! p); reflexivity. Qed.

Lemma temp_execAsync (cmd : string) : respects sameTemp (execAsync e cmd).
Proof.
  intros w. unfold execAsync.
  destruct (env_exec e (trace w) (files w) cmd) as [[msg|] fs]; reflexivity.
Qed.

Lemma temp_remove (p : string) : respects sameTemp (remove e p).
Proof.
  intros w. unfold remove.
  destruct (env_remove e (trace w) (files w) p); reflexivity.
Qed.

Lemma temp_warn (args : list string) : respects sameTemp (warn args).
Proof. intros w. reflexivity. Qed.

Lemma temp_headRequest (o : RequestOptions) : respects sameTemp (headRequest e o).
Proof. intros w. reflexivity. Qed.

Lemma temp_postRequest (o : RequestOptions) (body : string) :
  respects sameTemp (postRequest e o body).
Proof. intros w. reflexivity. Qed.

End TempFiles.

(** Decomposes a goal [respects sameTemp m] along the structure of [m]. *)
Ltac temp_step :=
  first
    [ apply respects_ret; [apply sameTemp_refl]
    | apply respects_throw; [apply sameTemp_refl]
    | apply respects_lift; [apply sameTemp_refl]
    | apply temp_now
    | apply temp_randomBelow
    | apply temp_randomHex
    | apply temp_existsSync
    | apply temp_readFileSync
    | apply temp_execAsync
    | apply temp_remove
    | apply temp_warn
    | apply temp_headRequest
    | apply temp_postRequest
    | apply respects_bind; [apply sameTemp_trans | | intros ?]
    | apply respects_try_catch; [apply sameTemp_trans | | intros ?]
    | apply respects_try_finally; [apply sameTemp_trans | | ]
    | match goal with
      | |- respects _ (if ?b then _ else _) => destruct b
      | |- respects _ (match ?x with _ => _ end) => destruct x
      end ].

Ltac temps := repeat temp_step.

Section Cleanup.

Variable e : Env.
Variable this : AudioTranscriber.

Lemma generateMock_temp (fileName : string) (fileSize : N) (contentType : string) :
  respects sameTemp (generateMockTranscription e fileName fileSize contentType).
Proof. unfold generateMockTranscription. temps. Qed.

Lemma remoteRun_temp (inputFilePath : string) (options : TranscribeOptions)
    (fileName : string) (fileSize : N) (contentType : string) :
  respects sameTemp
    (remoteRun e this inputFilePath options fileName fileSize contentType).
Proof.
  unfold remoteRun, checkWebAPIAvailability, transcribeWithWebAPI,
    generateMockTranscription.
  temps.
Qed.

(** The remote branch records one of two methods. *)
Lemma remoteRun_method (inputFilePath : string) (options : TranscribeOptions)
    (fileName : string) (fileSize : N) (contentType : string)
    (w : World) (txt m : string) (w' : World) :
  remoteRun e this inputFilePath options fileName fileSize contentType w
    = (Ok (txt, m), w') ->
  m = "web-api" \/ m = "mock".
Proof.
  unfold remoteRun. unfold bind at 1.
  destruct (checkWebAPIAvailability e this w) as [[p|msg] w1]; [|discriminate].
  destruct (api_available p).
  - unfold bind at 1. destruct (try_catch _ _ w1) as [[t|msg] w2]; [|discriminate].
    unfold ret. intros [= _ <- _]. left. reflexivity.
  - unfold bind at 1. unfold warn.
    unfold bind at 1.
    destruct (generateMockTranscription _ _ _ _ _) as [[t|msg] w2]; [|discriminate].
    unfold ret. intros [= _ <- _]. right. reflexivity.
Qed.

(** A failed conversion registers nothing. *)
Lemma convertToWav_throw (inputFilePath fileExt msg : string) (w w' : World) :
  convertToWav e this inputFilePath fileExt w = (Throw msg, w') ->
  tempFiles w' = tempFiles w.
Proof.
  unfold convertToWav. destruct (bool_decide (fileExt = ".wav")); [discriminate|].
  unfold bind, try_catch, now, execAsync, pushTemp, ret, throw. cbn.
  destruct (env_exec e _ _ _) as [[m|] fs]; intros [= _ <-]; reflexivity.
Qed.

(** One file of the cleanup loop: no exception leaves it, and the file is
    gone or the failure of its removal is logged. *)
Lemma cleanupOne_spec (file : string) (w : World) :
  exists evs fs,
    cleanupOne e file w
      = (Ok tt, {| files := fs; trace := trace w ++ evs; tempFiles := tempFiles w |})
    /\ (forall p, files w !! p = None -> fs !! p = None)
    /\ (fs !! file = None \/ exists msg, cleanupWarning file msg ∈ evs).
Proof.
  unfold cleanupOne, try_catch, bind, existsSync.
  destruct (files w !! file) as [f|] eqn:Hf.
  - rewrite bool_decide_eq_true_2 by eauto.
    unfold remove. cbn [emit files trace tempFiles].
    destruct (env_remove e (trace w ++ [EvExists file]) (files w) file) as [msg|].
    + exists [EvExists file; EvRemove file; cleanupWarning file msg], (files w).
      split; [|split; [auto|]].
      * unfold warn, emit, cleanupWarning. cbn. rewrite <- !app_assoc. reflexivity.
      * right. exists msg. set_solver.
    + exists [EvExists file; EvRemove file], (delete file (files w)).
      split; [|split].
      * unfold emit, setFiles. cbn. rewrite <- !app_assoc. reflexivity.
      * intros p Hp. destruct (decide (file = p)) as [->|Hne].
        -- apply lookup_delete_eq.
        -- rewrite lookup_delete_ne by exact Hne. exact Hp.
      * left. apply lookup_delete_eq.
  - rewrite bool_decide_eq_false_2 by (intros [x Hx]; discriminate).
    exists [EvExists file], (files w). split; [reflexivity|]. split; [auto|].
    left. exact Hf.
Qed.

Lemma cleanupLoop_spec (fl : list string) (w : World) :
  exists evs fs,
    cleanupLoop e fl w
      = (Ok tt, {| files := fs; trace := trace w ++ evs; tempFiles := tempFiles w |})
    /\ (forall p, files w !! p = None -> fs !! p = None)
    /\ (forall p, p ∈ fl -> fs !! p = None \/ exists msg, cleanupWarning p msg ∈ evs).
Proof.
  revert w. induction fl as [|file rest IH]; intros w.
  - exists [], (files w). cbn [cleanupLoop]. unfold ret. rewrite app_nil_r.
    destruct w; cbn. split; [reflexivity|]. split; [auto|].
    intros p Hp. inversion Hp.
  - cbn [cleanupLoop]. unfold bind.
    destruct (cleanupOne_spec file w) as (evs1 & fs1 & -> & Hkeep1 & Hfile).
    destruct (IH {| files := fs1; trace := trace w ++ evs1; tempFiles := tempFiles w |})
      as (evs2 & fs2 & -> & Hkeep2 & Hrest).
    cbn [files trace tempFiles] in *.
    exists (evs1 ++ evs2), fs2. rewrite app_assoc.
    split; [reflexivity|]. split; [auto|].
    intros p Hp. apply elem_of_cons in Hp as [-> | Hp].
    + destruct Hfile as [Hgone | (msg & Hmsg)]; [left; auto|].
      right. exists msg. apply elem_of_app. left. exact Hmsg.
    + destruct (Hrest p Hp) as [Hgone | (msg & Hmsg)]; [left; exact Hgone|].
      right. exists msg. apply elem_of_app. right. exact Hmsg.
Qed.

(** Cleanup never throws. *)
Lemma cleanupFiles_returns (fl : list string) (w : World) :
  exists w', cleanupFiles e this fl w = (Ok tt, w').
Proof.
  unfold cleanupFiles. destruct (negb (cleanupTempFiles this)); [eexists; reflexivity|].
  destruct (cleanupLoop_spec fl w) as (evs & fs & -> & _). eexists. reflexivity.
Qed.

(** The [finally] block keeps the outcome of the [try] block. *)
Lemma try_finally_cleanup {A : Type} (m : M A) (w : World) :
  exists w', try_finally m (bind getTempFiles (cleanupFiles e this)) w = ((m w).1, w').
Proof.
  unfold try_finally. destruct (m w) as [r w1]. unfold bind, getTempFiles.
  destruct (cleanupFiles_returns (tempFiles w1) w1) as [w2 ->].
  exists w2. reflexivity.
Qed.

Lemma runWhisper_exec_fails (whisperPath : option string) (audioFile : string)
    (options : TranscribeOptions) (w : World) (msg : string) (fs : gmap string File) :
  env_exec e (trace w) (files w) (whisperCmd this whisperPath audioFile) = (Some msg, fs) ->
  (runWhisper e this whisperPath audioFile options w).1
  = Throw ("Whisper transcription failed: " +:+ msg).
Proof.
  intros H. unfold runWhisper, try_catch. unfold bind at 1. unfold execAsync.
  rewrite H. reflexivity.
Qed.

Lemma runWhisper_no_output (whisperPath : option string) (audioFile : string)
    (options : TranscribeOptions) (w : World) (fs : gmap string File) :
  env_exec e (trace w) (files w) (whisperCmd this whisperPath audioFile) = (None, fs) ->
  fs !! srtFileOf e this audioFile = None ->
  (runWhisper e this whisperPath audioFile options w).1
  = Throw "Whisper transcription failed: Whisper did not generate SRT output".
Proof.
  intros H Hsrt. unfold runWhisper, try_catch. unfold bind at 1. unfold execAsync.
  rewrite H. unfold bind at 1. rewrite existsSync_absent by exact Hsrt. reflexivity.
Qed.

Lemma cleaned_nil (old : list Event) (w : World) : tempFiles w = [] -> cleaned old w.
Proof. intros H p Hp. rewrite H in Hp. inversion Hp. Qed.

Lemma cleaned_emit (old : list Event) (ev : Event) (w : World) :
  cleaned old w -> cleaned old (emit ev w).
Proof.
  intros H p Hp. destruct (H p Hp) as [Hgone | (msg & evs & Ht & Hmsg)]; [left; exact Hgone|].
  right. exists msg, (evs ++ [ev]). cbn. rewrite Ht, app_assoc.
  split; [reflexivity|]. apply elem_of_app. left. exact Hmsg.
Qed.

Lemma cleaned_earlier (P : Event -> Prop) (w w1 w' : World) :
  extends P w w1 -> cleaned (trace w1) w' -> cleaned (trace w) w'.
Proof.
  intros (l & Hl & _) H p Hp.
  destruct (H p Hp) as [Hgone | (msg & evs & Ht & Hmsg)]; [left; exact Hgone|].
  right. exists msg, (l ++ evs). rewrite Ht, Hl, app_assoc.
  split; [reflexivity|]. apply elem_of_app. right. exact Hmsg.
Qed.

Lemma localRun_cleaned (whisperPath : option string) (inputFilePath fileExt : string)
    (options : TranscribeOptions) (w : World) :
  cleanupTempFiles this = true ->
  cleaned (trace w) (localRun e this whisperPath inputFilePath fileExt options w).2.
Proof.
  intros Hon. unfold localRun, bind, newTempFiles.
  pose proof (convertToWav_events e this inputFilePath fileExt (setTempFiles [] w)) as Hc.
  destruct (convertToWav e this inputFilePath fileExt (setTempFiles [] w))
    as [[audioFile|msg] w2] eqn:Hconv.
  - unfold try_finally.
    pose proof (runWhisper_events e this whisperPath audioFile options w2) as Hr.
    destruct (runWhisper e this whisperPath audioFile options w2) as [r3 w3].
    cbn [snd] in Hc, Hr.
    apply (cleaned_earlier isPlainEvent w w3);
      [apply (extends_trans _ _ w2); [exact Hc | exact Hr]|].
    unfold getTempFiles, cleanupFiles. rewrite Hon. cbn [negb].
    destruct (cleanupLoop_spec (tempFiles w3) w3) as (evs & fs & -> & _ & Hall).
    cbn [snd]. intros p Hp. cbn [tempFiles] in Hp. cbn [files trace].
    destruct (Hall p Hp) as [Hgone | (msg & Hmsg)]; [left; exact Hgone|].
    right. exists msg, evs. split; [reflexivity | exact Hmsg].
  - cbn [snd]. apply cleaned_nil.
    rewrite (convertToWav_throw _ _ _ _ _ Hconv). reflexivity.
Qed.

Lemma transcribe_cleaned (inputFilePath : string) (options : TranscribeOptions) (w : World) :
  tempFiles w = [] ->
  cleanupTempFiles this = true ->
  cleaned (trace w) (transcribe e this inputFilePath options w).2.
Proof.
  intros Hempty Hon.
  destruct (files w !! inputFilePath) as [f|] eqn:Hf.
  - rewrite (transcribe_found e this inputFilePath options w f Hf).
    pose proof (check_events e this (afterValidation inputFilePath w)) as Hev.
    destruct (check_answers e this (afterValidation inputFilePath w))
      as (c & w1 & Hcheck & Htemp & _ & _).
    rewrite Hcheck in Hev |- *. cbn [snd] in Hev.
    assert (Hw1 : tempFiles w1 = []) by (rewrite Htemp; exact Hempty).
    assert (Hpre : extends isPlainEvent w w1).
    { apply (extends_trans _ _ (afterValidation inputFilePath w)); [|exact Hev].
      unfold afterValidation.
      repeat (eapply extends_trans; [|apply extends_emit; exact I]).
      apply extends_refl. }
    assert (Hrun : cleaned (trace w)
                     (runBackend e this c inputFilePath
                        (toLowerCase (path_extname e inputFilePath)) options
                        (path_basename e inputFilePath) (fsize f)
                        (contentTypeOf (toLowerCase (path_extname e inputFilePath)))
                        w1).2).
    { unfold runBackend. destruct (available c).
      - pose proof (localRun_cleaned (wc_path c) inputFilePath
                      (toLowerCase (path_extname e inputFilePath)) options w1 Hon) as Hl.
        apply (cleaned_earlier isPlainEvent w w1 _ Hpre).
        unfold bind. destruct (localRun _ _ _ _ _ _ w1) as [[txt|msg] w2]; exact Hl.
      - destruct (useWebAPI this && truthy (webAPIKey this)).
        + pose proof (remoteRun_temp inputFilePath options
                        (path_basename e inputFilePath) (fsize f)
                        (contentTypeOf (toLowerCase (path_extname e inputFilePath))) w1) as Hr.
          unfold bind. destruct (remoteRun _ _ _ _ _ _ _ w1) as [[r|msg] w2];
            apply cleaned_nil; cbn in *; unfold sameTemp in Hr; congruence.
        + pose proof (generateMock_temp (path_basename e inputFilePath) (fsize f)
                        (contentTypeOf (toLowerCase (path_extname e inputFilePath))) w1) as Hr.
          unfold bind. destruct (generateMockTranscription _ _ _ _ w1) as [[r|msg] w2];
            apply cleaned_nil; cbn in *; unfold sameTemp in Hr; congruence. }
    cbv zeta. destruct (runBackend _ _ _ _ _ _ _ _ _ w1) as [[branch|msg] w2]; cbn [snd] in *.
    + apply cleaned_emit, Hrun.
    + exact Hrun.
  - rewrite (transcribe_missing e this inputFilePath options w Hf).
    apply cleaned_nil. exact Hempty.
Qed.

End Cleanup.
(** ** The properties of the orchestrator *)

(** C6. For a path that does not exist, [transcribe] fails with the
    file-not-found error.  The call has then only read the clock and tested
    the path itself: no backend was probed, no file came into existence and
    no artifact was registered. *)
Theorem missing_input_fails_first (e : Env) (this : AudioTranscriber)
    (inputFilePath : string) (options : TranscribeOptions) (w : World) :
  files w !! inputFilePath = None ->
  transcribe e this inputFilePath options w
  = (Throw ("Transcription failed: Input file not found: " +:+ inputFilePath),
     {| files := files w;
        trace := trace w ++ [EvNow; EvExists inputFilePath];
        tempFiles := tempFiles w |}).
Proof. intros H. rewrite transcribe_missing by exact H. reflexivity. Qed.

Lemma missing_input_fails_first_witness :
  transcribe Fixture.bare Fixture.transcriber "/data/nope.mp3" Fixture.txtOptions
    (Fixture.world Fixture.disk)
  = (Throw "Transcription failed: Input file not found: /data/nope.mp3",
     {| files := Fixture.disk;
        trace := [EvNow; EvExists "/data/nope.mp3"];
        tempFiles := [] |}).
Proof.
  apply (missing_input_fails_first Fixture.bare Fixture.transcriber "/data/nope.mp3"
           Fixture.txtOptions (Fixture.world Fixture.disk)).
  vm_compute. reflexivity.
Defined.

(** C5. When the input file exists, discovery reports the local executable
    unavailable and the remote mode is off or has no credential, [transcribe]
    returns a result (it does not throw) whose method is the placeholder's,
    ['mock'], and whose text is what the placeholder generator produces. *)
Theorem placeholder_without_backend (e : Env) (this : AudioTranscriber)
    (inputFilePath : string) (options : TranscribeOptions) (w : World)
    (f : File) (c : WhisperCheck) (w1 : World) :
  files w !! inputFilePath = Some f ->
  checkWhisperAvailability e this (afterValidation inputFilePath w) = (Ok c, w1) ->
  available c = false ->
  useWebAPI this && truthy (webAPIKey this) = false ->
  exists r w',
    transcribe e this inputFilePath options w = (Ok r, w')
    /\ method (file_info r) = "mock"
    /\ whisper_path (file_info r) = None
    /\ (generateMockTranscription e (filename (file_info r)) (size (file_info r))
          (content_type (file_info r)) w1).1 = Ok (text r)
    /\ trace w' = trace w1 ++ [EvRandom; EvNow].
Proof.
  intros Hf Hcheck Hun Hremote.
  rewrite (transcribe_found e this inputFilePath options w f Hf). cbv zeta.
  rewrite Hcheck. unfold runBackend. rewrite Hun, Hremote.
  unfold bind, generateMockTranscription, bind, randomBelow, ret.
  do 2 eexists. split; [reflexivity|]. cbn.
  repeat split. rewrite <- app_assoc. reflexivity.
Qed.

Lemma placeholder_without_backend_witness :
  exists r w',
    transcribe Fixture.bare Fixture.transcriber "/data/talk.mp3" Fixture.txtOptions
      (Fixture.world Fixture.disk) = (Ok r, w')
    /\ method (file_info r) = "mock"
    /\ text r = mockText (nth 2 mockTexts "") "talk.mp3" 1024000 "audio/mpeg".
Proof.
  destruct (placeholder_without_backend Fixture.bare Fixture.transcriber "/data/talk.mp3"
              Fixture.txtOptions (Fixture.world Fixture.disk) Fixture.audio
              (whisperMissing "Command failed: whisper --help")
              (checkWhisperAvailability Fixture.bare Fixture.transcriber
                 (afterValidation "/data/talk.mp3" (Fixture.world Fixture.disk))).2)
    as (r & w' & Hrun & Hmethod & _ & Htext & _);
    [vm_compute; reflexivity.. |].
  exists r, w'. split; [exact Hrun|]. split; [exact Hmethod|].
  vm_compute in Hrun. injection Hrun as <- _. vm_compute. reflexivity.
Defined.



(** C7 (what the code does without [HOME]). When [process.env.HOME] is not
    set and no configured executable path is on disk, building the list of
    well-known paths throws, and discovery reports unavailable with the
    message of that error: none of the well-known paths is probed and the
    bare command is not run, whatever is installed. *)
Theorem discovery_stops_without_home (e : Env) (this : AudioTranscriber) (w : World) :
  env_HOME e = None ->
  customMissing this w ->
  checkWhisperAvailability e this w
  = (Ok (whisperMissing (path_join_undefined e)), emits (customProbe this) w).
Proof. apply check_without_home. Qed.

(** Whisper on the [PATH] and in the first well-known location, [HOME] unset. *)
Lemma discovery_stops_without_home_witness :
  let e := Fixture.withHome None
             (Fixture.withExec (Fixture.installedExec None) Fixture.bare) in
  fst (env_exec e [] Fixture.macDisk "whisper --help") = None
  /\ is_Some (Fixture.macDisk !! "/Users/kasperjones/venvs/whisper310-py10/bin/whisper")
  /\ checkWhisperAvailability e Fixture.transcriber (Fixture.world Fixture.macDisk)
     = (Ok (whisperMissing
              ("The " +:+ dq +:+ "path" +:+ dq
               +:+ " argument must be of type string. Received undefined")),
        Fixture.world Fixture.macDisk).
Proof.
  intros e. split; [vm_compute; reflexivity|].
  split; [exists {| fsize := 220; fdata := "#!" |}; vm_compute; reflexivity|].
  rewrite (discovery_stops_without_home e Fixture.transcriber
             (Fixture.world Fixture.macDisk) eq_refl (or_introl eq_refl)).
  vm_compute. reflexivity.
Defined.

(** C8. Without a credential the remote probe reports unavailable at once,
    with the reason ['No API key provided'], and sends nothing: the state,
    history included, is unchanged.  With a credential it sends one [HEAD]
    request without a body, with a timeout of 5000 ms; a response of any
    status gives available, a network error gives unavailable with the
    message of the error, and a timeout gives unavailable with the reason
    ['Connection timeout']. *)
Theorem remote_probe_outcomes (e : Env) (this : AudioTranscriber) (w : World) :
  (truthy (webAPIKey this) = false ->
   checkWebAPIAvailability e this w = (Ok (apiMissing "No API key provided"), w))
  /\ forall parsedUrl,
       truthy (webAPIKey this) = true ->
       url_parse e (webAPIEndpoint this) = Ok parsedUrl ->
       let o := probeOptions parsedUrl in
       let sent := emit (EvRequest o None) w in
       ro_method o = "HEAD" /\ ro_timeout o = Some 5000
       /\ (forall status, env_head e (trace w) o = ProbeResponse status ->
             checkWebAPIAvailability e this w
             = (Ok {| api_available := true; api_error := None |}, sent))
       /\ (forall msg, env_head e (trace w) o = ProbeError msg ->
             checkWebAPIAvailability e this w = (Ok (apiMissing msg), sent))
       /\ (env_head e (trace w) o = ProbeTimeout ->
             checkWebAPIAvailability e this w
             = (Ok (apiMissing "Connection timeout"), sent)).
Proof.
  split.
  - intros Hkey. unfold checkWebAPIAvailability. rewrite Hkey. reflexivity.
  - intros parsedUrl Hkey Hurl o sent.
    split; [reflexivity|]. split; [reflexivity|].
    unfold checkWebAPIAvailability, bind, headRequest. rewrite Hkey, Hurl. cbn [negb].
    fold o. fold sent.
    repeat split; [intros status H | intros msg H | intros H]; rewrite H; reflexivity.
Qed.

Lemma remote_probe_outcomes_witness :
  checkWebAPIAvailability Fixture.bare Fixture.transcriber (Fixture.world Fixture.disk)
  = (Ok (apiMissing "No API key provided"), Fixture.world Fixture.disk)
  /\ (checkWebAPIAvailability (Fixture.withHead (fun _ _ => ProbeResponse 405) Fixture.bare)
        Fixture.remoteTranscriber (Fixture.world Fixture.disk)).1
     = Ok {| api_available := true; api_error := None |}
  /\ (checkWebAPIAvailability Fixture.bare Fixture.remoteTranscriber
        (Fixture.world Fixture.disk)).1
     = Ok (apiMissing "getaddrinfo ENOTFOUND").
Proof.
  split; [|split].
  - apply (remote_probe_outcomes Fixture.bare Fixture.transcriber
             (Fixture.world Fixture.disk)).
    reflexivity.
  - destruct (remote_probe_outcomes (Fixture.withHead (fun _ _ => ProbeResponse 405) Fixture.bare)
                Fixture.remoteTranscriber (Fixture.world Fixture.disk)) as [_ H].
    destruct (H _ eq_refl eq_refl) as (_ & _ & Hresp & _).
    rewrite (Hresp 405 eq_refl). reflexivity.
  - destruct (remote_probe_outcomes Fixture.bare Fixture.remoteTranscriber
                (Fixture.world Fixture.disk)) as [_ H].
    destruct (H _ eq_refl eq_refl) as (_ & _ & _ & Herr & _).
    rewrite (Herr "getaddrinfo ENOTFOUND" eq_refl). reflexivity.
Defined.

(** C10. In every result that [transcribe] returns, [whisper_path] is the
    locator that discovery returned when discovery reported the local
    executable available -- and then the method is ['whisper'] -- and is
    [null] otherwise, the method then being ['web-api'] or ['mock']: the
    field is set exactly when the method is ['whisper']. *)
Theorem whisper_path_matches_method (e : Env) (this : AudioTranscriber)
    (inputFilePath : string) (options : TranscribeOptions)
    (w : World) (r : TranscriptionResult) (w' : World) :
  transcribe e this inputFilePath options w = (Ok r, w') ->
  (exists c w1,
     checkWhisperAvailability e this (afterValidation inputFilePath w) = (Ok c, w1)
     /\ ((available c = true /\ method (file_info r) = "whisper"
          /\ whisper_path (file_info r) = wc_path c /\ is_Some (wc_path c))
         \/ (available c = false /\ whisper_path (file_info r) = None
             /\ (method (file_info r) = "web-api" \/ method (file_info r) = "mock"))))
  /\ (is_Some (whisper_path (file_info r)) <-> method (file_info r) = "whisper").
Proof.
  intros Hrun.
  destruct (files w !! inputFilePath) as [f|] eqn:Hf;
    [|rewrite (transcribe_missing e this inputFilePath options w Hf) in Hrun; discriminate].
  rewrite (transcribe_found e this inputFilePath options w f Hf) in Hrun. cbv zeta in Hrun.
  destruct (check_answers e this (afterValidation inputFilePath w))
    as (c & w1 & Hcheck & _ & _ & Hpath).
  rewrite Hcheck in Hrun.
  assert (Hcases :
    (available c = true /\ method (file_info r) = "whisper"
     /\ whisper_path (file_info r) = wc_path c /\ is_Some (wc_path c))
    \/ (available c = false /\ whisper_path (file_info r) = None
        /\ (method (file_info r) = "web-api" \/ method (file_info r) = "mock"))).
  { unfold runBackend in Hrun. destruct (available c) eqn:Hav.
    - left. unfold bind in Hrun.
      destruct (localRun _ _ _ _ _ _ w1) as [[txt|msg] w2]; [|discriminate].
      injection Hrun as <- _. cbn. auto.
    - right. destruct (useWebAPI this && truthy (webAPIKey this)).
      + unfold bind in Hrun.
        destruct (remoteRun _ _ _ _ _ _ _ w1) as [[[txt m]|msg] w2] eqn:Hremote;
          [|discriminate].
        injection Hrun as <- _. cbn. split; [reflexivity|]. split; [reflexivity|].
        apply (remoteRun_method e this _ _ _ _ _ _ _ _ _ Hremote).
      + unfold bind in Hrun.
        destruct (generateMockTranscription _ _ _ _ w1) as [[txt|msg] w2]; [|discriminate].
        injection Hrun as <- _. cbn. auto. }
  split; [exists c, w1; split; [exact Hcheck | exact Hcases]|].
  destruct Hcases as [(_ & Hm & Hp & Hsome) | (_ & Hp & Hm)].
  - rewrite Hp, Hm. split; auto.
  - rewrite Hp. split; [intros [x Hx]; discriminate|].
    intros Hw. destruct Hm as [Hm | Hm]; rewrite Hm in Hw; discriminate.
Qed.

Lemma whisper_path_matches_method_witness :
  method (file_info sampleLocalResult) = "whisper"
  /\ whisper_path (file_info sampleLocalResult) = Some "whisper"
  /\ (is_Some (whisper_path (file_info sampleLocalResult))
      <-> method (file_info sampleLocalResult) = "whisper").
Proof.
  split; [vm_compute; reflexivity|]. split; [vm_compute; reflexivity|].
  refine (proj2 (whisper_path_matches_method
            (Fixture.withExec (Fixture.installedExec (Some sampleSrt)) Fixture.bare)
            Fixture.transcriber "/data/talk.mp3" Fixture.txtOptions
            (Fixture.world Fixture.disk) sampleLocalResult
            (transcribe
               (Fixture.withExec (Fixture.installedExec (Some sampleSrt)) Fixture.bare)
               Fixture.transcriber "/data/talk.mp3" Fixture.txtOptions
               (Fixture.world Fixture.disk)).2 _)).
  vm_compute. reflexivity.
Defined.

(** C1 (what the code does). On the remote path, when the probe reports the
    endpoint available and the remote client then fails, [transcribe] does
    return a result and its text is the placeholder's, but the recorded
    method is still ['web-api']: the assignment made before the client ran is
    not undone by the fallback. *)
Theorem remote_failure_keeps_remote_method (e : Env) (this : AudioTranscriber)
    (inputFilePath : string) (options : TranscribeOptions) (w : World)
    (f : File) (c : WhisperCheck) (w1 : World) (p : WebAPICheck) (w2 : World)
    (msg : string) (w3 : World) :
  files w !! inputFilePath = Some f ->
  checkWhisperAvailability e this (afterValidation inputFilePath w) = (Ok c, w1) ->
  available c = false ->
  useWebAPI this && truthy (webAPIKey this) = true ->
  checkWebAPIAvailability e this w1 = (Ok p, w2) ->
  api_available p = true ->
  transcribeWithWebAPI e this inputFilePath options w2 = (Throw msg, w3) ->
  exists r w',
    transcribe e this inputFilePath options w = (Ok r, w')
    /\ method (file_info r) = "web-api"
    /\ (generateMockTranscription e (filename (file_info r)) (size (file_info r))
          (content_type (file_info r))
          (emit (EvWarn ["Web API failed, falling back to mock: " +:+ msg]) w3)).1
       = Ok (text r).
Proof.
  intros Hf Hcheck Hun Hremote Hprobe Hav Hclient.
  rewrite (transcribe_found e this inputFilePath options w f Hf). cbv zeta.
  rewrite Hcheck. unfold runBackend. rewrite Hun, Hremote.
  unfold bind at 1. unfold remoteRun. unfold bind at 1. rewrite Hprobe, Hav.
  unfold bind at 1. unfold try_catch. rewrite Hclient.
  unfold bind, warn, generateMockTranscription, bind, randomBelow, ret.
  do 2 eexists. split; [reflexivity|]. cbn. split; reflexivity.
Qed.

Lemma remote_failure_keeps_remote_method_witness :
  exists r w',
    transcribe (Fixture.withHead (fun _ _ => ProbeResponse 405) Fixture.bare)
      Fixture.remoteTranscriber "/data/talk.mp3" Fixture.txtOptions
      (Fixture.world Fixture.disk) = (Ok r, w')
    /\ method (file_info r) = "web-api"
    /\ text r = mockText (nth 2 mockTexts "") "talk.mp3" 1024000 "audio/mpeg".
Proof.
  pose (e := Fixture.withHead (fun _ _ => ProbeResponse 405) Fixture.bare).
  pose (w0 := afterValidation "/data/talk.mp3" (Fixture.world Fixture.disk)).
  pose (w1 := (checkWhisperAvailability e Fixture.remoteTranscriber w0).2).
  pose (w2 := (checkWebAPIAvailability e Fixture.remoteTranscriber w1).2).
  pose (w3 := (transcribeWithWebAPI e Fixture.remoteTranscriber "/data/talk.mp3"
                 Fixture.txtOptions w2).2).
  destruct (remote_failure_keeps_remote_method e Fixture.remoteTranscriber
              "/data/talk.mp3" Fixture.txtOptions (Fixture.world Fixture.disk)
              Fixture.audio (whisperMissing "Command failed: whisper --help") w1
              {| api_available := true; api_error := None |} w2
              "API request error: getaddrinfo ENOTFOUND" w3)
    as (r & w' & Hrun & Hmethod & _); [vm_compute; reflexivity..|].
  exists r, w'. split; [exact Hrun|]. split; [exact Hmethod|].
  vm_compute in Hrun. injection Hrun as <- _. vm_compute. reflexivity.
Defined.

(** C3. When discovery reports the local executable available and, the
    conversion to WAV done or not needed, the run of the executable fails or
    leaves no subtitle file, [transcribe] throws: with the message of the
    failed run in the first case, with ['Whisper did not generate SRT output']
    in the second, both wrapped as a Whisper failure.  The call has then
    sent no request and drawn no placeholder text. *)
Theorem local_failure_is_fatal (e : Env) (this : AudioTranscriber)
    (inputFilePath : string) (options : TranscribeOptions) (w : World)
    (f : File) (c : WhisperCheck) (w1 : World) (audioFile : string) (w2 : World) :
  files w !! inputFilePath = Some f ->
  checkWhisperAvailability e this (afterValidation inputFilePath w) = (Ok c, w1) ->
  available c = true ->
  convertToWav e this inputFilePath (toLowerCase (path_extname e inputFilePath))
    (setTempFiles [] w1) = (Ok audioFile, w2) ->
  let run := env_exec e (trace w2) (files w2) (whisperCmd this (wc_path c) audioFile) in
  let outcome := transcribe e this inputFilePath options w in
  extends isLocalEvent w outcome.2
  /\ (forall msg, run.1 = Some msg ->
        outcome.1
        = Throw ("Transcription failed: Whisper transcription failed: " +:+ msg))
  /\ (run.1 = None -> run.2 !! srtFileOf e this audioFile = None ->
        outcome.1
        = Throw "Transcription failed: Whisper transcription failed: Whisper did not generate SRT output").
Proof.
  intros Hf Hcheck Hav Hconv run outcome.
  assert (Hout : outcome
    = match try_finally (runWhisper e this (wc_path c) audioFile options)
              (bind getTempFiles (cleanupFiles e this)) w2 with
      | (Ok txt, w3) =>
          (Ok (buildResult this options (path_basename e inputFilePath) (fsize f)
                 (contentTypeOf (toLowerCase (path_extname e inputFilePath)))
                 (env_now e (trace w)) (env_now e (trace w3))
                 (txt, "whisper", wc_path c)),
           emit EvNow w3)
      | (Throw msg, w3) => (Throw ("Transcription failed: " +:+ msg), w3)
      end).
  { subst outcome. rewrite (transcribe_found e this inputFilePath options w f Hf).
    cbv zeta. rewrite Hcheck. unfold runBackend. rewrite Hav.
    unfold bind at 1. unfold localRun. unfold bind at 1. unfold newTempFiles.
    unfold bind at 1. rewrite Hconv.
    destruct (try_finally _ _ w2) as [[txt|msg] w3]; reflexivity. }
  split.
  - subst outcome.
    apply (extends_trans _ _ (afterValidation inputFilePath w)); [|eapply extends_trans].
    + unfold afterValidation.
      repeat (eapply extends_trans; [|apply extends_emit; exact I]).
      apply extends_refl.
    + pose proof (check_events e this (afterValidation inputFilePath w)) as Hc.
      rewrite Hcheck in Hc. eapply extends_weaken; [apply plain_is_local | exact Hc].
    + rewrite (transcribe_found e this inputFilePath options w f Hf).
      cbv zeta. rewrite Hcheck. unfold runBackend. rewrite Hav.
      pose proof (localRun_events e this (wc_path c) inputFilePath
                    (toLowerCase (path_extname e inputFilePath)) options w1) as Hl.
      unfold bind at 1.
      destruct (localRun _ _ _ _ _ _ w1) as [[txt|msg] w3]; cbn [snd] in *; [|exact Hl].
      eapply extends_trans; [exact Hl|]. apply extends_emit. exact I.
  - rewrite Hout.
    destruct (try_finally_cleanup e this (runWhisper e this (wc_path c) audioFile options) w2)
      as [w3 ->].
    destruct run as [[m|] fs] eqn:Hrun; cbn [fst snd].
    + split; [|discriminate]. intros msg [= ->].
      rewrite (runWhisper_exec_fails e this _ _ _ _ _ _ Hrun). reflexivity.
    + split; [discriminate|]. intros _ Hsrt.
      rewrite (runWhisper_no_output e this _ _ _ _ _ Hrun Hsrt). reflexivity.
Qed.

Lemma local_failure_is_fatal_witness :
  (transcribe (Fixture.withExec (Fixture.installedExec None) Fixture.bare)
     Fixture.transcriber "/data/talk.mp3" Fixture.txtOptions (Fixture.world Fixture.disk)).1
  = Throw "Transcription failed: Whisper transcription failed: Whisper did not generate SRT output"
  /\ (transcribe (Fixture.withExec Fixture.brokenExec Fixture.bare)
        Fixture.transcriber "/data/talk.mp3" Fixture.txtOptions (Fixture.world Fixture.disk)).1
     = Throw "Transcription failed: Whisper transcription failed: Command failed: model not found".
Proof.
  split.
  - pose (e := Fixture.withExec (Fixture.installedExec None) Fixture.bare).
    pose (w1 := (checkWhisperAvailability e Fixture.transcriber
                   (afterValidation "/data/talk.mp3" (Fixture.world Fixture.disk))).2).
    pose (w2 := (convertToWav e Fixture.transcriber "/data/talk.mp3" ".mp3"
                   (setTempFiles [] w1)).2).
    destruct (local_failure_is_fatal e Fixture.transcriber "/data/talk.mp3"
                Fixture.txtOptions (Fixture.world Fixture.disk) Fixture.audio
                (whisperFound "whisper") w1 Fixture.wavFile w2)
      as (_ & _ & Hnone); [vm_compute; reflexivity..|].
    apply Hnone; vm_compute; reflexivity.
  - pose (e := Fixture.withExec Fixture.brokenExec Fixture.bare).
    pose (w1 := (checkWhisperAvailability e Fixture.transcriber
                   (afterValidation "/data/talk.mp3" (Fixture.world Fixture.disk))).2).
    pose (w2 := (convertToWav e Fixture.transcriber "/data/talk.mp3" ".mp3"
                   (setTempFiles [] w1)).2).
    destruct (local_failure_is_fatal e Fixture.transcriber "/data/talk.mp3"
                Fixture.txtOptions (Fixture.world Fixture.disk) Fixture.audio
                (whisperFound "whisper") w1 Fixture.wavFile w2)
      as (_ & Hfail & _); [vm_compute; reflexivity..|].
    apply Hfail. vm_compute. reflexivity.
Defined.

(** C4. A call that starts with no artifact registered ends, when cleanup is
    enabled, with every artifact it registered either gone from the disk or
    named in a warning that the call logged when the removal failed; this
    holds whether the call returned or threw.  The cleanup itself never
    throws, so it cannot change the outcome of the call.  When cleanup is
    disabled the call removes no file at all.  Cleanup is enabled unless the
    constructor was given [cleanupTempFiles: false]. *)
Theorem cleanup_invariant (e : Env) (this : AudioTranscriber)
    (inputFilePath : string) (options : TranscribeOptions) (w : World) :
  tempFiles w = [] ->
  let w' := (transcribe e this inputFilePath options w).2 in
  (cleanupTempFiles this = true -> cleaned (trace w) w')
  /\ (cleanupTempFiles this = false -> extends isKeptEvent w w')
  /\ (forall fl w0, exists w1, cleanupFiles e this fl w0 = (Ok tt, w1))
  /\ (forall cwd opts, opt_cleanupTempFiles opts <> Some false ->
        cleanupTempFiles (construct e cwd opts) = true).
Proof.
  intros Hempty w'. subst w'. split; [|split; [|split]].
  - apply transcribe_cleaned, Hempty.
  - intros Hoff. apply transcribe_keeps, Hoff.
  - apply cleanupFiles_returns.
  - intros cwd opts Hne. unfold construct. cbn [cleanupTempFiles].
    rewrite bool_decide_eq_false_2 by exact Hne. reflexivity.
Qed.

Lemma cleanup_invariant_witness :
  let run t :=
    transcribe (Fixture.withExec (Fixture.installedExec (Some sampleSrt)) Fixture.bare)
      t "/data/talk.mp3" Fixture.txtOptions (Fixture.world Fixture.disk) in
  cleaned [] (run Fixture.transcriber).2
  /\ tempFiles (run Fixture.transcriber).2 = [Fixture.wavFile; Fixture.srtFile]
  /\ files (run Fixture.transcriber).2 = Fixture.disk
  /\ extends isKeptEvent (Fixture.world Fixture.disk) (run Fixture.keepingTranscriber).2.
Proof.
  intros run. split; [|split; [|split]].
  - refine (proj1 (cleanup_invariant _ Fixture.transcriber "/data/talk.mp3"
                     Fixture.txtOptions (Fixture.world Fixture.disk) eq_refl) eq_refl).
  - vm_compute. reflexivity.
  - vm_compute. reflexivity.
  - refine (proj1 (proj2 (cleanup_invariant _ Fixture.keepingTranscriber "/data/talk.mp3"
                            Fixture.txtOptions (Fixture.world Fixture.disk) eq_refl)) eq_refl).
Defined.

(** A removal that fails is logged, leaves the file where it is and does not
    change what the call returns. *)
Lemma failed_removal_is_logged :
  let e := Fixture.withRemove (fun _ _ _ => Some "EPERM: operation not permitted")
             (Fixture.withExec (Fixture.installedExec (Some sampleSrt)) Fixture.bare) in
  let run := transcribe e Fixture.transcriber "/data/talk.mp3" Fixture.txtOptions
               (Fixture.world Fixture.disk) in
  match run.1 with
  | Ok r => text r = text sampleLocalResult
  | Throw _ => False
  end
  /\ is_Some (files run.2 !! Fixture.wavFile)
  /\ In (cleanupWarning Fixture.wavFile "EPERM: operation not permitted") (trace run.2)
  /\ In (cleanupWarning Fixture.srtFile "EPERM: operation not permitted") (trace run.2).
Proof.
  intros e run. split; [|split; [|split]].
  - vm_compute. reflexivity.
  - exists {| fsize := 320000; fdata := "RIFF" |}. vm_compute. reflexivity.
  - vm_compute. repeat (first [left; reflexivity | right]).
  - vm_compute. repeat (first [left; reflexivity | right]).
Qed.

(** ** Further properties of the orchestrator *)

Section MoreEffects.

Variable e : Env.
Variable this : AudioTranscriber.

Lemma generateMock_returns (fileName : string) (fileSize : N) (contentType : string)
    (w : World) :
  generateMockTranscription e fileName fileSize contentType w
  = (Ok (mockText (nth (env_random_below e (trace w) (length mockTexts)) mockTexts "undefined")
           fileName fileSize contentType),
     emit EvRandom w).
Proof. reflexivity. Qed.

Lemma mockText_marker (randomText fileName : string) (fileSize : N) (contentType : string) :
  exists rest, mockText randomText fileName fileSize contentType = mockMarker +:+ rest.
Proof. unfold mockText, mockMarker. eexists. reflexivity. Qed.

(** The conversion throws only as an FFmpeg failure. *)
Lemma convertToWav_throw_message (inputFilePath fileExt msg : string) (w w' : World) :
  convertToWav e this inputFilePath fileExt w = (Throw msg, w') ->
  exists m, msg = "FFmpeg conversion failed: " +:+ m.
Proof.
  unfold convertToWav. destruct (bool_decide (fileExt = ".wav")); [discriminate|].
  unfold bind, try_catch, now, execAsync, pushTemp, ret, throw. cbn.
  destruct (env_exec e _ _ _) as [[m|] fs]; intros [= <- _]; eauto.
Qed.

(** The run of Whisper throws only as a Whisper failure. *)
Lemma runWhisper_throw_message (whisperPath : option string) (audioFile : string)
    (options : TranscribeOptions) (msg : string) (w w' : World) :
  runWhisper e this whisperPath audioFile options w = (Throw msg, w') ->
  exists m, msg = "Whisper transcription failed: " +:+ m.
Proof.
  unfold runWhisper, try_catch.
  destruct (bind _ _ w) as [[txt|m] w1]; [discriminate|].
  unfold throw. intros [= <- _]. eauto.
Qed.

Lemma localRun_throw_message (whisperPath : option string) (inputFilePath fileExt : string)
    (options : TranscribeOptions) (msg : string) (w w' : World) :
  localRun e this whisperPath inputFilePath fileExt options w = (Throw msg, w') ->
  exists m, msg = "FFmpeg conversion failed: " +:+ m
            \/ msg = "Whisper transcription failed: " +:+ m.
Proof.
  unfold localRun. unfold bind at 1. unfold newTempFiles. unfold bind at 1.
  destruct (convertToWav e this inputFilePath fileExt (setTempFiles [] w))
    as [[audioFile|m] w2] eqn:Hconv.
  - destruct (try_finally_cleanup e this
                (runWhisper e this whisperPath audioFile options) w2) as [w3 Htf].
    intros Hthrow. pose proof (eq_trans (eq_sym Htf) Hthrow) as Heq.
    destruct (runWhisper e this whisperPath audioFile options w2) as [[txt|m] w4] eqn:Hrun;
      cbn [fst] in Heq; [discriminate|].
    injection Heq as <- _.
    destruct (runWhisper_throw_message _ _ _ _ _ _ Hrun) as [m' ->]. eauto.
  - intros [= <- _]. destruct (convertToWav_throw_message _ _ _ _ _ Hconv) as [m' ->]. eauto.
Qed.

(** The remote branch throws only when the probe itself throws. *)
Lemma remoteRun_throw (inputFilePath : string) (options : TranscribeOptions)
    (fileName : string) (fileSize : N) (contentType : string)
    (msg : string) (w w' : World) :
  remoteRun e this inputFilePath options fileName fileSize contentType w = (Throw msg, w') ->
  checkWebAPIAvailability e this w = (Throw msg, w').
Proof.
  unfold remoteRun. unfold bind at 1.
  destruct (checkWebAPIAvailability e this w) as [[p|m] w1];
    [|intros [= <- <-]; reflexivity].
  destruct (api_available p).
  - unfold bind at 1. unfold try_catch.
    destruct (transcribeWithWebAPI e this inputFilePath options w1) as [[txt|m] w2];
      [discriminate|].
    unfold bind at 1. unfold warn. rewrite generateMock_returns. discriminate.
  - unfold bind at 1. unfold warn. unfold bind at 1.
    rewrite generateMock_returns. discriminate.
Qed.

(** Cleanup leaves the registry as it is. *)
Lemma cleanupFiles_temp (fl : list string) (w : World) :
  tempFiles (cleanupFiles e this fl w).2 = tempFiles w.
Proof.
  unfold cleanupFiles. destruct (negb (cleanupTempFiles this)); [reflexivity|].
  destruct (cleanupLoop_spec e fl w) as (evs & fs & -> & _). reflexivity.
Qed.

End MoreEffects.

(** X1. Every failure of [transcribe] is one of four: the input file is
    missing; the local executable was found and the conversion to WAV
    failed; the local executable was found and its run failed; or no local
    executable was found, the remote mode is on with a credential, and the
    probe itself threw.  In each case the message is the cause wrapped once
    in ['Transcription failed: '].  In particular the placeholder path never
    fails. *)
Theorem failure_causes (e : Env) (this : AudioTranscriber)
    (inputFilePath : string) (options : TranscribeOptions)
    (w : World) (msg : string) (w' : World) :
  transcribe e this inputFilePath options w = (Throw msg, w') ->
  (files w !! inputFilePath = None
   /\ msg = "Transcription failed: Input file not found: " +:+ inputFilePath)
  \/ exists c w1,
       is_Some (files w !! inputFilePath)
       /\ checkWhisperAvailability e this (afterValidation inputFilePath w) = (Ok c, w1)
       /\ ((available c = true
            /\ exists m,
                 msg = "Transcription failed: FFmpeg conversion failed: " +:+ m
                 \/ msg = "Transcription failed: Whisper transcription failed: " +:+ m)
           \/ (available c = false
               /\ useWebAPI this && truthy (webAPIKey this) = true
               /\ exists m,
                    checkWebAPIAvailability e this w1 = (Throw m, w')
                    /\ msg = "Transcription failed: " +:+ m)).
Proof.
  intros Hrun.
  destruct (files w !! inputFilePath) as [f|] eqn:Hf.
  - right.
    rewrite (transcribe_found e this inputFilePath options w f Hf) in Hrun.
    cbv zeta in Hrun.
    destruct (check_answers e this (afterValidation inputFilePath w))
      as (c & w1 & Hcheck & _).
    rewrite Hcheck in Hrun. exists c, w1.
    split; [eauto|]. split; [exact Hcheck|].
    unfold runBackend in Hrun. destruct (available c).
    + left. split; [reflexivity|]. unfold bind in Hrun.
      destruct (localRun _ _ _ _ _ _ w1) as [[txt|m] w2] eqn:Hlocal; [discriminate|].
      injection Hrun as <- _.
      destruct (localRun_throw_message e this _ _ _ _ _ _ _ Hlocal) as [m' [-> | ->]];
        exists m'; auto.
    + right. split; [reflexivity|].
      destruct (useWebAPI this && truthy (webAPIKey this)).
      * split; [reflexivity|]. unfold bind in Hrun.
        destruct (remoteRun _ _ _ _ _ _ _ w1) as [[r|m] w2] eqn:Hremote; [discriminate|].
        injection Hrun as <- <-. exists m. split; [|reflexivity].
        apply (remoteRun_throw e this _ _ _ _ _ _ _ _ Hremote).
      * unfold bind in Hrun. rewrite generateMock_returns in Hrun. discriminate.
  - left. rewrite (transcribe_missing e this inputFilePath options w Hf) in Hrun.
    injection Hrun as <- _. auto.
Qed.

Lemma failure_causes_witness :
  exists c w1,
    is_Some (Fixture.disk !! "/data/talk.mp3")
    /\ checkWhisperAvailability (Fixture.withExec Fixture.brokenExec Fixture.bare)
         Fixture.transcriber
         (afterValidation "/data/talk.mp3" (Fixture.world Fixture.disk)) = (Ok c, w1)
    /\ available c = true.
Proof.
  destruct (failure_causes (Fixture.withExec Fixture.brokenExec Fixture.bare)
              Fixture.transcriber "/data/talk.mp3" Fixture.txtOptions
              (Fixture.world Fixture.disk)
              "Transcription failed: Whisper transcription failed: Command failed: model not found"
              (transcribe (Fixture.withExec Fixture.brokenExec Fixture.bare)
                 Fixture.transcriber "/data/talk.mp3" Fixture.txtOptions
                 (Fixture.world Fixture.disk)).2)
    as [[Hnone _] | (c & w1 & Hsome & Hcheck & Hcase)].
  - vm_compute. reflexivity.
  - vm_compute in Hnone. discriminate Hnone.
  - exists c, w1. split; [exact Hsome|]. split; [exact Hcheck|].
    destruct Hcase as [[Hav _] | [Hav _]]; [exact Hav|].
    vm_compute in Hcheck. injection Hcheck as <- _. discriminate Hav.
Defined.

(** X2. A successful local run: the executable was found, the conversion is
    done or not needed, the run succeeds and leaves the subtitle file.  The
    call returns the rendering of that file's content in the requested mode,
    records the method ['whisper'] with the discovered locator, and has
    registered the subtitle file after whatever the conversion registered. *)
Theorem local_success (e : Env) (this : AudioTranscriber)
    (inputFilePath : string) (options : TranscribeOptions) (w : World)
    (f : File) (c : WhisperCheck) (w1 : World) (audioFile : string) (w2 : World)
    (fs : gmap string File) (srt : File) :
  files w !! inputFilePath = Some f ->
  checkWhisperAvailability e this (afterValidation inputFilePath w) = (Ok c, w1) ->
  available c = true ->
  convertToWav e this inputFilePath (toLowerCase (path_extname e inputFilePath))
    (setTempFiles [] w1) = (Ok audioFile, w2) ->
  env_exec e (trace w2) (files w2) (whisperCmd this (wc_path c) audioFile) = (None, fs) ->
  fs !! srtFileOf e this audioFile = Some srt ->
  exists r w',
    transcribe e this inputFilePath options w = (Ok r, w')
    /\ text r = parseSubtitle (includeTimestamps options) (fdata srt)
    /\ method (file_info r) = "whisper"
    /\ whisper_path (file_info r) = wc_path c
    /\ tempFiles w' = tempFiles w2 ++ [srtFileOf e this audioFile].
Proof.
  intros Hf Hcheck Hav Hconv Hexec Hsrt.
  rewrite (transcribe_found e this inputFilePath options w f Hf). cbv zeta.
  rewrite Hcheck. unfold runBackend. rewrite Hav.
  unfold bind at 1. unfold localRun. unfold bind at 1. unfold newTempFiles.
  unfold bind at 1. rewrite Hconv.
  assert (Hrun : runWhisper e this (wc_path c) audioFile options w2
                 = (Ok (parseSubtitle (includeTimestamps options) (fdata srt)),
                    setTempFiles (tempFiles w2 ++ [srtFileOf e this audioFile])
                      (emits [EvExec (whisperCmd this (wc_path c) audioFile);
                              EvExists (srtFileOf e this audioFile);
                              EvRead (srtFileOf e this audioFile)]
                         (setFiles fs w2)))).
  { unfold runWhisper, try_catch. unfold bind at 1. unfold execAsync. rewrite Hexec.
    unfold bind at 1.
    rewrite existsSync_present by (cbn; rewrite Hsrt; eauto).
    unfold bind at 1.
    rewrite (readFileSync_present e _ _ srt) by exact Hsrt.
    unfold bind, pushTemp, ret, emit, emits, setFiles, setTempFiles. cbn.
    rewrite <- !app_assoc. reflexivity. }
  unfold try_finally. rewrite Hrun. unfold bind at 1. unfold getTempFiles.
  pose proof (cleanupFiles_returns e this) as Hclean.
  match goal with
  | |- context [cleanupFiles e this ?fl ?w0] =>
      destruct (Hclean fl w0) as [w4 Hw4];
      pose proof (cleanupFiles_temp e this fl w0) as Htemp;
      rewrite Hw4 in Htemp |- *
  end.
  unfold ret. do 2 eexists. split; [reflexivity|].
  cbn. repeat split. exact Htemp.
Qed.

Lemma local_success_witness :
  exists r w',
    transcribe (Fixture.withExec (Fixture.installedExec (Some sampleSrt)) Fixture.bare)
      Fixture.transcriber "/data/talk.mp3" Fixture.txtOptions (Fixture.world Fixture.disk)
    = (Ok r, w')
    /\ text r = parseSubtitle false sampleSrt
    /\ tempFiles w' = [Fixture.wavFile; Fixture.srtFile].
Proof.
  pose (e := Fixture.withExec (Fixture.installedExec (Some sampleSrt)) Fixture.bare).
  pose (w1 := (checkWhisperAvailability e Fixture.transcriber
                 (afterValidation "/data/talk.mp3" (Fixture.world Fixture.disk))).2).
  pose (w2 := (convertToWav e Fixture.transcriber "/data/talk.mp3" ".mp3"
                 (setTempFiles [] w1)).2).
  destruct (local_success e Fixture.transcriber "/data/talk.mp3" Fixture.txtOptions
              (Fixture.world Fixture.disk) Fixture.audio (whisperFound "whisper") w1
              Fixture.wavFile w2
              (<[Fixture.srtFile := {| fsize := 100; fdata := sampleSrt |}]> (files w2))
              {| fsize := 100; fdata := sampleSrt |})
    as (r & w' & Hrun & Htext & _ & _ & Htemp); [vm_compute; reflexivity..|].
  exists r, w'. split; [exact Hrun|]. split; [exact Htext|].
  rewrite Htemp. vm_compute. reflexivity.
Defined.

(** X3. When the local executable was found, the input is not a WAV file and
    the converter fails, [transcribe] throws the converter's message wrapped
    as an FFmpeg failure.  The call stops there: Whisper is not run, nothing
    is registered or removed, and neither the remote branch nor the
    placeholder is tried. *)
Theorem conversion_failure_is_fatal (e : Env) (this : AudioTranscriber)
    (inputFilePath : string) (options : TranscribeOptions) (w : World)
    (f : File) (c : WhisperCheck) (w1 : World) (msg : string) (fs : gmap string File) :
  files w !! inputFilePath = Some f ->
  checkWhisperAvailability e this (afterValidation inputFilePath w) = (Ok c, w1) ->
  available c = true ->
  toLowerCase (path_extname e inputFilePath) <> ".wav" ->
  let wavFile :=
    path_join e (tmpDir this) (pretty (env_now e (trace w1)) +:+ "_converted.wav") in
  env_exec e (trace w1 ++ [EvNow]) (files w1) (ffmpegCmd inputFilePath wavFile)
    = (Some msg, fs) ->
  transcribe e this inputFilePath options w
  = (Throw ("Transcription failed: FFmpeg conversion failed: " +:+ msg),
     {| files := fs;
        trace := trace w1 ++ [EvNow; EvExec (ffmpegCmd inputFilePath wavFile)];
        tempFiles := [] |}).
Proof.
  intros Hf Hcheck Hav Hext wavFile Hexec.
  rewrite (transcribe_found e this inputFilePath options w f Hf). cbv zeta.
  rewrite Hcheck. unfold runBackend. rewrite Hav.
  unfold bind at 1. unfold localRun. unfold bind at 1. unfold newTempFiles.
  unfold bind at 1. unfold convertToWav.
  rewrite bool_decide_eq_false_2 by exact Hext.
  unfold bind at 1. unfold now. unfold try_catch. unfold bind at 1. unfold execAsync.
  cbn [emit setTempFiles trace files tempFiles]. fold wavFile. rewrite Hexec.
  unfold throw, emit, setFiles. cbn. rewrite <- app_assoc. reflexivity.
Qed.

Lemma conversion_failure_is_fatal_witness :
  (transcribe
     (Fixture.withExec
        (fun h fs cmd =>
           if String.eqb cmd "whisper --help" then (None, fs)
           else (Some "Command failed: ffmpeg: not found", fs))
        Fixture.bare)
     Fixture.transcriber "/data/talk.mp3" Fixture.txtOptions (Fixture.world Fixture.disk)).1
  = Throw "Transcription failed: FFmpeg conversion failed: Command failed: ffmpeg: not found".
Proof.
  set (e := Fixture.withExec _ Fixture.bare).
  pose (w1 := (checkWhisperAvailability e Fixture.transcriber
                 (afterValidation "/data/talk.mp3" (Fixture.world Fixture.disk))).2).
  rewrite (conversion_failure_is_fatal e Fixture.transcriber "/data/talk.mp3"
             Fixture.txtOptions (Fixture.world Fixture.disk) Fixture.audio
             (whisperFound "whisper") w1 "Command failed: ffmpeg: not found" Fixture.disk);
    [reflexivity | vm_compute; reflexivity.. | | vm_compute; reflexivity].
  vm_compute. discriminate.
Defined.

(** X4. A successful remote run: no local executable, the remote mode on
    with a credential, the probe answered and the upload returned a text.
    The call returns that text as it is, with the method ['web-api'] and no
    executable path, and draws no placeholder text. *)
Theorem remote_success (e : Env) (this : AudioTranscriber)
    (inputFilePath : string) (options : TranscribeOptions) (w : World)
    (f : File) (c : WhisperCheck) (w1 : World) (p : WebAPICheck) (w2 : World)
    (txt : string) (w3 : World) :
  files w !! inputFilePath = Some f ->
  checkWhisperAvailability e this (afterValidation inputFilePath w) = (Ok c, w1) ->
  available c = false ->
  useWebAPI this && truthy (webAPIKey this) = true ->
  checkWebAPIAvailability e this w1 = (Ok p, w2) ->
  api_available p = true ->
  transcribeWithWebAPI e this inputFilePath options w2 = (Ok txt, w3) ->
  exists r,
    transcribe e this inputFilePath options w = (Ok r, emit EvNow w3)
    /\ text r = txt
    /\ method (file_info r) = "web-api"
    /\ whisper_path (file_info r) = None.
Proof.
  intros Hf Hcheck Hun Hremote Hprobe Hav Hclient.
  rewrite (transcribe_found e this inputFilePath options w f Hf). cbv zeta.
  rewrite Hcheck. unfold runBackend. rewrite Hun, Hremote.
  unfold bind at 1. unfold remoteRun. unfold bind at 1. rewrite Hprobe, Hav.
  unfold bind at 1. unfold try_catch. rewrite Hclient.
  unfold bind, ret. eexists. split; [reflexivity|]. cbn. auto.
Qed.

Lemma remote_success_witness :
  exists r w',
    transcribe (online 200 "Good morning." Fixture.bare) Fixture.remoteTranscriber
      "/data/talk.mp3" Fixture.txtOptions (Fixture.world Fixture.disk) = (Ok r, w')
    /\ text r = "Good morning."
    /\ method (file_info r) = "web-api".
Proof.
  set (e := online 200 "Good morning." Fixture.bare).
  pose (w1 := (checkWhisperAvailability e Fixture.remoteTranscriber
                 (afterValidation "/data/talk.mp3" (Fixture.world Fixture.disk))).2).
  pose (w2 := (checkWebAPIAvailability e Fixture.remoteTranscriber w1).2).
  pose (w3 := (transcribeWithWebAPI e Fixture.remoteTranscriber "/data/talk.mp3"
                 Fixture.txtOptions w2).2).
  destruct (remote_success e Fixture.remoteTranscriber "/data/talk.mp3" Fixture.txtOptions
              (Fixture.world Fixture.disk) Fixture.audio
              (whisperMissing "Command failed: whisper --help") w1
              {| api_available := true; api_error := None |} w2 "Good morning." w3)
    as (r & Hrun & Htext & Hmethod & _); [vm_compute; reflexivity..|].
  exists r, (emit EvNow w3). auto.
Defined.

(** X5. When no local executable is found, the remote mode is on with a
    credential and the probe reports the endpoint unavailable, the call logs
    the reason as a warning, returns the placeholder text with the method
    ['mock'], and never attempts the upload: after the probe the only events
    are the warning, the random draw and the clock. *)
Theorem remote_unreachable_falls_back (e : Env) (this : AudioTranscriber)
    (inputFilePath : string) (options : TranscribeOptions) (w : World)
    (f : File) (c : WhisperCheck) (w1 : World) (p : WebAPICheck) (w2 : World) :
  files w !! inputFilePath = Some f ->
  checkWhisperAvailability e this (afterValidation inputFilePath w) = (Ok c, w1) ->
  available c = false ->
  useWebAPI this && truthy (webAPIKey this) = true ->
  checkWebAPIAvailability e this w1 = (Ok p, w2) ->
  api_available p = false ->
  let warning :=
    EvWarn ["Web API not available: " +:+ default "undefined" (api_error p)] in
  exists r w',
    transcribe e this inputFilePath options w = (Ok r, w')
    /\ method (file_info r) = "mock"
    /\ (generateMockTranscription e (filename (file_info r)) (size (file_info r))
          (content_type (file_info r)) (emit warning w2)).1 = Ok (text r)
    /\ trace w' = trace w2 ++ [warning; EvRandom; EvNow]
    /\ files w' = files w2.
Proof.
  intros Hf Hcheck Hun Hremote Hprobe Hav warning.
  rewrite (transcribe_found e this inputFilePath options w f Hf). cbv zeta.
  rewrite Hcheck. unfold runBackend. rewrite Hun, Hremote.
  unfold bind at 1. unfold remoteRun. unfold bind at 1. rewrite Hprobe, Hav.
  unfold bind at 1. unfold warn. unfold bind at 1. rewrite generateMock_returns.
  unfold bind, ret. do 2 eexists. split; [reflexivity|]. cbn.
  repeat split. rewrite <- !app_assoc. reflexivity.
Qed.

Lemma remote_unreachable_falls_back_witness :
  exists r w',
    transcribe Fixture.bare Fixture.remoteTranscriber "/data/talk.mp3" Fixture.txtOptions
      (Fixture.world Fixture.disk) = (Ok r, w')
    /\ method (file_info r) = "mock"
    /\ In (EvWarn ["Web API not available: getaddrinfo ENOTFOUND"]) (trace w').
Proof.
  pose (w1 := (checkWhisperAvailability Fixture.bare Fixture.remoteTranscriber
                 (afterValidation "/data/talk.mp3" (Fixture.world Fixture.disk))).2).
  pose (w2 := (checkWebAPIAvailability Fixture.bare Fixture.remoteTranscriber w1).2).
  destruct (remote_unreachable_falls_back Fixture.bare Fixture.remoteTranscriber
              "/data/talk.mp3" Fixture.txtOptions (Fixture.world Fixture.disk)
              Fixture.audio (whisperMissing "Command failed: whisper --help") w1
              (apiMissing "getaddrinfo ENOTFOUND") w2)
    as (r & w' & Hrun & Hmethod & _ & Htrace & _); [vm_compute; reflexivity..|].
  exists r, w'. split; [exact Hrun|]. split; [exact Hmethod|].
  rewrite Htrace. apply in_or_app. right. left. reflexivity.
Defined.

Section MoreInvariants.

Variable e : Env.
Variable this : AudioTranscriber.

Lemma local_is_offline (ev : Event) : isLocalEvent ev -> isOfflineEvent ev.
Proof. destruct ev; cbn; auto. Qed.

Lemma plain_is_offline (ev : Event) : isPlainEvent ev -> isOfflineEvent ev.
Proof. destruct ev; cbn; auto. Qed.

(** The placeholder text of the remote branch. *)
Lemma remoteRun_mock (inputFilePath : string) (options : TranscribeOptions)
    (fileName : string) (fileSize : N) (contentType : string)
    (w : World) (txt : string) (w' : World) :
  remoteRun e this inputFilePath options fileName fileSize contentType w
    = (Ok (txt, "mock"), w') ->
  exists t, txt = mockText t fileName fileSize contentType.
Proof.
  unfold remoteRun. unfold bind at 1.
  destruct (checkWebAPIAvailability e this w) as [[p|msg] w1]; [|discriminate].
  destruct (api_available p).
  - unfold bind at 1. destruct (try_catch _ _ w1) as [[t|msg] w2]; [|discriminate].
    unfold ret. intros Heq. discriminate Heq.
  - unfold bind at 1. unfold warn. unfold bind at 1. rewrite generateMock_returns.
    unfold ret. intros [= <- _]. eauto.
Qed.


(** Without the remote mode no event of a call is a request. *)
Lemma transcribe_offline (inputFilePath : string) (options : TranscribeOptions) :
  useWebAPI this && truthy (webAPIKey this) = false ->
  respects (extends isOfflineEvent) (transcribe e this inputFilePath options).
Proof.
  intros Hoff. unfold transcribe.
  apply respects_bind; [apply extends_trans | events | intros startTime].
  apply respects_try_catch; [apply extends_trans | | intros ?; events].
  apply respects_bind; [apply extends_trans | events | intros found].
  destruct (negb found); [events|].
  apply respects_bind; [apply extends_trans | events | intros fileSize].
  apply respects_bind; [apply extends_trans | | intros c].
  { eapply respects_weaken; [apply plain_is_offline | apply check_events]. }
  apply respects_bind; [apply extends_trans | | intros ?; events].
  unfold runBackend. destruct (available c).
  - apply respects_bind; [apply extends_trans | | intros ?; events].
    eapply respects_weaken; [apply local_is_offline | apply localRun_events].
  - rewrite Hoff.
    apply respects_bind; [apply extends_trans | | intros ?; events].
    unfold generateMockTranscription. events.
Qed.

(** Every failure of a call is wrapped once. *)
Lemma transcribe_throw_prefix (inputFilePath : string) (options : TranscribeOptions)
    (w : World) (msg : string) (w' : World) :
  transcribe e this inputFilePath options w = (Throw msg, w') ->
  exists m, msg = "Transcription failed: " +:+ m.
Proof.
  unfold transcribe. unfold bind at 1. unfold now. unfold try_catch.
  destruct (bind _ _ _) as [[r|m] w1]; [discriminate|].
  unfold throw. intros [= <- _]. eauto.
Qed.

End MoreInvariants.

(** X6. Unless the remote mode is on with a credential, a call of
    [transcribe] sends nothing over the network, whether it returns or
    throws: no event of the call is a request. *)
Theorem offline_unless_remote (e : Env) (this : AudioTranscriber)
    (inputFilePath : string) (options : TranscribeOptions) :
  useWebAPI this && truthy (webAPIKey this) = false ->
  respects (extends isOfflineEvent) (transcribe e this inputFilePath options).
Proof.
  intros Hoff w. pose proof (transcribe_offline e this inputFilePath options Hoff w) as H.
  exact H.
Qed.

Lemma offline_unless_remote_witness :
  extends isOfflineEvent (Fixture.world Fixture.disk)
    (transcribe Fixture.bare Fixture.transcriber "/data/talk.mp3" Fixture.txtOptions
       (Fixture.world Fixture.disk)).2.
Proof.
  apply (offline_unless_remote Fixture.bare Fixture.transcriber "/data/talk.mp3"
           Fixture.txtOptions).
  reflexivity.
Defined.

(** X7. Every result of [transcribe] describes the input as it was when the
    call started: the base name of the path, the size on disk, the content
    type of the lower-cased extension and that size in KB.  It echoes the
    options ([outputFormat] defaulting to ['txt']) and the configured model,
    whichever backend ran, and the reading of the clock that ends the call
    is its last event; the processing time is the difference between that
    reading and the first one. *)
Theorem result_describes_input (e : Env) (this : AudioTranscriber)
    (inputFilePath : string) (options : TranscribeOptions)
    (w : World) (r : TranscriptionResult) (w' : World) :
  transcribe e this inputFilePath options w = (Ok r, w') ->
  exists f w2,
    files w !! inputFilePath = Some f
    /\ w' = emit EvNow w2
    /\ filename (file_info r) = path_basename e inputFilePath
    /\ size (file_info r) = fsize f
    /\ content_type (file_info r)
       = contentTypeOf (toLowerCase (path_extname e inputFilePath))
    /\ size_kb (file_info r) = sizeKb (fsize f)
    /\ include_timestamps (file_info r) = includeTimestamps options
    /\ output_format (file_info r) = orElse (outputFormat options) "txt"
    /\ model (file_info r) = whisperModel this
    /\ processing_time_ms (file_info r)
       = (Z.of_N (env_now e (trace w2)) - Z.of_N (env_now e (trace w)))%Z.
Proof.
  intros Hrun.
  destruct (files w !! inputFilePath) as [f|] eqn:Hf;
    [|rewrite (transcribe_missing e this inputFilePath options w Hf) in Hrun; discriminate].
  rewrite (transcribe_found e this inputFilePath options w f Hf) in Hrun. cbv zeta in Hrun.
  destruct (checkWhisperAvailability e this (afterValidation inputFilePath w))
    as [[c|msg] w1]; [|discriminate].
  destruct (runBackend _ _ _ _ _ _ _ _ _ w1) as [[[[txt m] wp]|msg] w2]; [|discriminate].
  injection Hrun as <- <-. exists f, w2. cbn. repeat split.
Qed.

Lemma result_describes_input_witness :
  exists r w',
    transcribe Fixture.bare Fixture.transcriber "/data/talk.mp3" Fixture.txtOptions
      (Fixture.world Fixture.disk) = (Ok r, w')
    /\ filename (file_info r) = "talk.mp3"
    /\ size (file_info r) = 1024000
    /\ content_type (file_info r) = "audio/mpeg"
    /\ size_kb (file_info r) = "1000.00"
    /\ output_format (file_info r) = "txt"
    /\ model (file_info r) = "medium".
Proof.
  pose (run := transcribe Fixture.bare Fixture.transcriber "/data/talk.mp3"
                 Fixture.txtOptions (Fixture.world Fixture.disk)).
  assert (Hrun : exists r, run = (Ok r, run.2)).
  { eexists (match run.1 with Ok r => r | Throw _ => sampleLocalResult end).
    vm_compute. reflexivity. }
  destruct Hrun as [r Hrun]. exists r, run.2. split; [exact Hrun|].
  destruct (result_describes_input Fixture.bare Fixture.transcriber "/data/talk.mp3"
              Fixture.txtOptions (Fixture.world Fixture.disk) r run.2 Hrun)
    as (f & w2 & Hf & _ & Hname & Hsize & Htype & Hkb & _ & Hfmt & Hmodel & _).
  vm_compute in Hf. injection Hf as <-.
  rewrite Hname, Hsize, Htype, Hkb, Hfmt, Hmodel. vm_compute. repeat split.
Defined.

(** X8. A result whose method is ['mock'] always carries a placeholder: one
    of the canned texts behind the label ['[MOCK TRANSCRIPTION] '], followed
    by the name, the size in KB and the content type reported in the same
    result. *)
Theorem mock_results_are_labelled (e : Env) (this : AudioTranscriber)
    (inputFilePath : string) (options : TranscribeOptions)
    (w : World) (r : TranscriptionResult) (w' : World) :
  transcribe e this inputFilePath options w = (Ok r, w') ->
  method (file_info r) = "mock" ->
  (exists t, text r = mockText t (filename (file_info r)) (size (file_info r))
                        (content_type (file_info r)))
  /\ exists rest, text r = mockMarker +:+ rest.
Proof.
  intros Hrun Hmock.
  assert (Htext : exists t, text r = mockText t (filename (file_info r))
                                       (size (file_info r)) (content_type (file_info r))).
  { destruct (files w !! inputFilePath) as [f|] eqn:Hf;
      [|rewrite (transcribe_missing e this inputFilePath options w Hf) in Hrun; discriminate].
    rewrite (transcribe_found e this inputFilePath options w f Hf) in Hrun.
    cbv zeta in Hrun.
    destruct (checkWhisperAvailability e this (afterValidation inputFilePath w))
      as [[c|msg] w1]; [|discriminate].
    unfold runBackend in Hrun. destruct (available c).
    - unfold bind in Hrun.
      destruct (localRun _ _ _ _ _ _ w1) as [[txt|msg] w2]; [|discriminate].
      injection Hrun as <- _. discriminate.
    - destruct (useWebAPI this && truthy (webAPIKey this)).
      + unfold bind in Hrun.
        destruct (remoteRun _ _ _ _ _ _ _ w1) as [[[txt m]|msg] w2] eqn:Hremote;
          [|discriminate].
        injection Hrun as <- _. cbn in Hmock |- *. subst m.
        exact (remoteRun_mock e this _ _ _ _ _ _ _ _ Hremote).
      + unfold bind in Hrun. rewrite generateMock_returns in Hrun.
        injection Hrun as <- _. cbn. eauto. }
  split; [exact Htext|]. destruct Htext as [t ->]. apply mockText_marker.
Qed.

Lemma mock_results_are_labelled_witness :
  exists r w',
    transcribe Fixture.bare Fixture.transcriber "/data/talk.mp3" Fixture.txtOptions
      (Fixture.world Fixture.disk) = (Ok r, w')
    /\ exists rest, text r = "[MOCK TRANSCRIPTION] " +:+ rest.
Proof.
  pose (run := transcribe Fixture.bare Fixture.transcriber "/data/talk.mp3"
                 Fixture.txtOptions (Fixture.world Fixture.disk)).
  assert (Hrun : exists r, run = (Ok r, run.2) /\ method (file_info r) = "mock").
  { eexists (match run.1 with Ok r => r | Throw _ => sampleLocalResult end).
    vm_compute. split; reflexivity. }
  destruct Hrun as (r & Hrun & Hmock). exists r, run.2. split; [exact Hrun|].
  exact (proj2 (mock_results_are_labelled Fixture.bare Fixture.transcriber "/data/talk.mp3"
                  Fixture.txtOptions (Fixture.world Fixture.disk) r run.2 Hrun Hmock)).
Defined.



Section Removals.

Variable e : Env.
Variable this : AudioTranscriber.

Lemma plain_removesOnly (fl : list string) (ev : Event) :
  isPlainEvent ev -> removesOnly fl ev.
Proof. destruct ev; cbn; tauto. Qed.

Lemma kept_removesOnly (fl : list string) (ev : Event) :
  isKeptEvent ev -> removesOnly fl ev.
Proof. destruct ev; cbn; tauto. Qed.

Lemma cleanupLoop_removes (fl all : list string) :
  fl ⊆ all -> respects (extends (removesOnly all)) (cleanupLoop e fl).
Proof.
  induction fl as [|file rest IH]; intros Hsub; cbn [cleanupLoop]; [events|].
  apply respects_bind; [apply extends_trans | | intros ?; apply IH; set_solver].
  unfold cleanupOne.
  apply respects_try_catch; [apply extends_trans | | intros ?; events].
  apply respects_bind; [apply extends_trans | events | intros found].
  destruct found; [|events]. apply prim_remove. cbn. set_solver.
Qed.

Lemma cleanupFiles_removes (fl : list string) :
  respects (extends (removesOnly fl)) (cleanupFiles e this fl).
Proof.
  unfold cleanupFiles. destruct (negb (cleanupTempFiles this)); [events|].
  apply cleanupLoop_removes. reflexivity.
Qed.

Lemma localRun_removes (whisperPath : option string) (inputFilePath fileExt : string)
    (options : TranscribeOptions) (w : World) :
  let w' := (localRun e this whisperPath inputFilePath fileExt options w).2 in
  extends (removesOnly (tempFiles w')) w w'.
Proof.
  unfold localRun, bind, newTempFiles.
  pose proof (convertToWav_events e this inputFilePath fileExt (setTempFiles [] w)) as Hc.
  destruct (convertToWav e this inputFilePath fileExt (setTempFiles [] w))
    as [[audioFile|msg] w2] eqn:Hconv; cbn [snd] in Hc |- *.
  - unfold try_finally.
    pose proof (runWhisper_events e this whisperPath audioFile options w2) as Hr.
    destruct (runWhisper e this whisperPath audioFile options w2) as [r3 w3].
    cbn [snd] in Hr. unfold getTempFiles.
    pose proof (cleanupFiles_removes (tempFiles w3) w3) as Hcl.
    pose proof (cleanupFiles_temp e this (tempFiles w3) w3) as Htemp.
    destruct (cleanupFiles_returns e this (tempFiles w3) w3) as [w4 Hw4].
    rewrite Hw4 in Hcl, Htemp |- *. cbn [snd] in Hcl, Htemp |- *. rewrite Htemp.
    apply (extends_trans _ _ w3); [|exact Hcl].
    eapply extends_weaken; [apply plain_removesOnly|].
    apply (extends_trans _ _ w2); [exact Hc | exact Hr].
  - eapply extends_weaken; [apply plain_removesOnly | exact Hc].
Qed.

End Removals.

(** X12. Whatever a call of [transcribe] removes, it had registered: every
    removal of the call, whether it returns or throws, is of a path in its
    final list of temporary files.  Files that the call did not create
    itself -- the input among them, when it is not registered -- are never
    removed. *)
Theorem removes_only_registered (e : Env) (this : AudioTranscriber)
    (inputFilePath : string) (options : TranscribeOptions) (w : World) :
  let w' := (transcribe e this inputFilePath options w).2 in
  extends (removesOnly (tempFiles w')) w w'.
Proof.
  destruct (files w !! inputFilePath) as [f|] eqn:Hf.
  - rewrite (transcribe_found e this inputFilePath options w f Hf).
    pose proof (check_events e this (afterValidation inputFilePath w)) as Hev.
    destruct (checkWhisperAvailability e this (afterValidation inputFilePath w))
      as [[c|msg] w1]; cbn [snd] in Hev.
    + assert (Hpre : forall fl, extends (removesOnly fl) w w1).
      { intros fl. eapply extends_weaken; [apply plain_removesOnly|].
        apply (extends_trans _ _ (afterValidation inputFilePath w)); [|exact Hev].
        unfold afterValidation.
        repeat (eapply extends_trans; [|apply extends_emit; exact I]).
        apply extends_refl. }
      assert (Hrun :
        let w2 := (runBackend e this c inputFilePath
                     (toLowerCase (path_extname e inputFilePath)) options
                     (path_basename e inputFilePath) (fsize f)
                     (contentTypeOf (toLowerCase (path_extname e inputFilePath))) w1).2 in
        extends (removesOnly (tempFiles w2)) w1 w2).
      { unfold runBackend. destruct (available c).
        - pose proof (localRun_removes e this (wc_path c) inputFilePath
                        (toLowerCase (path_extname e inputFilePath)) options w1) as Hl.
          unfold bind. destruct (localRun _ _ _ _ _ _ w1) as [[txt|msg] w2]; exact Hl.
        - destruct (useWebAPI this && truthy (webAPIKey this)).
          + pose proof (remoteRun_keeps e this inputFilePath options
                          (path_basename e inputFilePath) (fsize f)
                          (contentTypeOf (toLowerCase (path_extname e inputFilePath)))
                          w1) as Hr.
            unfold bind. destruct (remoteRun _ _ _ _ _ _ _ w1) as [[r|msg] w2];
              (eapply extends_weaken; [apply kept_removesOnly | exact Hr]).
          + pose proof (generateMock_keeps e (path_basename e inputFilePath) (fsize f)
                          (contentTypeOf (toLowerCase (path_extname e inputFilePath)))
                          w1) as Hr.
            unfold bind. destruct (generateMockTranscription _ _ _ _ w1) as [[r|msg] w2];
              (eapply extends_weaken; [apply kept_removesOnly | exact Hr]). }
      cbv zeta in Hrun |- *.
      destruct (runBackend _ _ _ _ _ _ _ _ _ w1) as [[branch|msg] w2]; cbn [snd] in *.
      * apply (extends_trans _ _ w2); [|apply extends_emit; exact I].
        apply (extends_trans _ _ w1); [apply Hpre | exact Hrun].
      * apply (extends_trans _ _ w1); [apply Hpre | exact Hrun].
    + cbn [snd]. eapply extends_weaken; [apply plain_removesOnly|].
      apply (extends_trans _ _ (afterValidation inputFilePath w)); [|exact Hev].
      unfold afterValidation.
      repeat (eapply extends_trans; [|apply extends_emit; exact I]).
      apply extends_refl.
  - rewrite (transcribe_missing e this inputFilePath options w Hf).
    apply extends_emits. repeat constructor.
Qed.

(** X13. Outside the remote mode the requested output format is only
    echoed: two calls that differ in [outputFormat] alone end in the same
    state and either fail with the same message or return the same text by
    the same method, the results differing at most in the echoed format and
    nothing else. *)
Theorem format_is_only_echoed (e : Env) (this : AudioTranscriber)
    (inputFilePath : string) (o1 o2 : TranscribeOptions) (w : World) :
  useWebAPI this && truthy (webAPIKey this) = false ->
  includeTimestamps o1 = includeTimestamps o2 ->
  (transcribe e this inputFilePath o1 w).2 = (transcribe e this inputFilePath o2 w).2
  /\ match (transcribe e this inputFilePath o1 w).1,
           (transcribe e this inputFilePath o2 w).1 with
     | Ok r1, Ok r2 =>
         text r1 = text r2
         /\ method (file_info r1) = method (file_info r2)
         /\ whisper_path (file_info r1) = whisper_path (file_info r2)
         /\ processing_time_ms (file_info r1) = processing_time_ms (file_info r2)
     | Throw m1, Throw m2 => m1 = m2
     | _, _ => False
     end.
Proof.
  intros Hoff Hts. destruct o1 as [b f1], o2 as [b2 f2]. cbn in Hts. subst b2.
  destruct (files w !! inputFilePath) as [f|] eqn:Hf.
  - rewrite !(transcribe_found e this inputFilePath _ w f Hf). cbv zeta.
    destruct (checkWhisperAvailability e this (afterValidation inputFilePath w))
      as [[c|msg] w1]; [|cbn; auto].
    assert (Hsame :
      runBackend e this c inputFilePath (toLowerCase (path_extname e inputFilePath))
        {| includeTimestamps := b; outputFormat := f1 |}
        (path_basename e inputFilePath) (fsize f)
        (contentTypeOf (toLowerCase (path_extname e inputFilePath))) w1
      = runBackend e this c inputFilePath (toLowerCase (path_extname e inputFilePath))
          {| includeTimestamps := b; outputFormat := f2 |}
          (path_basename e inputFilePath) (fsize f)
          (contentTypeOf (toLowerCase (path_extname e inputFilePath))) w1).
    { unfold runBackend. rewrite Hoff. destruct (available c); reflexivity. }
    rewrite Hsame. clear Hsame.
    destruct (runBackend _ _ _ _ _ _ _ _ _ w1) as [[[[txt m] wp]|msg] w2]; cbn; auto.
  - rewrite !(transcribe_missing e this inputFilePath _ w Hf). cbn. auto.
Qed.

Lemma format_is_only_echoed_witness :
  let e := Fixture.withExec (Fixture.installedExec (Some sampleSrt)) Fixture.bare in
  let run fmt :=
    transcribe e Fixture.transcriber "/data/talk.mp3"
      {| includeTimestamps := true; outputFormat := fmt |} (Fixture.world Fixture.disk) in
  (run (Some "srt")).2 = (run (Some "json")).2
  /\ match (run (Some "srt")).1, (run (Some "json")).1 with
     | Ok r1, Ok r2 => text r1 = text r2
     | Throw m1, Throw m2 => m1 = m2
     | _, _ => False
     end.
Proof.
  intros e run.
  destruct (format_is_only_echoed e Fixture.transcriber "/data/talk.mp3"
              {| includeTimestamps := true; outputFormat := Some "srt" |}
              {| includeTimestamps := true; outputFormat := Some "json" |}
              (Fixture.world Fixture.disk) eq_refl eq_refl) as [Hstate Hres].
  split; [exact Hstate|]. subst run. cbv beta.
  destruct (transcribe e Fixture.transcriber "/data/talk.mp3"
              {| includeTimestamps := true; outputFormat := Some "srt" |}
              (Fixture.world Fixture.disk)).1 as [r1|m1],
           (transcribe e Fixture.transcriber "/data/talk.mp3"
              {| includeTimestamps := true; outputFormat := Some "json" |}
              (Fixture.world Fixture.disk)).1 as [r2|m2]; try exact Hres.
  exact (proj1 Hres).
Defined.

(** X14. The remote client fails before it sends anything when it cannot
    read the file or cannot parse the endpoint: the error is wrapped as
    ['Web API transcription failed: '] and no request is made. *)
Theorem upload_fails_before_sending (e : Env) (this : AudioTranscriber)
    (inputFilePath : string) (options : TranscribeOptions) (w : World) :
  (files w !! inputFilePath = None ->
   transcribeWithWebAPI e this inputFilePath options w
   = (Throw ("Web API transcription failed: " +:+ enoent e inputFilePath),
      emit (EvRead inputFilePath) w))
  /\ (forall f msg,
        files w !! inputFilePath = Some f ->
        url_parse e (webAPIEndpoint this) = Throw msg ->
        transcribeWithWebAPI e this inputFilePath options w
        = (Throw ("Web API transcription failed: " +:+ msg),
           emits [EvRead inputFilePath; EvRandom] w)).
Proof.
  split.
  - intros Hf. unfold transcribeWithWebAPI. unfold bind at 1. unfold try_catch.
    unfold bind at 1. unfold readFileSync. rewrite Hf. reflexivity.
  - intros f msg Hf Hurl. unfold transcribeWithWebAPI. unfold bind at 1.
    unfold try_catch. unfold bind at 1. unfold readFileSync. rewrite Hf.
    unfold bind at 1. unfold randomHex. unfold bind at 1. unfold lift.
    rewrite Hurl. unfold throw, emits, emit. cbn. rewrite <- app_assoc. reflexivity.
Qed.

Lemma upload_fails_before_sending_witness :
  transcribeWithWebAPI Fixture.bare Fixture.remoteTranscriber "/data/gone.mp3"
    Fixture.txtOptions (Fixture.world Fixture.disk)
  = (Throw "Web API transcription failed: ENOENT: no such file or directory, open /data/gone.mp3",
     emit (EvRead "/data/gone.mp3") (Fixture.world Fixture.disk)).
Proof.
  exact (proj1 (upload_fails_before_sending Fixture.bare Fixture.remoteTranscriber
                  "/data/gone.mp3" Fixture.txtOptions (Fixture.world Fixture.disk))
           eq_refl).
Defined.

(** X15. The remote client returns a text only when the server answered
    with status 200 and a body from which a text could be read.  It has then
    read the file and sent exactly one request: a [POST] to the parsed
    endpoint with the multipart body built from the file, whose
    [Content-Length] is the byte length of that body and whose
    [Authorization] is the configured key as a bearer token. *)
Theorem upload_returns_only_on_200 (e : Env) (this : AudioTranscriber)
    (inputFilePath : string) (options : TranscribeOptions) (w : World)
    (txt : string) (w' : World) :
  transcribeWithWebAPI e this inputFilePath options w = (Ok txt, w') ->
  exists f parsedUrl data,
    files w !! inputFilePath = Some f
    /\ url_parse e (webAPIEndpoint this) = Ok parsedUrl
    /\ let boundary :=
         "----WebKitFormBoundary" +:+ env_random_hex e (trace w ++ [EvRead inputFilePath]) in
       let body := formBody boundary (path_basename e inputFilePath) (fdata f) options in
       let request := uploadOptions this parsedUrl boundary body in
       w' = emits [EvRead inputFilePath; EvRandom; EvRequest request (Some body)] w
       /\ env_post e (trace w ++ [EvRead inputFilePath; EvRandom]) request body
          = PostEnd 200 data
       /\ json_text e data = Ok txt
       /\ ro_method request = "POST"
       /\ ro_hostname request = url_hostname parsedUrl
       /\ ("Content-Length", pretty (byteLength body)) ∈ ro_headers request
       /\ ("Authorization", "Bearer " +:+ default "null" (webAPIKey this))
          ∈ ro_headers request.
Proof.
  unfold transcribeWithWebAPI. unfold bind at 1. unfold try_catch.
  unfold bind at 1. unfold readFileSync.
  destruct (files w !! inputFilePath) as [f|] eqn:Hf; [|discriminate].
  unfold bind at 1. unfold randomHex. unfold bind at 1. unfold lift.
  cbn [emit trace files tempFiles].
  destruct (url_parse e (webAPIEndpoint this)) as [parsedUrl|msg] eqn:Hurl; [|discriminate].
  unfold ret. cbn [fst snd]. unfold bind at 1. unfold postRequest.
  cbn [emit trace files tempFiles]. rewrite <- app_assoc. cbn [app].
  destruct (env_post e _ _ _) as [status data|msg|msg] eqn:Hpost; [|discriminate..].
  destruct (status =? 200) eqn:Hstatus; [|discriminate].
  apply N.eqb_eq in Hstatus. subst status.
  destruct (json_text e data) as [t|msg] eqn:Hjson; [|discriminate].
  intros [= <- <-]. exists f, parsedUrl, data.
  split; [reflexivity|]. split; [reflexivity|]. cbv zeta.
  split; [rewrite !emit_emits, !emits_emits; reflexivity|].
  split; [exact Hpost|]. split; [exact Hjson|].
  split; [reflexivity|]. split; [reflexivity|]. cbn. split; set_solver.
Qed.

Lemma upload_returns_only_on_200_witness :
  (transcribeWithWebAPI (online 200 "Good morning." Fixture.bare) Fixture.remoteTranscriber
     "/data/talk.mp3" Fixture.txtOptions (Fixture.world Fixture.disk)).1
  = Ok "Good morning."
  /\ exists f parsedUrl data,
       Fixture.disk !! "/data/talk.mp3" = Some f
       /\ url_parse Fixture.bare "https://api.openai.com/v1/audio/transcriptions"
          = Ok parsedUrl
       /\ json_text Fixture.bare data = Ok "Good morning.".
Proof.
  split; [vm_compute; reflexivity|].
  set (e := online 200 "Good morning." Fixture.bare).
  pose (w' := (transcribeWithWebAPI e Fixture.remoteTranscriber "/data/talk.mp3"
                 Fixture.txtOptions (Fixture.world Fixture.disk)).2).
  destruct (upload_returns_only_on_200 e Fixture.remoteTranscriber "/data/talk.mp3"
              Fixture.txtOptions (Fixture.world Fixture.disk) "Good morning." w')
    as (f & parsedUrl & data & Hf & Hurl & _ & _ & Hjson & _);
    [vm_compute; reflexivity|].
  exists f, parsedUrl, data. auto.
Defined.

(** ** Further properties of the subtitle parser *)

Section MoreStrings.

Lemma digit_not_white (c : ascii) : isDigit c = true -> isWhiteSpace c = false.
Proof.
  intros H. destruct c as [[] [] [] [] [] [] [] []]; vm_compute in H |- *; congruence.
Qed.

Lemma allDigits_noWhiteSpace (s : string) : allDigits s = true -> noWhiteSpace s = true.
Proof.
  induction s as [|c s IH]; [reflexivity|]. cbn [allDigits noWhiteSpace].
  intros H. apply andb_true_iff in H as [Hc Hs].
  rewrite (digit_not_white c Hc), (IH Hs). reflexivity.
Qed.

Lemma noWhiteSpace_trimStart (s : string) : noWhiteSpace s = true -> trimStart s = s.
Proof.
  destruct s as [|c s]; [reflexivity|]. cbn [noWhiteSpace trimStart].
  intros H. apply andb_true_iff in H as [Hc _]. apply negb_true_iff in Hc.
  rewrite Hc. reflexivity.
Qed.

Lemma noWhiteSpace_trimEnd (s : string) : noWhiteSpace s = true -> trimEnd s = s.
Proof.
  induction s as [|c s IH]; [reflexivity|]. cbn [noWhiteSpace trimEnd].
  intros H. apply andb_true_iff in H as [Hc Hs]. apply negb_true_iff in Hc.
  rewrite Hc, (IH Hs). reflexivity.
Qed.

Lemma noWhiteSpace_trim (s : string) : noWhiteSpace s = true -> trim s = s.
Proof.
  intros H. unfold trim. rewrite (noWhiteSpace_trimStart s H).
  apply noWhiteSpace_trimEnd, H.
Qed.

Lemma includes_nl_cons (c : ascii) (s : string) :
  includes nl (String c s) = bool_decide ("010"%char = c) || includes nl s.
Proof. rewrite includes_cons. unfold nl. rewrite prefix_one. reflexivity. Qed.

Lemma includes_nl_app (a b : string) :
  includes nl (a +:+ b) = includes nl a || includes nl b.
Proof.
  induction a as [|c a IH]; [reflexivity|].
  rewrite sapp_cons, !includes_nl_cons, IH. apply orb_assoc.
Qed.

Lemma noWhiteSpace_no_nl (s : string) : noWhiteSpace s = true -> includes nl s = false.
Proof.
  induction s as [|c s IH]; [reflexivity|]. cbn [noWhiteSpace].
  intros H. apply andb_true_iff in H as [Hc Hs]. apply negb_true_iff in Hc.
  rewrite includes_nl_cons, (IH Hs), orb_false_r.
  apply bool_decide_eq_false_2. intros <-. vm_compute in Hc. discriminate.
Qed.

Lemma prefix_app (a b : string) : String.prefix a (a +:+ b) = true.
Proof.
  induction a as [|c a IH]; [apply prefix_empty|].
  rewrite sapp_cons, prefix_cons, IH, bool_decide_eq_true_2 by reflexivity. reflexivity.
Qed.

Lemma includes_prefix (sub s : string) :
  String.prefix sub s = true -> includes sub s = true.
Proof.
  intros H. destruct s as [|c s].
  - change (includes sub "") with (if String.prefix sub "" then true else false).
    rewrite H. reflexivity.
  - rewrite includes_cons, H. reflexivity.
Qed.

Lemma includes_app_mid (sub a b : string) : includes sub (a +:+ sub +:+ b) = true.
Proof.
  induction a as [|c a IH]; [rewrite sapp_empty_l; apply includes_prefix, prefix_app|].
  rewrite sapp_cons. apply includes_cons_true, IH.
Qed.

(** The part of a range line before the separator. *)
Lemma head_split_range (s t cur : string) :
  noWhiteSpace s = true ->
  head (splitFrom rangeSeparator 0 cur (s +:+ rangeSeparator +:+ t)) = Some (cur +:+ s).
Proof.
  revert cur. induction s as [|c s IH]; intros cur Hs.
  - rewrite sapp_empty_l, sapp_empty_r.
    pose proof (prefix_app rangeSeparator t) as Hp.
    destruct (rangeSeparator +:+ t) as [|c u] eqn:Hu; [discriminate|].
    cbn [splitFrom]. rewrite Hp. reflexivity.
  - cbn [noWhiteSpace] in Hs. apply andb_true_iff in Hs as [Hc Hs].
    apply negb_true_iff in Hc. rewrite sapp_cons. cbn [splitFrom].
    assert (Hp : String.prefix rangeSeparator (String c (s +:+ rangeSeparator +:+ t)) = false).
    { unfold rangeSeparator at 1. rewrite prefix_cons.
      rewrite bool_decide_eq_false_2; [reflexivity|].
      intros <-. vm_compute in Hc. discriminate. }
    rewrite Hp, IH by exact Hs. rewrite sapp_assoc. reflexivity.
Qed.

Lemma isTimestamp_facts (s : string) :
  isTimestamp s = true -> isEmpty s = false /\ noWhiteSpace s = true /\ trim s = s.
Proof.
  unfold isTimestamp. intros H. apply andb_true_iff in H as [He Hs].
  apply negb_true_iff in He. auto using noWhiteSpace_trim.
Qed.

End MoreStrings.

Section Cues.

Lemma rangeLine_trim (c : Cue) :
  isTimestamp (cue_start c) = true -> isTimestamp (cue_end c) = true ->
  trim (rangeLine c) = rangeLine c.
Proof.
  intros Hs He.
  destruct (isTimestamp_facts _ Hs) as (Hs1 & _ & Hs3).
  destruct (isTimestamp_facts _ He) as (He1 & _ & He3).
  apply trim_joined; assumption.
Qed.

Lemma rangeLine_isRangeLine (c : Cue) :
  isTimestamp (cue_start c) = true -> isTimestamp (cue_end c) = true ->
  isRangeLine (rangeLine c) = true.
Proof.
  intros Hs He. unfold isRangeLine. rewrite rangeLine_trim by assumption.
  apply includes_app_mid.
Qed.

Lemma rangeLine_startOf (c : Cue) :
  isTimestamp (cue_start c) = true -> isTimestamp (cue_end c) = true ->
  startOf (rangeLine c) = cue_start c.
Proof.
  intros Hs He. unfold startOf. rewrite rangeLine_trim by assumption.
  unfold split, rangeLine.
  rewrite head_split_range by (apply isTimestamp_facts, Hs). reflexivity.
Qed.

Lemma wellFormed_facts (c : Cue) :
  wellFormed c = true ->
  digitsOnly (cue_index c) = true /\ isTimestamp (cue_start c) = true
  /\ isTimestamp (cue_end c) = true /\ cleanText (cue_text c) = true.
Proof.
  unfold wellFormed. intros H.
  apply andb_true_iff in H as [H Ht]. apply andb_true_iff in H as [H He].
  apply andb_true_iff in H as [Hi Hs]. auto.
Qed.

Lemma index_skipped (s : string) : digitsOnly s = true -> isSkippedLine s = true.
Proof.
  intros H. unfold isSkippedLine.
  assert (Ht : trim s = s).
  { apply noWhiteSpace_trim, allDigits_noWhiteSpace.
    unfold digitsOnly in H. apply andb_true_iff in H as [_ H]. exact H. }
  rewrite Ht, H. apply orb_true_r.
Qed.

Lemma index_no_nl (s : string) : digitsOnly s = true -> includes nl s = false.
Proof.
  intros H. apply noWhiteSpace_no_nl, allDigits_noWhiteSpace.
  unfold digitsOnly in H. apply andb_true_iff in H as [_ H]. exact H.
Qed.

Lemma rangeLine_no_nl (c : Cue) :
  isTimestamp (cue_start c) = true -> isTimestamp (cue_end c) = true ->
  includes nl (rangeLine c) = false.
Proof.
  intros Hs He. unfold rangeLine. rewrite !includes_nl_app.
  rewrite (noWhiteSpace_no_nl (cue_start c)) by (apply isTimestamp_facts, Hs).
  rewrite (noWhiteSpace_no_nl (cue_end c)) by (apply isTimestamp_facts, He).
  reflexivity.
Qed.

Lemma srtLines_no_nl (cues : list Cue) :
  Forall (fun c => wellFormed c = true) cues ->
  Forall (fun t => includes nl t = false) (srtLines cues).
Proof.
  induction 1 as [|c rest Hc _ IH]; [constructor|].
  destruct (wellFormed_facts c Hc) as (Hi & Hs & He & Ht).
  assert (Hlines : Forall (fun t => includes nl t = false) (cueLines c)).
  { repeat constructor;
      [apply index_no_nl, Hi | apply rangeLine_no_nl; assumption
      | apply (cleanText_facts _ Ht)]. }
  destruct rest as [|c' rest']; [exact Hlines|].
  change (srtLines (c :: c' :: rest')) with (cueLines c ++ "" :: srtLines (c' :: rest')).
  apply Forall_app. split; [exact Hlines|]. constructor; [reflexivity | exact IH].
Qed.

(** One cue takes the loop from any state to the marker of the cue and its
    text, the text accumulated before being flushed. *)
Lemma srtLoop_cue (c : Cue) (ts cur : string) :
  wellFormed c = true ->
  fold_left srtStep (cueLines c) (ts, cur)
  = (flush ts cur +:+ marker (cue_start c), cue_text c +:+ " ").
Proof.
  intros Hc. destruct (wellFormed_facts c Hc) as (Hi & Hs & He & Ht).
  cbn [cueLines fold_left].
  rewrite (srtStep_skip _ (cue_index c)) by (apply index_skipped, Hi).
  rewrite srtStep_range by (apply rangeLine_isRangeLine; assumption).
  rewrite rangeLine_startOf by assumption.
  rewrite srtStep_clean by exact Ht. reflexivity.
Qed.

Lemma srtFinish_cues (cues : list Cue) (ts cur : string) :
  Forall (fun c => wellFormed c = true) cues -> cues <> [] ->
  srtFinish (fold_left srtStep (srtLines cues) (ts, cur))
  = flush ts cur +:+ renderCues cues.
Proof.
  intros Hall. revert ts cur.
  induction Hall as [|c rest Hc _ IH]; intros ts cur Hne; [congruence|].
  destruct (wellFormed_facts c Hc) as (_ & _ & _ & Ht).
  destruct (cleanText_facts _ Ht) as (_ & Htrim & Hnonempty & _).
  destruct rest as [|c' rest'].
  - cbn [srtLines renderCues]. rewrite srtLoop_cue by exact Hc.
    unfold srtFinish. rewrite isEmpty_app, Hnonempty. cbn [andb].
    rewrite trim_text_space by assumption.
    unfold block. rewrite sapp_assoc. reflexivity.
  - change (srtLines (c :: c' :: rest')) with (cueLines c ++ "" :: srtLines (c' :: rest')).
    rewrite fold_left_app, srtLoop_cue by exact Hc. cbn [fold_left].
    rewrite (srtStep_skip _ "") by reflexivity.
    rewrite IH by discriminate.
    change (renderCues (c :: c' :: rest'))
      with (block (cue_start c) (cue_text c +:+ " ") +:+ blankLine
            +:+ renderCues (c' :: rest')).
    unfold flush at 1. rewrite isEmpty_app, Hnonempty. cbn [andb].
    unfold block, blankLine. rewrite !sapp_assoc. reflexivity.
Qed.

Lemma filter_cues (cues : list Cue) :
  Forall (fun c => wellFormed c = true) cues ->
  List.filter isTextLine (srtLines cues) = map cue_text cues.
Proof.
  induction 1 as [|c rest Hc _ IH]; [reflexivity|].
  destruct (wellFormed_facts c Hc) as (Hi & Hs & He & Ht).
  assert (Hone : forall l,
    List.filter isTextLine (cueLines c ++ l) = cue_text c :: List.filter isTextLine l).
  { intros l. cbn [cueLines app].
    rewrite filter_drop.
    2:{ pose proof (index_skipped _ Hi) as Hsk. unfold isSkippedLine in Hsk.
        unfold isTextLine. apply orb_true_iff in Hsk as [-> | ->]; [reflexivity|].
        rewrite andb_false_r. reflexivity. }
    rewrite filter_drop.
    2:{ unfold isTextLine.
        pose proof (rangeLine_isRangeLine c Hs He) as Hr. unfold isRangeLine in Hr.
        rewrite (includes_trim _ _ Hr). apply andb_false_r. }
    rewrite filter_keep by (apply isTextLine_clean, Ht). reflexivity. }
  destruct rest as [|c' rest'].
  - cbn [srtLines map]. rewrite <- (app_nil_r (cueLines c)), Hone. reflexivity.
  - change (srtLines (c :: c' :: rest')) with (cueLines c ++ "" :: srtLines (c' :: rest')).
    rewrite Hone, filter_drop by reflexivity. rewrite IH. reflexivity.
Qed.

(** Clean lines joined by any separator form a trimmed string. *)
Lemma trim_join_sep (sep : string) (l : list string) :
  Forall (fun t => cleanText t = true) l -> trim (join sep l) = join sep l.
Proof.
  intros Hall. destruct Hall as [|t l Ht Hall]; [reflexivity|].
  destruct (cleanText_facts _ Ht) as (_ & Htrim & Hne & _).
  revert t Ht Htrim Hne. induction Hall as [|u l Hu Hall IH]; intros t Ht Htrim Hne;
    [exact Htrim|].
  destruct (cleanText_facts _ Hu) as (_ & Hutrim & Hune & _).
  change (join sep (t :: u :: l)) with (t +:+ sep +:+ join sep (u :: l)).
  specialize (IH u Hu Hutrim Hune).
  destruct (trim_fixed t Htrim) as [Hs _].
  destruct (trim_fixed _ IH) as [_ He].
  destruct (trimStart_fixed_head t Hs Hne) as (c & t' & -> & Hc).
  assert (Hjoin : isEmpty (join sep (u :: l)) = false).
  { destruct l as [|v l]; [exact Hune|].
    change (join sep (u :: v :: l)) with (u +:+ sep +:+ join sep (v :: l)).
    rewrite isEmpty_app, Hune. reflexivity. }
  unfold trim. rewrite sapp_cons. cbn [trimStart]. rewrite Hc.
  rewrite <- sapp_cons, <- sapp_assoc, trimEnd_app by (rewrite He; exact Hjoin).
  rewrite He. rewrite sapp_assoc. reflexivity.
Qed.

Lemma texts_clean (cues : list Cue) :
  Forall (fun c => wellFormed c = true) cues ->
  Forall (fun t => cleanText t = true) (map cue_text cues).
Proof.
  intros Hall. apply List.Forall_map. eapply Forall_impl; [exact Hall|].
  intros c0 Hc0. apply (wellFormed_facts c0 Hc0).
Qed.

End Cues.

(** X16. A subtitle file of well-formed cues (an index of digits, two
    timestamps without white space around [' --> '], one clean line of
    text), separated by blank lines, is rendered as follows, whatever the
    number of cues.  With timestamps: one block ['[start] text'] per cue in
    the order of the file, the blocks separated by blank lines, the text of
    every block but the last followed by a space.  Without: the texts joined
    by single spaces. *)
Theorem cues_render (cues : list Cue) :
  Forall (fun c => wellFormed c = true) cues ->
  parseSubtitle true (srtOf cues) = renderCues cues
  /\ parseSubtitle false (srtOf cues) = join " " (map cue_text cues).
Proof.
  intros Hall. destruct cues as [|c rest]; [split; reflexivity|].
  assert (Hlines : split nl (srtOf (c :: rest)) = srtLines (c :: rest)).
  { apply split_join_lines; [|apply srtLines_no_nl, Hall].
    destruct rest; discriminate. }
  unfold parseSubtitle, convertSrtToTimestampedText, srtToPlainText, srtLoop, plainLines.
  rewrite Hlines. split.
  - rewrite srtFinish_cues by (assumption || discriminate). reflexivity.
  - rewrite filter_cues by exact Hall. apply trim_join_sep, texts_clean, Hall.
Qed.

Lemma cues_render_witness :
  let cues :=
    [ {| cue_index := "1"; cue_start := "00:00:00,000"; cue_end := "00:00:02,000";
         cue_text := "Good morning." |};
      {| cue_index := "2"; cue_start := "00:00:02,000"; cue_end := "00:00:04,500";
         cue_text := "Welcome back." |} ] in
  parseSubtitle true (srtOf cues)
  = "[00:00:00,000] Good morning. " +:+ nl +:+ nl +:+ "[00:00:02,000] Welcome back."
  /\ parseSubtitle false (srtOf cues) = "Good morning. Welcome back.".
Proof.
  intros cues.
  destruct (cues_render cues) as [Hts Hplain];
    [repeat constructor|].
  rewrite Hts, Hplain. split; vm_compute; reflexivity.
Defined.

Section LineEnds.

Lemma filter_skipped (gap : list string) :
  Forall (fun line => isSkippedLine line = true) gap ->
  List.filter isTextLine gap = [].
Proof.
  induction 1 as [|line gap Hline _ IH]; [reflexivity|].
  rewrite filter_drop; [exact IH|].
  unfold isSkippedLine in Hline. unfold isTextLine.
  apply orb_true_iff in Hline as [-> | ->]; [reflexivity|].
  rewrite andb_false_r. reflexivity.
Qed.

Lemma trimEnd_app_white (c : ascii) (s : string) :
  isWhiteSpace c = true -> trimEnd (s +:+ String c "") = trimEnd s.
Proof.
  intros Hc. induction s as [|a s IH].
  - rewrite sapp_empty_l. cbn [trimEnd isEmpty]. rewrite Hc. reflexivity.
  - rewrite sapp_cons. cbn [trimEnd]. rewrite IH. reflexivity.
Qed.

Lemma trimStart_app_white (c : ascii) (s : string) :
  isWhiteSpace c = true ->
  trimStart (s +:+ String c "") = trimStart s +:+ String c ""
  \/ (trimStart (s +:+ String c "") = "" /\ trimStart s = "").
Proof.
  intros Hc. induction s as [|a s IH].
  - right. rewrite sapp_empty_l. cbn [trimStart]. rewrite Hc. auto.
  - rewrite sapp_cons. cbn [trimStart]. destruct (isWhiteSpace a); [exact IH|].
    left. reflexivity.
Qed.

(** A white-space character at the end of a line is invisible to [trim]. *)
Lemma trim_app_white (c : ascii) (s : string) :
  isWhiteSpace c = true -> trim (s +:+ String c "") = trim s.
Proof.
  intros Hc. unfold trim.
  destruct (trimStart_app_white c s Hc) as [-> | [-> ->]];
    [apply trimEnd_app_white, Hc | reflexivity].
Qed.

Lemma srtStep_cr (st : string * string) (line : string) :
  srtStep st (line +:+ cr) = srtStep st line.
Proof. unfold srtStep, cr. rewrite trim_app_white by reflexivity. reflexivity. Qed.

Lemma withCarriageReturns_cons (l l' : string) (rest : list string) :
  withCarriageReturns (l :: l' :: rest) = (l +:+ cr) :: withCarriageReturns (l' :: rest).
Proof. reflexivity. Qed.

Lemma join_crlf (lines : list string) :
  join (cr +:+ nl) lines = join nl (withCarriageReturns lines).
Proof.
  induction lines as [|l rest IH]; [reflexivity|].
  destruct rest as [|l' rest]; [reflexivity|].
  rewrite withCarriageReturns_cons.
  change (join (cr +:+ nl) (l :: l' :: rest))
    with (l +:+ (cr +:+ nl) +:+ join (cr +:+ nl) (l' :: rest)).
  rewrite IH.
  destruct (withCarriageReturns (l' :: rest)) as [|x xs] eqn:Hx;
    [destruct rest; discriminate|].
  change (join nl ((l +:+ cr) :: x :: xs)) with ((l +:+ cr) +:+ nl +:+ join nl (x :: xs)).
  rewrite !sapp_assoc. reflexivity.
Qed.

Lemma withCarriageReturns_no_nl (lines : list string) :
  Forall (fun t => includes nl t = false) lines ->
  Forall (fun t => includes nl t = false) (withCarriageReturns lines).
Proof.
  induction 1 as [|l rest Hl Hrest IH]; [constructor|].
  destruct rest as [|l' rest]; [constructor; [exact Hl | constructor]|].
  rewrite withCarriageReturns_cons. constructor; [|exact IH].
  rewrite includes_nl_app, Hl. reflexivity.
Qed.

Lemma withCarriageReturns_nonempty (lines : list string) :
  lines <> [] -> withCarriageReturns lines <> [].
Proof. destruct lines as [|l [|l' rest]]; [congruence | discriminate..]. Qed.

Lemma srtLoop_cr (lines : list string) (st : string * string) :
  fold_left srtStep (withCarriageReturns lines) st = fold_left srtStep lines st.
Proof.
  revert st. induction lines as [|l rest IH]; intros st; [reflexivity|].
  destruct rest as [|l' rest]; [reflexivity|].
  rewrite withCarriageReturns_cons. cbn [fold_left]. rewrite srtStep_cr.
  apply (IH (srtStep st l)).
Qed.

(** A character that does not occur in [sub] cannot complete an occurrence
    of [sub]. *)
Lemma prefix_app_other (x : ascii) (sub s : string) :
  includes (String x "") sub = false -> isEmpty sub = false ->
  String.prefix sub (s +:+ String x "") = String.prefix sub s.
Proof.
  revert s. induction sub as [|a sub IH]; intros s Hx Hne; [discriminate|].
  rewrite includes_cons, prefix_one in Hx. apply orb_false_elim in Hx as [Hxa Hx].
  apply bool_decide_eq_false in Hxa.
  destruct s as [|c s].
  - rewrite sapp_empty_l, prefix_cons.
    rewrite bool_decide_eq_false_2 by congruence. reflexivity.
  - rewrite sapp_cons, !prefix_cons. destruct sub as [|b sub].
    + rewrite !prefix_empty. reflexivity.
    + rewrite IH by (exact Hx || reflexivity). reflexivity.
Qed.

Lemma includes_app_other (x : ascii) (sub s : string) :
  includes (String x "") sub = false -> isEmpty sub = false ->
  includes sub (s +:+ String x "") = includes sub s.
Proof.
  intros Hx Hne. induction s as [|c s IH].
  - rewrite sapp_empty_l. destruct sub as [|a sub]; [discriminate|].
    rewrite includes_cons, prefix_cons.
    rewrite includes_cons, prefix_one in Hx. apply orb_false_elim in Hx as [Hxa _].
    apply bool_decide_eq_false in Hxa.
    rewrite bool_decide_eq_false_2 by congruence. reflexivity.
  - rewrite sapp_cons, !includes_cons, IH.
    rewrite <- sapp_cons, prefix_app_other by assumption. reflexivity.
Qed.

Lemma isTextLine_cr (line : string) : isTextLine (line +:+ cr) = isTextLine line.
Proof.
  unfold isTextLine, cr. rewrite trim_app_white by reflexivity.
  rewrite (includes_app_other _ rangeSeparator) by reflexivity. reflexivity.
Qed.

Lemma filter_cr (lines : list string) :
  lines <> [] -> isTextLine (List.last lines "") = true ->
  List.filter isTextLine (withCarriageReturns lines)
  = withCarriageReturns (List.filter isTextLine lines).
Proof.
  induction lines as [|l rest IH]; intros Hne Hlast; [congruence|].
  destruct rest as [|l' rest].
  - cbn [List.last] in Hlast. cbn [withCarriageReturns List.filter].
    rewrite Hlast. reflexivity.
  - rewrite withCarriageReturns_cons.
    assert (Hrest : List.filter isTextLine (l' :: rest) <> []).
    { clear IH Hne. revert l' Hlast. induction rest as [|l'' rest IHr]; intros l' Hlast.
      - cbn [List.last] in Hlast. cbn [List.filter]. rewrite Hlast. discriminate.
      - specialize (IHr l'' Hlast). intros Hnil. apply IHr.
        cbn [List.filter] in Hnil |- *. destruct (isTextLine l'); [discriminate | exact Hnil]. }
    specialize (IH ltac:(discriminate) Hlast).
    destruct (isTextLine l) eqn:Hl.
    + rewrite filter_keep by (rewrite isTextLine_cr; exact Hl).
      rewrite (filter_keep _ l) by exact Hl. rewrite IH.
      destruct (List.filter isTextLine (l' :: rest)) as [|y ys]; [congruence|].
      reflexivity.
    + rewrite filter_drop by (rewrite isTextLine_cr; exact Hl).
      rewrite (filter_drop _ l) by exact Hl. exact IH.
Qed.

Lemma join_withCarriageReturns (lines : list string) :
  join " " (withCarriageReturns lines) = join (cr +:+ " ") lines.
Proof.
  induction lines as [|l rest IH]; [reflexivity|].
  destruct rest as [|l' rest]; [reflexivity|].
  rewrite withCarriageReturns_cons.
  change (join (cr +:+ " ") (l :: l' :: rest))
    with (l +:+ (cr +:+ " ") +:+ join (cr +:+ " ") (l' :: rest)).
  rewrite <- IH.
  destruct (withCarriageReturns (l' :: rest)) as [|x xs] eqn:Hx;
    [destruct rest; discriminate|].
  change (join " " ((l +:+ cr) :: x :: xs)) with ((l +:+ cr) +:+ " " +:+ join " " (x :: xs)).
  rewrite !sapp_assoc. reflexivity.
Qed.

Lemma last_app_cons (l : list string) (x : string) (xs : list string) (d : string) :
  List.last (l ++ x :: xs) d = List.last (x :: xs) d.
Proof.
  induction l as [|a l IH]; [reflexivity|].
  change ((a :: l) ++ x :: xs) with (a :: (l ++ x :: xs)).
  destruct (l ++ x :: xs) as [|y ys] eqn:Hy; [destruct l; discriminate|].
  exact IH.
Qed.

Lemma last_srtLines (cues : list Cue) (c : Cue) :
  List.last (srtLines (cues ++ [c])) "" = cue_text c.
Proof.
  induction cues as [|c0 rest IH]; [reflexivity|].
  destruct (rest ++ [c]) as [|c1 rest'] eqn:Hrest; [destruct rest; discriminate|].
  change (srtLines ((c0 :: rest) ++ [c])) with (srtLines (c0 :: rest ++ [c])).
  rewrite Hrest.
  change (srtLines (c0 :: c1 :: rest')) with (cueLines c0 ++ "" :: srtLines (c1 :: rest')).
  rewrite last_app_cons.
  destruct (srtLines (c1 :: rest')) as [|x xs] eqn:Hx; [destruct rest'; discriminate|].
  exact IH.
Qed.

(** A line without a line break, broken off a string at its line breaks. *)
Lemma splitFrom_no_nl (s cur : string) :
  includes nl cur = false ->
  Forall (fun t => includes nl t = false) (splitFrom nl 0 cur s).
Proof.
  revert cur. induction s as [|c s IH]; intros cur Hcur;
    [constructor; [exact Hcur | constructor]|].
  cbn [splitFrom]. destruct (String.prefix nl (String c s)) eqn:Hc.
  - constructor; [exact Hcur|]. apply (IH ""). reflexivity.
  - unfold nl in Hc. rewrite prefix_one in Hc.
    apply IH. rewrite includes_nl_app, Hcur, includes_nl_cons, Hc. reflexivity.
Qed.

Lemma join_no_nl (l : list string) :
  Forall (fun t => includes nl t = false) l -> includes nl (join " " l) = false.
Proof.
  induction 1 as [|t l Ht _ IH]; [reflexivity|].
  destruct l as [|u l]; [exact Ht|].
  change (join " " (t :: u :: l)) with (t +:+ " " +:+ join " " (u :: l)).
  rewrite !includes_nl_app, Ht, IH. reflexivity.
Qed.

Lemma filter_Forall (P : string -> Prop) (f : string -> bool) (l : list string) :
  Forall P l -> Forall P (List.filter f l).
Proof.
  induction 1 as [|t l Ht _ IH]; [constructor|].
  cbn [List.filter]. destruct (f t); [constructor; assumption | exact IH].
Qed.

End LineEnds.

(** X17. Lines that are blank or consist of digits only are invisible to
    both renderings, wherever they stand: removing them from a file does not
    change the result.  So a line of text that is a number is lost; a file
    without any other line renders as the empty string. *)
Theorem numeric_lines_are_dropped (includeTimestamps : bool) (l1 gap l2 : list string) :
  Forall (fun t => includes nl t = false) (l1 ++ gap ++ l2) ->
  Forall (fun line => isSkippedLine line = true) gap ->
  gap <> [] ->
  parseSubtitle includeTimestamps (join nl (l1 ++ gap ++ l2))
  = match l1 ++ l2 with
    | [] => ""
    | _ => parseSubtitle includeTimestamps (join nl (l1 ++ l2))
    end.
Proof.
  intros Hall Hgap Hne.
  assert (Hleft : split nl (join nl (l1 ++ gap ++ l2)) = l1 ++ gap ++ l2).
  { apply split_join_lines; [|exact Hall].
    destruct l1; [destruct gap; [congruence | discriminate] | discriminate]. }
  assert (Hloop : forall l, l = l1 ++ l2 ->
            srtLoop (l1 ++ gap ++ l2) = srtLoop l
            /\ plainLines (l1 ++ gap ++ l2) = plainLines l).
  { intros l ->. unfold srtLoop, plainLines. split.
    - rewrite !fold_left_app, (srtStep_skipped gap _ Hgap). reflexivity.
    - rewrite !List.filter_app, (filter_skipped gap Hgap). reflexivity. }
  destruct (Hloop _ eq_refl) as [Hts Hplain].
  unfold parseSubtitle, convertSrtToTimestampedText, srtToPlainText. rewrite Hleft.
  destruct (l1 ++ l2) as [|x xs] eqn:Hrest.
  - rewrite Hts, Hplain. destruct includeTimestamps; reflexivity.
  - rewrite <- Hrest in *.
    assert (Hright : split nl (join nl (l1 ++ l2)) = l1 ++ l2).
    { apply split_join_lines; [rewrite Hrest; discriminate|].
      apply Forall_app in Hall as [H1 H2]. apply Forall_app in H2 as [_ H2].
      apply Forall_app. auto. }
    rewrite Hright, Hts, Hplain. reflexivity.
Qed.

Lemma numeric_lines_are_dropped_witness :
  parseSubtitle false
    (join nl ["1"; "00:00:00,000 --> 00:00:02,000"; "The year was"; "1969"; "in July."])
  = "The year was in July.".
Proof.
  refine (eq_trans
            (numeric_lines_are_dropped false
               ["1"; "00:00:00,000 --> 00:00:02,000"; "The year was"] ["1969"] ["in July."]
               _ _ _) _).
  - repeat constructor.
  - repeat constructor.
  - discriminate.
  - vm_compute. reflexivity.
Defined.

(** X18. With timestamps, a file with CRLF line ends is rendered exactly as
    the same file with LF line ends: the loop trims every line. *)
Theorem crlf_is_ignored_with_timestamps (lines : list string) :
  Forall (fun t => includes nl t = false) lines ->
  lines <> [] ->
  parseSubtitle true (join (cr +:+ nl) lines) = parseSubtitle true (join nl lines).
Proof.
  intros Hall Hne. unfold parseSubtitle, convertSrtToTimestampedText, srtLoop.
  rewrite join_crlf.
  rewrite !split_join_lines
    by first [ apply withCarriageReturns_nonempty, Hne
             | apply withCarriageReturns_no_nl, Hall | exact Hne | exact Hall ].
  rewrite srtLoop_cr. reflexivity.
Qed.

Lemma crlf_is_ignored_with_timestamps_witness :
  parseSubtitle true
    (join (cr +:+ nl) ["1"; "00:00:00,000 --> 00:00:02,000"; "Good morning."])
  = "[00:00:00,000] Good morning.".
Proof.
  rewrite (crlf_is_ignored_with_timestamps
             ["1"; "00:00:00,000 --> 00:00:02,000"; "Good morning."]);
    [vm_compute; reflexivity | repeat constructor | discriminate].
Defined.

(** X19. Without timestamps the lines are filtered but not trimmed: of a
    file of well-formed cues with CRLF line ends, the plain rendering keeps
    a carriage return after the text of every cue but the last. *)
Theorem crlf_stays_in_plain_text (cues : list Cue) :
  Forall (fun c => wellFormed c = true) cues ->
  parseSubtitle false (join (cr +:+ nl) (srtLines cues))
  = join (cr +:+ " ") (map cue_text cues).
Proof.
  intros Hall. destruct cues as [|c rest]; [reflexivity|].
  assert (Hne : srtLines (c :: rest) <> []) by (destruct rest; discriminate).
  assert (Hlast : isTextLine (List.last (srtLines (c :: rest)) "") = true).
  { destruct (exists_last (l := c :: rest)) as (init & c0 & Heq); [discriminate|].
    rewrite Heq, last_srtLines. apply isTextLine_clean.
    rewrite Heq in Hall. apply Forall_app in Hall as [_ Hall].
    inversion Hall as [|? ? Hc0 _]; subst. apply (wellFormed_facts c0 Hc0). }
  unfold parseSubtitle, srtToPlainText, plainLines. rewrite join_crlf.
  rewrite split_join_lines
    by first [ apply withCarriageReturns_nonempty, Hne
             | apply withCarriageReturns_no_nl, srtLines_no_nl, Hall ].
  rewrite filter_cr by assumption.
  rewrite filter_cues by exact Hall.
  rewrite join_withCarriageReturns.
  apply trim_join_sep, texts_clean, Hall.
Qed.

Lemma crlf_stays_in_plain_text_witness :
  parseSubtitle false
    (join (cr +:+ nl)
       [ "1"; "00:00:00,000 --> 00:00:02,000"; "Good morning."; "";
         "2"; "00:00:02,000 --> 00:00:04,500"; "Welcome back." ])
  = "Good morning." +:+ cr +:+ " Welcome back.".
Proof.
  apply (crlf_stays_in_plain_text
           [ {| cue_index := "1"; cue_start := "00:00:00,000"; cue_end := "00:00:02,000";
                cue_text := "Good morning." |};
             {| cue_index := "2"; cue_start := "00:00:02,000"; cue_end := "00:00:04,500";
                cue_text := "Welcome back." |} ]).
  repeat constructor.
Defined.

(** X20. The plain rendering is a single line: whatever the content of the
    subtitle file, the text returned without timestamps contains no line
    break. *)
Theorem plain_text_is_one_line (srtContent : string) :
  includes nl (parseSubtitle false srtContent) = false.
Proof.
  unfold parseSubtitle, srtToPlainText, plainLines, split.
  destruct (includes nl (trim _)) eqn:H; [|reflexivity].
  apply includes_trim in H.
  rewrite join_no_nl in H; [discriminate|].
  apply filter_Forall, splitFrom_no_nl. reflexivity.
Qed.

(** ** Properties of the callers *)

Section CliFacts.

Lemma isCase_true (long short arg : string) :
  Cli.isCase long short arg = true -> arg = long \/ arg = short.
Proof.
  unfold Cli.isCase. intros H. apply orb_true_iff in H as [H | H];
    apply String.eqb_eq in H; auto.
Qed.

Lemma orElse_nonempty (v d : string) : d <> "" -> orElse (Some v) d <> "".
Proof.
  intros Hd. unfold orElse. cbn [truthy default].
  destruct v; cbn [isEmpty negb]; [exact Hd | discriminate].
Qed.

Lemma parseLoop_parsed (all : list string) (n : nat) :
  forall args o, (length args <= n)%nat -> (forall x, x ∈ args -> x ∈ all) ->
    parsed all o -> parsed all (Cli.parseLoop args o).
Proof.
  induction n as [|n IH]; intros args o Hlen Hsub Ho.
  { destruct args; [exact Ho | cbn in Hlen; lia]. }
  destruct args as [|arg rest]; [exact Ho|].
  assert (Harg : arg ∈ all) by (apply Hsub; left).
  assert (Hrest : forall x, x ∈ rest -> x ∈ all) by (intros x Hx; apply Hsub; right; exact Hx).
  assert (Hn : (length rest <= n)%nat) by (cbn in Hlen; lia).
  destruct Ho as (Hf & Hm & Hi & Hh & Ht & Ho & Hw).
  assert (Hsame : parsed all o) by (repeat split; auto; apply Hi; assumption).
  cbn [Cli.parseLoop].
  destruct (Cli.isCase "--timestamps" "-t" arg) eqn:C1.
  { apply IH; [exact Hn | exact Hrest|].
    apply isCase_true in C1. unfold parsed. cbn.
    repeat split; auto; try (apply Hi; assumption).
    destruct C1 as [<- | <-]; auto. }
  destruct (Cli.isCase "--format" "-f" arg) eqn:C2.
  { destruct rest as [|v rest'].
    - unfold parsed. cbn. repeat split; auto; try (apply Hi; assumption).
    - apply IH; [cbn in Hn; lia | intros x Hx; apply Hrest; right; exact Hx|].
      unfold parsed. cbn [Cli.setOutputFormat Cli.outputFormat Cli.whisperModel
        Cli.inputFile Cli.help Cli.includeTimestamps Cli.outputFile Cli.whisperPath].
      repeat split; auto; try (apply Hi; assumption).
      apply orElse_nonempty. discriminate. }
  destruct (Cli.isCase "--model" "-m" arg) eqn:C3.
  { destruct rest as [|v rest'].
    - unfold parsed. cbn. repeat split; auto; try (apply Hi; assumption).
    - apply IH; [cbn in Hn; lia | intros x Hx; apply Hrest; right; exact Hx|].
      unfold parsed. cbn [Cli.setWhisperModel Cli.outputFormat Cli.whisperModel
        Cli.inputFile Cli.help Cli.includeTimestamps Cli.outputFile Cli.whisperPath].
      repeat split; auto; try (apply Hi; assumption).
      apply orElse_nonempty. discriminate. }
  destruct (Cli.isCase "--whisper-path" "-w" arg) eqn:C4.
  { destruct rest as [|v rest'].
    - unfold parsed. cbn. repeat split; auto; try (apply Hi; assumption). discriminate.
    - apply IH; [cbn in Hn; lia | intros x Hx; apply Hrest; right; exact Hx|].
      unfold parsed. cbn. repeat split; auto; try (apply Hi; assumption).
      intros v' [= <-]. apply Hrest. left. }
  destruct (Cli.isCase "--output" "-o" arg) eqn:C5.
  { destruct rest as [|v rest'].
    - unfold parsed. cbn. repeat split; auto; try (apply Hi; assumption). discriminate.
    - apply IH; [cbn in Hn; lia | intros x Hx; apply Hrest; right; exact Hx|].
      unfold parsed. cbn. repeat split; auto; try (apply Hi; assumption).
      intros v' [= <-]. apply Hrest. left. }
  destruct (Cli.isCase "--help" "-h" arg) eqn:C6.
  { apply IH; [exact Hn | exact Hrest|].
    apply isCase_true in C6. unfold parsed. cbn.
    repeat split; auto; try (apply Hi; assumption).
    destruct C6 as [<- | <-]; auto. }
  apply IH; [exact Hn | exact Hrest|].
  destruct (negb (truthy (Cli.inputFile o)) && negb (String.prefix "-" arg)) eqn:Hcond;
    [|exact Hsame].
  apply andb_true_iff in Hcond as [_ Hdash]. apply negb_true_iff in Hdash.
  unfold parsed. cbn. repeat split; auto; injection H as <-; assumption.
Qed.

End CliFacts.

(** X21. What [parseArgs] returns, whatever the command line: the output
    format and the model are never empty; the input file, when there is one,
    is one of the arguments and does not start with a dash; help and
    timestamps are set only when their flag occurs among the arguments; the
    output file and the executable path, when set, are arguments too. *)
Theorem cli_arguments_are_parsed_safely (argv : list string) :
  let options := Cli.parseArgs argv in
  Cli.outputFormat options <> ""
  /\ Cli.whisperModel options <> ""
  /\ (forall p, Cli.inputFile options = Some p ->
        p ∈ drop 2 argv /\ String.prefix "-" p = false)
  /\ (Cli.help options = true -> "--help" ∈ drop 2 argv \/ "-h" ∈ drop 2 argv)
  /\ (Cli.includeTimestamps options = true ->
        "--timestamps" ∈ drop 2 argv \/ "-t" ∈ drop 2 argv)
  /\ (forall v, Cli.outputFile options = Some v -> v ∈ drop 2 argv)
  /\ (forall v, Cli.whisperPath options = Some v -> v ∈ drop 2 argv).
Proof.
  unfold Cli.parseArgs.
  apply (parseLoop_parsed (drop 2 argv) (length (drop 2 argv)) (drop 2 argv) Cli.initial);
    [lia | auto|].
  repeat split; cbn; discriminate.
Qed.

Section FrontEnds.

Variable e : Env.






(** The echoes of a result. *)
Lemma result_fields (t : AudioTranscriber) (inputFilePath : string)
    (options : TranscribeOptions) (w : World) (r : TranscriptionResult) (w' : World) :
  transcribe e t inputFilePath options w = (Ok r, w') ->
  model (file_info r) = whisperModel t
  /\ output_format (file_info r) = orElse (outputFormat options) "txt".
Proof.
  intros Hrun.
  destruct (files w !! inputFilePath) as [f|] eqn:Hf;
    [|rewrite (transcribe_missing e t inputFilePath options w Hf) in Hrun; discriminate].
  rewrite (transcribe_found e t inputFilePath options w f Hf) in Hrun. cbv zeta in Hrun.
  destruct (checkWhisperAvailability e t (afterValidation inputFilePath w))
    as [[c|msg] w1]; [|discriminate].
  destruct (runBackend _ _ _ _ _ _ _ _ _ w1) as [[[[txt m] wp]|msg] w2]; [|discriminate].
  injection Hrun as <- _. split; reflexivity.
Qed.

End FrontEnds.




(** X24. The desktop application never leaves the machine.  The
    transcriber that [initializeTranscriber] installs has the remote mode
    off, cleanup on and the model ['medium'].  From any such transcriber the
    ['transcribe-audio'] handler sends no network request; it keeps the
    remote mode off and the cleanup setting, and leaves the model at the
    requested one, ['medium'] when none is named.  Its reply is either the
    result of [transcribe], reporting that model, or the message of the
    failure, which starts with ['Transcription failed: '].  Before any
    transcriber is installed the handler replies with a failure and touches
    nothing. *)
Theorem desktop_app_stays_local (e : Env) (cwd tempPath : string)
    (ensureDir : string -> option string) (destructuringError undefinedError : string) :
  (forall old w c current w',
     Electron.initializeTranscriber e cwd tempPath ensureDir old w = (Ok c, current, w') ->
     exists t, current = Some t /\ isLocalOnly t /\ cleanupTempFiles t = true
               /\ whisperModel t = "medium")
  /\ (forall t request w,
        isLocalOnly t ->
        let requested := default "medium" (Electron.whisperModel request) in
        let outcome :=
          Electron.transcribeAudio e destructuringError undefinedError (Some t)
            (Some request) w in
        outcome.1.2 = Some (setModel requested t)
        /\ isLocalOnly (setModel requested t)
        /\ extends isOfflineEvent w outcome.2
        /\ match outcome.1.1 with
           | Electron.Success data =>
               model (file_info data) = requested
               /\ output_format (file_info data)
                  = orElse (Electron.outputFormat request) "txt"
           | Electron.Failure error =>
               exists m, error = "Transcription failed: " +:+ m
           end)
  /\ (forall request w,
        Electron.transcribeAudio e destructuringError undefinedError None (Some request) w
        = (Electron.Failure undefinedError, None, w)).
Proof.
  split; [|split; [|reflexivity]].
  - intros old w c current w'. unfold Electron.initializeTranscriber, newTranscriber.
    destruct (ensureDir _) as [msg|]; [discriminate|]. unfold ret.
    destruct (checkWhisperAvailability e _ w) as [r w1]. intros [= -> <- <-].
    eexists. split; [reflexivity|]. repeat split.
  - intros t request w Hlocal model outcome. subst outcome.
    unfold Electron.transcribeAudio. fold model.
    assert (Hset : (if bool_decide (model <> modelOf t) then setModel model t else t)
                   = setModel model t).
    { destruct (bool_decide (model <> modelOf t)) eqn:Hm; [reflexivity|].
      apply bool_decide_eq_false in Hm. apply dec_stable in Hm.
      unfold modelOf in Hm. rewrite Hm. destruct t; reflexivity. }
    rewrite Hset.
    assert (Hlocal' : isLocalOnly (setModel model t)) by exact Hlocal.
    pose proof (transcribe_offline e (setModel model t) (Electron.filePath request)
                  (transcribeOptions (default false (Electron.includeTimestamps request))
                     (Some (default "txt" (Electron.outputFormat request))))
                  Hlocal' w) as Hoff.
    destruct (transcribe e (setModel model t) _ _ w) as [[r|msg] w'] eqn:Hrun;
      cbn [fst snd] in *.
    + split; [reflexivity|]. split; [exact Hlocal'|]. split; [exact Hoff|].
      destruct (result_fields e (setModel model t) _ _ _ _ _ Hrun) as [Hmodel Hformat].
      split; [exact Hmodel|]. rewrite Hformat.
      destruct (Electron.outputFormat request) as [[|a s]|]; reflexivity.
    + split; [reflexivity|]. split; [exact Hlocal'|]. split; [exact Hoff|].
      exact (transcribe_throw_prefix e (setModel model t) _ _ _ _ _ Hrun).
Qed.

Lemma desktop_app_stays_local_witness :
  let run :=
    Electron.transcribeAudio Fixture.bare "Cannot destructure property of undefined"
      "Cannot read properties of undefined" (Some Fixture.transcriber)
      (Some {| Electron.filePath := "/data/talk.mp3";
               Electron.includeTimestamps := None;
               Electron.outputFormat := Some "srt";
               Electron.whisperModel := Some "small" |})
      (Fixture.world Fixture.disk) in
  run.1.2 = Some (setModel "small" Fixture.transcriber)
  /\ extends isOfflineEvent (Fixture.world Fixture.disk) run.2.
Proof.
  intros run.
  destruct (proj1 (proj2 (desktop_app_stays_local Fixture.bare "/work" "/tmp"
                             (fun _ => None) "Cannot destructure property of undefined"
                             "Cannot read properties of undefined"))
              Fixture.transcriber
              {| Electron.filePath := "/data/talk.mp3";
                 Electron.includeTimestamps := None;
                 Electron.outputFormat := Some "srt";
                 Electron.whisperModel := Some "small" |}
              (Fixture.world Fixture.disk) eq_refl) as (Hg & _ & Hoff & _).
  split; [exact Hg | exact Hoff].
Defined.

Section RendererFacts.

Lemma slength_app (a b : string) :
  String.length (a +:+ b) = (String.length a + String.length b)%nat.
Proof. induction a as [|c a IH]; [reflexivity|]. rewrite sapp_cons. cbn. rewrite IH. reflexivity. Qed.





Lemma lastIndexFrom_noDot (s : string) (i found : Z) :
  noDot s = true -> Renderer.lastIndexFrom "." s i found = found.
Proof.
  revert i found. induction s as [|c s IH]; intros i found H; [reflexivity|].
  cbn [noDot] in H. apply andb_true_iff in H as [Hc Hs]. apply negb_true_iff in Hc.
  cbn [Renderer.lastIndexFrom]. rewrite Hc. apply IH, Hs.
Qed.

Lemma lastIndexFrom_app (stem ext : string) (i found : Z) :
  noDot ext = true ->
  Renderer.lastIndexFrom "." (stem +:+ "." +:+ ext) i found
  = (i + Z.of_nat (String.length stem))%Z.
Proof.
  intros Hext. revert i found. induction stem as [|c stem IH]; intros i found.
  - rewrite sapp_empty_l. change ("." +:+ ext) with (String "." ext).
    cbn [Renderer.lastIndexFrom]. rewrite Ascii.eqb_refl.
    rewrite lastIndexFrom_noDot by exact Hext. cbn. lia.
  - rewrite sapp_cons. cbn [Renderer.lastIndexFrom]. rewrite IH.
    cbn [String.length]. lia.
Qed.


Lemma takeChars_app (a b : string) : Renderer.takeChars (String.length a) (a +:+ b) = a.
Proof.
  induction a as [|c a IH]; [destruct b; reflexivity|].
  rewrite sapp_cons. cbn [String.length Renderer.takeChars]. rewrite IH. reflexivity.
Qed.

Lemma clampIndex_inside (a b : string) :
  Renderer.clampIndex (Z.of_nat (String.length a)) (a +:+ b) = String.length a.
Proof. unfold Renderer.clampIndex. rewrite slength_app. lia. Qed.

Lemma clampIndex_negative (s : string) : Renderer.clampIndex (-1) s = 0%nat.
Proof. reflexivity. Qed.


End RendererFacts.



(** X26. The default name that the desktop application proposes for saving
    a transcript: for a file name [stem.ext] it is [stem] followed by
    ['_transcript.'] and the selected format; for a file name without a dot
    the name of the file is lost and the proposal is ['_transcript.'] and
    the format. *)
Theorem default_save_name (stem ext format : string) :
  noDot ext = true ->
  Renderer.defaultName (stem +:+ "." +:+ ext) format = stem +:+ "_transcript." +:+ format
  /\ Renderer.defaultName ext format = "_transcript." +:+ format.
Proof.
  intros Hext. unfold Renderer.defaultName, Renderer.lastIndexOf, Renderer.substring. split.
  - rewrite lastIndexFrom_app by exact Hext. rewrite Z.add_0_l.
    rewrite clampIndex_inside.
    change (Renderer.clampIndex 0 (stem +:+ "." +:+ ext)) with 0%nat.
    rewrite Nat.max_0_l, Nat.min_0_l, Nat.sub_0_r. cbn [Renderer.dropChars].
    rewrite takeChars_app. reflexivity.
  - rewrite lastIndexFrom_noDot by exact Hext. rewrite clampIndex_negative.
    change (Renderer.clampIndex 0 ext) with 0%nat. reflexivity.
Qed.

Lemma default_save_name_witness :
  Renderer.defaultName "talk.final.mp3" "srt" = "talk.final_transcript.srt"
  /\ Renderer.defaultName "recording" "txt" = "_transcript.txt".
Proof.
  split.
  - exact (proj1 (default_save_name "talk.final" "mp3" "srt" eq_refl)).
  - exact (proj2 (default_save_name "" "recording" "txt" eq_refl)).
Defined.
